(** * Pairing: session registry and QR / pairing-code routes

    A shallow embedding of the four Baileys-backed variants of the BAN-MD
    pairing service (ban-md.js, its 25 s long-poll sibling, server.js and the
    query-string API with 8-digit normalisation) as one event-loop machine.

    JavaScript runs every callback to completion; an [await] on a provider
    promise is the only place where a route or [createSession] is suspended.
    The machine therefore has one transition per callback the Node event loop
    can run: an HTTP request arriving, an awaited promise settling, the socket
    emitting ["connection.update"], the provider recording the logged-in
    user, and the clock reaching the deadline of armed timers. *)

From stdpp Require Import gmap strings list.
From Stdlib Require Import ZArith Ascii Lia.

(** ** JavaScript strings *)

Module Js.

(** A character matched by [\d] (without the unicode flag: ASCII 0-9). *)
Definition is_digit (c : ascii) : bool :=
  (48 <=? nat_of_ascii c) && (nat_of_ascii c <=? 57).

(** [s.replace(/\D/g, "")] *)
Fixpoint strip_non_digits (s : string) : string :=
  match s with
  | EmptyString => EmptyString
  | String c s' =>
      if is_digit c then String c (strip_non_digits s') else strip_non_digits s'
  end.

(** Truthiness of a string value: only [""] is falsy. *)
Definition truthy (s : string) : bool :=
  match s with EmptyString => false | String _ _ => true end.

(** Truthiness of a value that is a string, [null] or [undefined]. *)
Definition truthy_opt (o : option string) : bool :=
  match o with Some s => truthy s | None => false end.

(** [a || b] on strings. *)
Definition or_else (a : option string) (b : string) : string :=
  match a with
  | Some s => if truthy s then s else b
  | None => b
  end.

(** [n] characters read cyclically from [fill], continuing at [cur]. *)
Fixpoint fill_chars (n : nat) (fill cur : string) : string :=
  match n with
  | O => EmptyString
  | S n' =>
      match cur with
      | String c cur' => String c (fill_chars n' fill cur')
      | EmptyString =>
          match fill with
          | String c fill' => String c (fill_chars n' fill fill')
          | EmptyString => EmptyString
          end
      end
  end.

(** [s.padEnd(target, fill)] *)
Definition padEnd (target : nat) (fill s : string) : string :=
  if target <=? String.length s then s
  else s +:+ fill_chars (target - String.length s) fill fill.

(** [s.slice(0, n)] *)
Fixpoint slice0 (n : nat) (s : string) : string :=
  match n, s with
  | S n', String c s' => String c (slice0 n' s')
  | _, _ => EmptyString
  end.

(** Own-or-inherited keys every plain object [{}] answers with a truthy
    value; [sessions[key]] on the object registry finds these without any
    session having been stored. *)
Definition inherited_keys : list string :=
  [ "constructor"; "__proto__"; "hasOwnProperty"; "isPrototypeOf";
    "propertyIsEnumerable"; "toLocaleString"; "toString"; "valueOf";
    "__defineGetter__"; "__defineSetter__"; "__lookupGetter__";
    "__lookupSetter__" ].

Definition inherited (key : string) : bool :=
  bool_decide (key ∈ inherited_keys).

End Js.

(** ** Values exchanged with the outside *)

(** The four variants of the service. *)
Inductive Variant :=
  | ban_md      (* ban-md.js *)
  | part_000    (* the 25 s long-poll sibling of ban-md.js *)
  | server      (* server.js *)
  | part_003.   (* the query-string API: /qr, /pair, /status *)

(** The object a socket passes to its ["connection.update"] listeners. *)
Record Update := mkUpdate {
  u_qr : option string;
  u_connection : option string
}.

Inductive JVal :=
  | JStr (s : string)
  | JBool (b : bool)
  | JNull.

(** One [res.json(...)] call: the status set before it and the object. *)
Record Reply := mkReply {
  status : nat;
  body : list (string * JVal)
}.

Definition json (b : list (string * JVal)) : Reply := mkReply 200 b.

(** [user: x || null] inside a reply. *)
Definition juser (u : option string) : JVal :=
  match u with Some x => JStr x | None => JNull end.

(** [key: value] in an object literal handed to [res.json]: a key whose
    value is [undefined] is left out of the serialised object. *)
Definition jfield (key : string) (value : option string)
  : list (string * JVal) :=
  match value with Some x => [(key, JStr x)] | None => [] end.

(** How an awaited promise settles. *)
Inductive Outcome :=
  | Fulfilled (value : string)
  | Rejected (message : string).

(** What [makeWASocket] hands back: the identity restored from the stored
    credentials, if any, and whether the socket has [requestPairingCode]. *)
Record Made := mkMade {
  made_user : option string;
  made_pairing : bool
}.

(** Calls into the connection provider, in the order they are made. *)
Inductive Call :=
  | UseMultiFileAuthState (id : string)
  | FetchLatestBaileysVersion
  | MakeWASocket
  | RequestPairingCode (h : nat) (phone : string)
  | SendMessage (h : nat) (text : string).

Global Instance Call_eq_dec : EqDecision Call.
Proof. solve_decision. Defined.

(** ** Closures *)

(** Functions registered on [sock.ev] for ["connection.update"]. *)
Inductive Listener :=
  | SessionListener (id : string) (obj : nat)
      (* the arrow function in createSession; closes over sessionId, the
         session object and sock *)
  | WaitListener (r : nat) (id : string)
      (* [handler] in the /api/qr route of request [r] *)
  | ProbeListener (r : nat).
      (* the arrow function in the /qr route of part_003 *)

Global Instance Listener_eq_dec : EqDecision Listener.
Proof. solve_decision. Defined.

Record Registration := mkReg {
  fn : Listener;
  once : bool
}.

(** The route waiting for [createSession] to return. *)
Inductive Caller :=
  | QrRoute (r : nat)
  | PairRoute (r : nat) (sessionId phone : string).

(** Async functions suspended at an [await]. *)
Inductive Task :=
  | AwaitAuthState (k : Caller) (id : string)
  | AwaitVersion (k : Caller) (id : string)
  | AwaitCachedQR (r : nat) (id payload : string)
  | AwaitEventQR (r : nat) (id : string) (h : nat) (u : Update)
  | AwaitPairCode (r : nat) (sessionId id : string)
  | AwaitSend (obj : nat).

(** ** The heap *)

Record Sock := mkSock {
  user : option string;            (* sock.user *)
  listeners : list Registration;   (* "connection.update", oldest first *)
  creds_listeners : nat;           (* "creds.update" listeners *)
  pairing : bool                   (* typeof requestPairingCode === "function" *)
}.

(** A session object; each variant uses the fields it declares. *)
Record Session := mkSession {
  sock : nat;
  lastQR : option string;
  lastQRAt : Z;
  s_user : option string;
  s_connection : string;
  sentSessionMsg : bool
}.

Record Timer := mkTimer {
  due : Z;
  t_id : string;
  t_sock : nat
}.

(** The variables one request's closures share, and its [res]. *)
Record Req := mkReq {
  responded : bool;
  qrData : option string;
  timer : option Timer;
  clear_on_finish : bool;          (* res.on("finish", () => clearTimeout(t)) *)
  replies : list Reply             (* res.json calls, oldest first *)
}.

Record World := mkWorld {
  sessions : gmap string nat;      (* the registry: id -> reference *)
  objs : list Session;             (* session objects, by reference *)
  socks : list Sock;               (* sockets, by reference *)
  reqs : list Req;
  tasks : list (option Task);      (* None once resumed *)
  now : Z;                         (* Date.now() *)
  calls : list Call;
  exited : bool                    (* node has ended the process *)
}.

Definition empty_world : World :=
  mkWorld ∅ [] [] [] [] 0 [] false.

(** ** Primitive effects *)

Definition with_req (r : nat) (f : Req → Req) (w : World) : World :=
  mkWorld (sessions w) (objs w) (socks w) (alter f r (reqs w)) (tasks w)
          (now w) (calls w) (exited w).

Definition with_sock (h : nat) (f : Sock → Sock) (w : World) : World :=
  mkWorld (sessions w) (objs w) (alter f h (socks w)) (reqs w) (tasks w)
          (now w) (calls w) (exited w).

Definition with_obj (l : nat) (f : Session → Session) (w : World) : World :=
  mkWorld (sessions w) (alter f l (objs w)) (socks w) (reqs w) (tasks w)
          (now w) (calls w) (exited w).

Definition with_sessions (f : gmap string nat → gmap string nat) (w : World)
  : World :=
  mkWorld (f (sessions w)) (objs w) (socks w) (reqs w) (tasks w) (now w)
          (calls w) (exited w).

Definition new_req (w : World) : World :=
  mkWorld (sessions w) (objs w) (socks w)
          (reqs w ++ [mkReq false None None false []]) (tasks w) (now w)
          (calls w) (exited w).

Definition new_sock (s : Sock) (w : World) : World :=
  mkWorld (sessions w) (objs w) (socks w ++ [s]) (reqs w) (tasks w) (now w)
          (calls w) (exited w).

Definition new_obj (s : Session) (w : World) : World :=
  mkWorld (sessions w) (objs w ++ [s]) (socks w) (reqs w) (tasks w) (now w)
          (calls w) (exited w).

(** Suspend at an [await]. *)
Definition spawn (t : Task) (w : World) : World :=
  mkWorld (sessions w) (objs w) (socks w) (reqs w) (tasks w ++ [Some t])
          (now w) (calls w) (exited w).

Definition finish_task (k : nat) (w : World) : World :=
  mkWorld (sessions w) (objs w) (socks w) (reqs w) (<[k := None]> (tasks w))
          (now w) (calls w) (exited w).

Definition call (c : Call) (w : World) : World :=
  mkWorld (sessions w) (objs w) (socks w) (reqs w) (tasks w) (now w)
          (calls w ++ [c]) (exited w).

Definition set_now (t : Z) (w : World) : World :=
  mkWorld (sessions w) (objs w) (socks w) (reqs w) (tasks w) t (calls w)
          (exited w).

(** A promise rejects and nothing handles the rejection: node reports it and
    ends the process.  No source file installs a process-level handler. *)
Definition unhandled (w : World) : World :=
  mkWorld (sessions w) (objs w) (socks w) (reqs w) (tasks w) (now w)
          (calls w) true.

(** [res.json(rep)] on the response of request [r].  The first call sends the
    reply and lets ["finish"] run; Express answers any later call with the
    error ERR_HTTP_HEADERS_SENT.  [replies] records every call. *)
Definition res_json (r : nat) (rep : Reply) : World → World :=
  with_req r (fun q =>
    mkReq (responded q) (qrData q)
          (if clear_on_finish q then None else timer q)
          (clear_on_finish q) (replies q ++ [rep])).

(** [responded = true] *)
Definition set_responded (r : nat) : World → World :=
  with_req r (fun q =>
    mkReq true (qrData q) (timer q) (clear_on_finish q) (replies q)).

(** Reading [responded] from the closure of request [r]. *)
Definition is_responded (r : nat) (w : World) : bool :=
  from_option responded false (reqs w !! r).

(** [setTimeout(cb, delay)] in the route of request [r]. *)
Definition setTimeout (r : nat) (t : Timer) : World → World :=
  with_req r (fun q =>
    mkReq (responded q) (qrData q) (Some t) (clear_on_finish q) (replies q)).

Definition timer_done (r : nat) : World → World :=
  with_req r (fun q =>
    mkReq (responded q) (qrData q) None (clear_on_finish q) (replies q)).

(** [res.on("finish", () => clearTimeout(t))] *)
Definition on_finish_clear (r : nat) : World → World :=
  with_req r (fun q =>
    mkReq (responded q) (qrData q) (timer q) true (replies q)).

Definition set_qrData (r : nat) (d : option string) : World → World :=
  with_req r (fun q =>
    mkReq (responded q) d (timer q) (clear_on_finish q) (replies q)).

(** [sock.user] *)
Definition sock_user (h : nat) (w : World) : option string :=
  socks w !! h ≫= user.

Definition sock_pairing (h : nat) (w : World) : bool :=
  from_option pairing false (socks w !! h).

(** [sock.ev.on("connection.update", f)] and [sock.ev.once(...)] *)
Definition ev_on (h : nat) (g : Registration) : World → World :=
  with_sock h (fun s =>
    mkSock (user s) (listeners s ++ [g]) (creds_listeners s) (pairing s)).

(** [sock.ev.on("creds.update", saveCreds)] *)
Definition on_creds (h : nat) : World → World :=
  with_sock h (fun s =>
    mkSock (user s) (listeners s) (S (creds_listeners s)) (pairing s)).

(** [removeListener]: drops the most recently added registration of [f]. *)
Fixpoint remove_last (f : Listener) (gs : list Registration)
  : list Registration :=
  match gs with
  | [] => []
  | g :: gs' =>
      if bool_decide (f ∈ fn <$> gs') then g :: remove_last f gs'
      else if bool_decide (fn g = f) then gs' else g :: gs'
  end.

(** [sock.ev.off("connection.update", f)] *)
Definition ev_off (h : nat) (f : Listener) : World → World :=
  with_sock h (fun s =>
    mkSock (user s) (remove_last f (listeners s)) (creds_listeners s)
           (pairing s)).

Definition set_user (h : nat) (who : string) : World → World :=
  with_sock h (fun s =>
    mkSock (Some who) (listeners s) (creds_listeners s) (pairing s)).

(** ** Constants of the variants *)

(** Delay of the timer armed by the QR route, in milliseconds. *)
Definition qr_timeout (v : Variant) : Z :=
  match v with
  | ban_md => 10000
  | part_000 => 25000
  | server => 10000
  | part_003 => 2000
  end.

(** Age below which the cached QR is reused. *)
Definition qr_ttl : Z := 60000.

Definition logged_in (v : Variant) : string :=
  match v with
  | part_000 => "Logged in"
  | _ => "Already logged in"
  end.

Definition phone_required (v : Variant) : string :=
  match v with
  | part_000 => "Valid phone required (include country code digits only)"
  | _ => "Valid phone required (include country code, digits only)"
  end.

Definition qr_unavailable : string := "QR not available yet. Tap again.".

(** [raw.replace(/\D/g, "").padEnd(8, "0").slice(0, 8)] *)
Definition code8 (raw : string) : string :=
  Js.slice0 8 (Js.padEnd 8 "0" (Js.strip_non_digits raw)).

(** ** Listeners *)

(** The ["connection.update"] listener [createSession] installs on the
    socket [h] it made for [id]; [l] is the session object it closes over. *)
Definition session_update (v : Variant) (id : string) (l h : nat) (u : Update)
    (w : World) : World :=
  match v with
  | ban_md =>
      let w :=
        if Js.truthy_opt (u_qr u) then
          with_obj l (fun s =>
            mkSession (sock s) (u_qr u) (now w) (s_user s) (s_connection s)
                      (sentSessionMsg s)) w
        else w in
      let w :=
        match u_connection u with
        | Some c =>
            if Js.truthy c then
              with_obj l (fun s =>
                mkSession (sock s) (lastQR s) (lastQRAt s) (s_user s) c
                          (sentSessionMsg s)) w
            else w
        | None => w
        end in
      match sock_user h w with
      | Some who =>
          with_obj l (fun s =>
            mkSession (sock s) (lastQR s) (lastQRAt s) (Some who)
                      (s_connection s) (sentSessionMsg s)) w
      | None => w
      end
  | part_000 =>
      let w :=
        if Js.truthy_opt (u_qr u) then
          with_obj l (fun s =>
            mkSession (sock s) (u_qr u) (now w) (s_user s) (s_connection s)
                      (sentSessionMsg s)) w
        else w in
      if bool_decide (u_connection u = Some "open")
         && negb (from_option sentSessionMsg false (objs w !! l))
         && Js.truthy_opt (sock_user h w)
      then spawn (AwaitSend l) (call (SendMessage h id) w)
      else w
  | server =>
      if bool_decide (u_connection u = Some "close")
      then with_sessions (delete id) w
      else w
  | part_003 => w
  end.

(** After [await sock.sendMessage(...)], whichever way it settled. *)
Definition send_settled (l : nat) : World → World :=
  with_obj l (fun s =>
    mkSession (sock s) (lastQR s) (lastQRAt s) (s_user s) (s_connection s)
              true).

(** The second [if] of [handler]: the socket reports ["open"]. *)
Definition handler_open (v : Variant) (r : nat) (id : string) (h : nat)
    (u : Update) (w : World) : World :=
  if bool_decide (u_connection u = Some "open") && negb (is_responded r w)
  then
    let w := set_responded r w in
    match v with
    | server =>
        let w :=
          res_json r (json [("ok", JBool true); ("connected", JBool true)]) w in
        ev_off h (WaitListener r id) w
    | _ =>
        res_json r (json ([("message", JStr (logged_in v))]
                          ++ jfield "user" (sock_user h w)
                          ++ [("sessionId", JStr id)])) w
    end
  else w.

(** [handler] of the QR route, up to its [await qrcode.toDataURL(...)]. *)
Definition handler (v : Variant) (r : nat) (id : string) (h : nat)
    (u : Update) (w : World) : World :=
  match u_qr u with
  | Some payload =>
      if Js.truthy payload && negb (is_responded r w)
      then spawn (AwaitEventQR r id h u) (set_responded r w)
      else handler_open v r id h u w
  | None => handler_open v r id h u w
  end.

(** [handler] resumed when [qrcode.toDataURL(update.qr)] settles.  Only
    server.js awaits it inside a [try]; elsewhere a rejection leaves the
    async [handler], whose promise the emitter drops. *)
Definition handler_encoded (v : Variant) (r : nat) (id : string) (h : nat)
    (u : Update) (o : Outcome) (w : World) : World :=
  match v, o with
  | server, Fulfilled png =>
      let w := res_json r (json [("ok", JBool true); ("qr", JStr png)]) w in
      let w := ev_off h (WaitListener r id) w in
      handler_open v r id h u w
  | server, Rejected _ =>
      let w :=
        res_json r (mkReply 500 [("ok", JBool false);
                                 ("error", JStr "Failed to encode QR")]) w in
      let w := ev_off h (WaitListener r id) w in
      handler_open v r id h u w
  | _, Fulfilled img =>
      let w := res_json r (json [("qr", JStr img); ("sessionId", JStr id)]) w in
      handler_open v r id h u w
  | _, Rejected _ => unhandled w
  end.

(** The callback given to [setTimeout] by the QR route of request [r]. *)
Definition timeout_cb (v : Variant) (r : nat) (t : Timer) (w : World)
  : World :=
  match v with
  | ban_md | part_000 =>
      if negb (is_responded r w)
      then res_json r (json [("error", JStr qr_unavailable);
                             ("sessionId", JStr (t_id t))]) w
      else w
  | server =>
      if negb (is_responded r w)
      then
        let w := set_responded r w in
        let w :=
          res_json r (mkReply 504 [("ok", JBool false);
                                   ("error", JStr "QR timeout")]) w in
        ev_off (t_sock t) (WaitListener r (t_id t)) w
      else w
  | part_003 =>
      match reqs w !! r ≫= qrData with
      | Some d =>
          if Js.truthy d
          then res_json r (json [("ok", JBool true);
                                 ("qr", JStr ("data:image/png;base64," +:+ d));
                                 ("session", JStr (t_id t))]) w
          else res_json r (json [("ok", JBool false);
                                 ("message", JStr "QR not available yet.")]) w
      | None =>
          res_json r (json [("ok", JBool false);
                            ("message", JStr "QR not available yet.")]) w
      end
  end.

(** Calling one registered function with the update. *)
Definition callback (v : Variant) (h : nat) (f : Listener) (u : Update)
    (w : World) : World :=
  match f with
  | SessionListener id l => session_update v id l h u w
  | WaitListener r id => handler v r id h u w
  | ProbeListener r =>
      if Js.truthy_opt (u_qr u) then set_qrData r (u_qr u) w else w
  end.

(** One registration's turn within an emit: a [once] registration is taken
    off the socket first. *)
Definition deliver (v : Variant) (h : nat) (u : Update) (w : World)
    (g : Registration) : World :=
  let w := if once g then ev_off h (fn g) w else w in
  callback v h (fn g) u w.

(** [sock.ev.emit("connection.update", u)]: the listeners registered when
    the emit starts are called in registration order. *)
Definition emit (v : Variant) (h : nat) (u : Update) (w : World) : World :=
  match socks w !! h with
  | Some s => foldl (deliver v h u) w (listeners s)
  | None => w
  end.

(** ** Routes after [createSession] has returned *)

(** [lastQR && Date.now() - lastQRAt < 60_000], on the values createSession
    returned: the cached payload when it is to be reused. *)
Definition fresh_qr (s : Session) (w : World) : option string :=
  match lastQR s with
  | Some payload =>
      if Js.truthy payload && bool_decide (now w - lastQRAt s < qr_ttl)%Z
      then Some payload
      else None
  | None => None
  end.

(** /api/qr (and /qr) from the line after [await createSession(...)];
    [s] is the value createSession returned. *)
Definition qr_route_k (v : Variant) (r : nat) (id : string) (s : Session)
    (w : World) : World :=
  let h := sock s in
  let wait (w : World) :=
    let w := ev_on h (mkReg (WaitListener r id) true) w in
    let w := setTimeout r (mkTimer (now w + qr_timeout v) id h) w in
    match v with
    | part_000 => on_finish_clear r w
    | _ => w
    end in
  match v with
  | ban_md | part_000 =>
      match sock_user h w with
      | Some who =>
          res_json r (json [("message", JStr (logged_in v));
                            ("user", JStr who);
                            ("sessionId", JStr id)]) w
      | None =>
          match fresh_qr s w with
          | Some payload => spawn (AwaitCachedQR r id payload) w
          | None => wait w
          end
      end
  | server =>
      let w := ev_on h (mkReg (WaitListener r id) false) w in
      setTimeout r (mkTimer (now w + qr_timeout v) id h) w
  | part_003 =>
      let w := ev_on h (mkReg (ProbeListener r) false) w in
      setTimeout r (mkTimer (now w + qr_timeout v) id h) w
  end.

(** The cache branch resumed when [qrcode.toDataURL(lastQR)] settles.  The
    route awaits it outside any [try]. *)
Definition cached_encoded (r : nat) (id : string) (o : Outcome) (w : World)
  : World :=
  match o with
  | Fulfilled img =>
      res_json r (json [("qr", JStr img); ("sessionId", JStr id)]) w
  | Rejected _ => unhandled w
  end.

(** The pairing route from the line after [await createSession(...)];
    [sessionId] is the request parameter and [id] the id createSession chose. *)
Definition pair_route_k (v : Variant) (r : nat) (sessionId phone id : string)
    (s : Session) (w : World) : World :=
  let h := sock s in
  let request (w : World) :=
    spawn (AwaitPairCode r sessionId id) (call (RequestPairingCode h phone) w) in
  match v with
  | ban_md | part_000 =>
      match sock_user h w with
      | Some who =>
          res_json r (json [("message", JStr "Already logged in");
                            ("user", JStr who);
                            ("sessionId",
                             JStr match v with
                                  | part_000 => sessionId
                                  | _ => id
                                  end)]) w
      | None => request w
      end
  | server => request w
  | part_003 =>
      if sock_pairing h w then request w
      else
        res_json r
          (json [("ok", JBool false);
                 ("message",
                  JStr "Pairing code not supported by this Baileys version. Use QR login.")])
          w
  end.

(** The pairing route resumed when [sock.requestPairingCode] settles. *)
Definition pair_settled (v : Variant) (r : nat) (sessionId id : string)
    (o : Outcome) (w : World) : World :=
  match v, o with
  | ban_md, Fulfilled code =>
      res_json r (json [("code", JStr code); ("sessionId", JStr id)]) w
  | ban_md, Rejected m =>
      res_json r (json [("error",
                         JStr (Js.or_else (Some m) "Failed to generate code"));
                        ("sessionId", JStr id)]) w
  | part_000, Fulfilled code =>
      res_json r (json [("code", JStr code); ("sessionId", JStr sessionId)]) w
  | part_000, Rejected m =>
      res_json r (json [("error",
                         JStr (Js.or_else (Some m) "Failed to generate code"));
                        ("sessionId", JStr sessionId)]) w
  | server, Fulfilled code =>
      res_json r (json [("ok", JBool true); ("code", JStr code)]) w
  | server, Rejected _ =>
      res_json r (mkReply 500 [("ok", JBool false);
                               ("error", JStr "Failed to get pairing code")]) w
  | part_003, Fulfilled raw =>
      res_json r
        (json [("ok", JBool true);
               ("code", JStr (code8 raw));
               ("message",
                JStr "Enter this 8-digit code on your phone (Linked devices)")])
        w
  | part_003, Rejected m =>
      res_json r (json [("ok", JBool false); ("message", JStr m)]) w
  end.

(** [createSession] returns to the route that awaits it. *)
Definition return_to (v : Variant) (k : Caller) (id : string) (s : Session)
    (w : World) : World :=
  match k with
  | QrRoute r => qr_route_k v r id s w
  | PairRoute r sessionId phone => pair_route_k v r sessionId phone id s w
  end.

(** [createSession] throws into the route that awaits it.

    The pairing route of server.js awaits inside a [try] and answers 500.

    Both routes of ban-md.js and of its long-poll sibling await outside any
    [try], so the promise of the async route rejects.  Their QR route is
    mounted on ["/api/qr/:sessionId?"], a path only Express 4 accepts, and
    Express 4 attaches no handler to the promise a route returns: the
    rejection is unhandled.

    The QR route of server.js and the routes of the query-string API await
    outside a [try] as well, but nothing in the sources ties them to one
    major version of the framework: Express 5 passes the rejection to its
    error handler, which answers the request itself.  No [res.json] call is
    made for the request and the process goes on. *)
Definition throw_to (v : Variant) (k : Caller) (w : World) : World :=
  match v, k with
  | server, PairRoute r _ _ =>
      res_json r (mkReply 500 [("ok", JBool false);
                               ("error", JStr "Failed to get pairing code")]) w
  | (ban_md | part_000), _ => unhandled w
  | _, _ => w
  end.

(** ** createSession *)

(** What the existence check at the top of [createSession] finds. *)
Inductive Found :=
  | Live (s : Session)   (* a stored session: returned as it is *)
  | Junk                 (* a truthy value that is no session *)
  | Absent.

(** The session a bare socket reference stands for. *)
Definition of_sock (h : nat) : Session := mkSession h None 0 None "" false.

Definition find_session (v : Variant) (id : string) (w : World) : Found :=
  match v with
  | ban_md | part_000 =>
      (* let s = sessions.get(id); if (s && s.sock) *)
      match sessions w !! id with
      | Some l =>
          match objs w !! l with
          | Some s => Live s
          | None => Absent
          end
      | None => Absent
      end
  | server =>
      (* if (sessions.get(sessionId)) *)
      match sessions w !! id with
      | Some h => Live (of_sock h)
      | None => Absent
      end
  | part_003 =>
      (* if (sessions[sessionId]) on a plain object *)
      match sessions w !! id with
      | Some l =>
          match objs w !! l with
          | Some s => Live s
          | None => Absent
          end
      | None => if Js.inherited id then Junk else Absent
      end
  end.

(** The id [createSession] works with. *)
Definition session_id (v : Variant) (sessionId : option string)
    (rnd : string) : string :=
  match v with
  | ban_md | part_000 => Js.or_else sessionId rnd   (* sessionId || randomId() *)
  | server => default "session1" sessionId          (* default parameter *)
  | part_003 => default "ban-session1" sessionId
  end.

(** [createSession(sessionId)] up to its first suspension; [rnd] is what the
    random id generator would produce and [k] the awaiting route. *)
Definition createSession (v : Variant) (sessionId : option string)
    (rnd : string) (k : Caller) (w : World) : World :=
  let id := session_id v sessionId rnd in
  match find_session v id w with
  | Live s => return_to v k id s w
  | Junk => throw_to v k w   (* the route dereferences [s.sock.ev] *)
  | Absent => spawn (AwaitAuthState k id) (call (UseMultiFileAuthState id) w)
  end.

(** [createSession] resumed when [useMultiFileAuthState] settles. *)
Definition auth_settled (v : Variant) (k : Caller) (id : string)
    (o : Outcome) (w : World) : World :=
  match o with
  | Fulfilled _ => spawn (AwaitVersion k id) (call FetchLatestBaileysVersion w)
  | Rejected _ => throw_to v k w
  end.

(** [createSession] from [makeWASocket] returning [m] to its [return]. *)
Definition construct (v : Variant) (k : Caller) (id : string) (m : Made)
    (w : World) : World :=
  let h := length (socks w) in
  let w := new_sock (mkSock (made_user m) [] 0 (made_pairing m)) w in
  match v with
  | ban_md =>
      let l := length (objs w) in
      let s := mkSession h None 0 None "init" false in
      let w := new_obj s w in
      let w := with_sessions <[id := l]> w in
      let w := on_creds h w in
      let w := ev_on h (mkReg (SessionListener id l) false) w in
      return_to v k id s w
  | part_000 =>
      let l := length (objs w) in
      let s := mkSession h None 0 None "" false in
      let w := new_obj s w in
      let w := with_sessions <[id := l]> w in
      let w := on_creds h w in
      let w := ev_on h (mkReg (SessionListener id l) false) w in
      return_to v k id s w
  | server =>
      let w := on_creds h w in
      let w := ev_on h (mkReg (SessionListener id h) false) w in
      let w := with_sessions <[id := h]> w in
      return_to v k id (of_sock h) w
  | part_003 =>
      let w := on_creds h w in
      let l := length (objs w) in
      let s := of_sock h in
      let w := new_obj s w in
      let w := with_sessions <[id := l]> w in
      return_to v k id s w
  end.

(** [createSession] resumed when [fetchLatestBaileysVersion] settles; [mk]
    is what the [makeWASocket] call that follows does: return a socket or
    throw. *)
Definition version_settled (v : Variant) (k : Caller) (id : string)
    (o : Outcome) (mk : option Made) (w : World) : World :=
  match o with
  | Fulfilled _ =>
      let w := call MakeWASocket w in
      match mk with
      | Some m => construct v k id m w
      | None => throw_to v k w
      end
  | Rejected _ => throw_to v k w
  end.

(** ** Routes *)

(** [req.params.sessionId && req.params.sessionId !== "new" ?
     req.params.sessionId : null] *)
Definition wanted (param : option string) : option string :=
  match param with
  | Some p => if Js.truthy p && negb (String.eqb p "new") then Some p else None
  | None => None
  end.

(** GET /api/qr/:sessionId? (GET /qr?session= in part_003). *)
Definition qr_route (v : Variant) (param : option string) (rnd : string)
    (w : World) : World :=
  let r := length (reqs w) in
  let w := new_req w in
  match v with
  | ban_md | part_000 => createSession v (wanted param) rnd (QrRoute r) w
  | server => createSession v param rnd (QrRoute r) w
  | part_003 =>
      createSession v (Some (Js.or_else param "ban-session1")) rnd (QrRoute r) w
  end.

(** GET /api/pair/:sessionId/:phone (GET /pair?session=&phone= in part_003,
    where an absent query parameter reads as [""]). *)
Definition pair_route (v : Variant) (sessionId phone rnd : string)
    (w : World) : World :=
  let r := length (reqs w) in
  let w := new_req w in
  match v with
  | ban_md | part_000 =>
      let clean := Js.strip_non_digits phone in
      if Js.truthy clean
      then createSession v (Some sessionId) rnd (PairRoute r sessionId clean) w
      else res_json r (json [("error", JStr (phone_required v))]) w
  | server =>
      createSession v (Some sessionId) rnd (PairRoute r sessionId phone) w
  | part_003 =>
      let id := Js.or_else (Some sessionId) "ban-session1" in
      if Js.truthy phone
      then createSession v (Some id) rnd (PairRoute r id phone) w
      else res_json r (json [("ok", JBool false);
                             ("message", JStr "Phone number required")]) w
  end.

(** ** The event loop *)

Inductive Event :=
  | GetQR (param : option string) (rnd : string)
  | GetPair (sessionId phone rnd : string)
  | Settle (k : nat) (o : Outcome) (mk : option Made)
  | Emit (h : nat) (u : Update)
  | Login (h : nat) (who : string)
  | Advance (t : Z).

(** Resuming a suspended task with the outcome of what it awaited. *)
Definition resume (v : Variant) (t : Task) (o : Outcome) (mk : option Made)
    (w : World) : World :=
  match t with
  | AwaitAuthState k id => auth_settled v k id o w
  | AwaitVersion k id => version_settled v k id o mk w
  | AwaitCachedQR r id _ => cached_encoded r id o w
  | AwaitEventQR r id h u => handler_encoded v r id h u o w
  | AwaitPairCode r sessionId id => pair_settled v r sessionId id o w
  | AwaitSend l => send_settled l w
  end.

Definition settle (v : Variant) (k : nat) (o : Outcome) (mk : option Made)
    (w : World) : World :=
  match tasks w !! k with
  | Some (Some t) => resume v t o mk (finish_task k w)
  | _ => w
  end.

(** The timer of request [r], if it is armed and due, runs its callback. *)
Definition fire (v : Variant) (w : World) (r : nat) : World :=
  match reqs w !! r ≫= timer with
  | Some t =>
      if bool_decide (due t ≤ now w)%Z
      then timeout_cb v r t (timer_done r w)
      else w
  | None => w
  end.

(** The clock reaches [t]: every timer due by then fires.  All timers of a
    variant have the same delay, so request order is deadline order. *)
Definition advance (v : Variant) (t : Z) (w : World) : World :=
  let w := set_now (Z.max (now w) t) w in
  foldl (fire v) w (seq 0 (length (reqs w))).

Definition step (v : Variant) (w : World) (e : Event) : World :=
  match e with
  | GetQR param rnd => qr_route v param rnd w
  | GetPair sessionId phone rnd => pair_route v sessionId phone rnd w
  | Settle k o mk => settle v k o mk w
  | Emit h u => emit v h u w
  | Login h who => set_user h who w
  | Advance t => advance v t w
  end.

(** The callbacks of a sequence of events, one after the other.  [step] and
    [run] say what each callback does to the heap; [exited] records that one
    of them has ended the process. *)
Definition run (v : Variant) (w : World) (es : list Event) : World :=
  foldl (step v) w es.

(** The replies made to request [r]. *)
Definition replies_of (r : nat) (w : World) : list Reply :=
  from_option replies [] (reqs w !! r).

(** The ["connection.update"] registrations on socket [h]. *)
Definition listeners_of (h : nat) (w : World) : list Registration :=
  from_option listeners [] (socks w !! h).

(** ** Vocabulary of the properties *)

(** The variants with the cached-QR route and the digit check on phones. *)
Definition long_poll (v : Variant) : Prop := v = ban_md ∨ v = part_000.

(** What is left of the world after a route that only replied. *)
Definition just_replied (w : World) (rep : Reply) : World :=
  mkWorld (sessions w) (objs w) (socks w)
    (reqs w ++ [mkReq false None None false [rep]])
    (tasks w) (now w) (calls w) (exited w).

(** The closure variables of a QR request that went on to wait: nothing
    answered yet, the timer armed for [d]. *)
Definition waiting (v : Variant) (d : Z) (id : string) (h : nat) : Req :=
  mkReq false None (Some (mkTimer d id h))
        match v with part_000 => true | _ => false end [].

(** The world after a QR request for [id] found socket [h] and started to
    wait on it: its handler registered with [once], its timer armed. *)
Definition started_waiting (v : Variant) (w : World) (id : string) (h : nat)
  : World :=
  mkWorld (sessions w) (objs w)
    (socks (ev_on h (mkReg (WaitListener (length (reqs w)) id) true) w))
    (reqs w ++ [waiting v (now w + qr_timeout v) id h])
    (tasks w) (now w) (calls w) (exited w).

(** The world after a QR request for [id] found the cached [payload] fresh
    and suspended on its encoding. *)
Definition encoding_cached (w : World) (id payload : string) : World :=
  mkWorld (sessions w) (objs w) (socks w)
    (reqs w ++ [mkReq false None None false []])
    (tasks w ++ [Some (AwaitCachedQR (length (reqs w)) id payload)])
    (now w) (calls w) (exited w).

(** Every character of [s] is an ASCII digit. *)
Fixpoint all_digits (s : string) : bool :=
  match s with
  | EmptyString => true
  | String c s' => Js.is_digit c && all_digits s'
  end.

(** The request a route continuation belongs to. *)
Definition caller_req (k : Caller) : nat :=
  match k with
  | QrRoute r => r
  | PairRoute r _ _ => r
  end.

(** The caller of a suspended [createSession]. *)
Definition creating (t : Task) : option Caller :=
  match t with
  | AwaitAuthState k _ => Some k
  | AwaitVersion k _ => Some k
  | _ => None
  end.

(** The settlement makes the suspended [createSession] throw: the promise it
    awaits rejects, or [makeWASocket] throws. *)
Definition construction_fails (t : Task) (o : Outcome) (mk : option Made)
  : Prop :=
  match t with
  | AwaitAuthState _ _ => ∃ m, o = Rejected m
  | AwaitVersion _ _ => (∃ m, o = Rejected m) ∨ mk = None
  | _ => False
  end.

(** Registry, session objects and sockets are the same in both worlds. *)
Definition same_registry (w w' : World) : Prop :=
  sessions w' = sessions w ∧ objs w' = objs w ∧ socks w' = socks w.

(** Number of sockets the provider was asked to make. *)
Definition sockets_made (w : World) : nat :=
  length (filter (λ c, c = MakeWASocket) (calls w)).

(** The request a suspended task will answer, if any. *)
Definition task_req (t : Task) : option nat :=
  match t with
  | AwaitAuthState k _ => Some (caller_req k)
  | AwaitVersion k _ => Some (caller_req k)
  | AwaitCachedQR r _ _ => Some r
  | AwaitEventQR r _ _ _ => Some r
  | AwaitPairCode r _ _ => Some r
  | AwaitSend _ => None
  end.

(** The request whose closure variables a listener uses, if any. *)
Definition listener_req (f : Listener) : option nat :=
  match f with
  | SessionListener _ _ => None
  | WaitListener r _ => Some r
  | ProbeListener r => Some r
  end.

(** Request index [r] is out of reach of everything but a QR handler of its
    own: its variables are [q] ([None] while no request has the index), no
    suspended task will answer it, and the only listeners closing over it
    are its QR handler, on socket [h] when [own = Some h] (with [own = None]
    there are none).  With [bound = Some d] the clock is still before [d]. *)
Record framed (r : nat) (q : option Req) (own : option nat)
    (bound : option Z) (w : World) : Prop := mkFramed {
  fr_req : reqs w !! r = q;
  fr_tasks : ∀ k t, tasks w !! k = Some (Some t) → task_req t ≠ Some r;
  fr_listeners : ∀ h' s g,
    socks w !! h' = Some s → g ∈ listeners s →
    listener_req (fn g) = Some r →
    own = Some h' ∧ ∃ id, fn g = WaitListener r id;
  fr_now : ∀ d, bound = Some d → (now w < d)%Z
}.

(** The event is an HTTP request. *)
Definition is_request (e : Event) : bool :=
  match e with
  | GetQR _ _ | GetPair _ _ _ => true
  | _ => false
  end.

(** The world is what the service has made of some sequence of events. *)
Definition reachable (v : Variant) (w : World) : Prop :=
  ∃ es, w = run v empty_world es.

(** An update that carries no QR payload and does not report ["open"]. *)
Definition quiet_update (u : Update) : Prop :=
  Js.truthy_opt (u_qr u) = false ∧ u_connection u ≠ Some "open".

(** An event that cannot make the QR request waiting on socket [h] with
    deadline [d] answer: no QR or open update on [h], and the clock stays
    before [d]. *)
Definition quiet_event (h : nat) (d : Z) (e : Event) : Prop :=
  match e with
  | Emit h' u => h' = h → quiet_update u
  | Advance t => (t < d)%Z
  | _ => True
  end.

(** No suspended task and no listener refers to request [r]. *)
Definition unused (r : nat) (w : World) : Prop :=
  (∀ k t, tasks w !! k = Some (Some t) → task_req t ≠ Some r)
  ∧ (∀ h s g, socks w !! h = Some s → g ∈ listeners s →
              listener_req (fn g) ≠ Some r).

(** The closure variables of a request whose route has not replied, armed a
    timer or set anything yet. *)
Definition untouched : Req := mkReq false None None false [].

(** No request of [w0] has been dropped in [w]. *)
Definition grows (w0 w : World) : Prop :=
  length (reqs w0) ≤ length (reqs w).

(** ** Sample runs *)

Definition ok : Outcome := Fulfilled "".

(** A socket restored from credentials that already carry an identity. *)
Definition restored : option Made :=
  Some (mkMade (Some "256700000000@s.whatsapp.net") true).

(** A socket with no identity yet. *)
Definition blank : option Made := Some (mkMade None true).

Definition closed : Update := mkUpdate None (Some "close").

(** Variant [v] after one QR request for the new id "s1" ran its
    construction and started to wait. *)
Definition waiting_in (v : Variant) : World :=
  run v empty_world
    [GetQR (Some "s1") "ban-0"; Settle 0 ok None; Settle 1 ok blank].

(** Variant [v] with session "s1" created at time 0 by a pairing request
    that is suspended on [sock.requestPairingCode]. *)
Definition idle_in (v : Variant) : World :=
  run v empty_world
    [GetPair "s1" "256700000000" "ban-0"; Settle 0 ok None; Settle 1 ok blank].

(** ban-md.js after a QR request created session "s1" from stored
    credentials of a logged-in account. *)
Definition logged_in_world : World :=
  run ban_md empty_world
    [GetQR (Some "s1") "ban-0"; Settle 0 ok None; Settle 1 ok restored].

(** ban-md.js with session "s1" created by a pairing request at time 0 and a
    QR payload "Q1" cached at time 1000; the clock now reads [t]. *)
Definition cached_world (t : Z) : World :=
  run ban_md (idle_in ban_md)
    [Advance 1000; Emit 0 (mkUpdate (Some "Q1") None); Advance t].

(** server.js with a QR request for "s1" suspended in [createSession] at
    [useMultiFileAuthState]. *)
Definition creating_world : World :=
  run server empty_world [GetQR (Some "s1") "x"].

(** ban-md.js with a QR request for the new id "s1" suspended in
    [createSession] at [fetchLatestBaileysVersion], the clock at 3000. *)
Definition constructing_world : World :=
  run ban_md empty_world
    [GetQR (Some "s1") "ban-0"; Advance 3000; Settle 0 ok None].

(** Two QR requests for "s1", the second arriving while the first is still
    suspended in [createSession]: both at [fetchLatestBaileysVersion]. *)
Definition both_creating (v : Variant) : World :=
  run v empty_world
    [GetQR (Some "s1") "ban-0"; GetQR (Some "s1") "ban-1";
     Settle 0 ok None; Settle 1 ok None].

(** Both constructions completed. *)
Definition raced_in (v : Variant) : World :=
  run v (both_creating v)
    [Settle 2 (Fulfilled "v") blank; Settle 3 (Fulfilled "v") blank].

(** The same race with two more QR requests for "s1": request 2 arrives
    when the first construction has completed, request 3 when the second
    has. *)
Definition raced_then_polled (v : Variant) : World :=
  run v (both_creating v)
    [Settle 2 (Fulfilled "v") blank; GetQR (Some "s1") "ban-2";
     Settle 3 (Fulfilled "v") blank; GetQR (Some "s1") "ban-3"].

(** The timer of the waiting request fires, and in the same tick the socket
    delivers its first update since the request, a QR payload, which is then
    encoded. *)
Definition timeout_then_qr (deadline : Z) : list Event :=
  [Advance deadline;
   Emit 0 (mkUpdate (Some "Q1") None);
   Settle 2 (Fulfilled "data:image/png;base64,UTE=") None].

(** The same two callbacks in the other order. *)
Definition qr_then_timeout (deadline : Z) : list Event :=
  [Emit 0 (mkUpdate (Some "Q1") None);
   Advance deadline;
   Settle 2 (Fulfilled "data:image/png;base64,UTE=") None].

(** The timer fires, and then the socket reports the login. *)
Definition timeout_then_open (deadline : Z) : list Event :=
  [Advance deadline;
   Login 0 "256700000000@s.whatsapp.net";
   Emit 0 (mkUpdate None (Some "open"))].

(** Three QR requests for "s1" while the socket stays silent, and the clock
    passing their deadline. *)
Definition three_polls (deadline : Z) : list Event :=
  [GetQR (Some "s1") "ban-1"; GetQR (Some "s1") "ban-2";
   GetQR (Some "s1") "ban-3"; Advance deadline].

Definition timeout_reply : Reply :=
  json [("error", JStr "QR not available yet. Tap again.");
        ("sessionId", JStr "s1")].

Definition qr_reply : Reply :=
  json [("qr", JStr "data:image/png;base64,UTE="); ("sessionId", JStr "s1")].

Definition logged_in_reply : Reply :=
  json [("message", JStr "Already logged in");
        ("user", JStr "256700000000@s.whatsapp.net");
        ("sessionId", JStr "s1")].

(** ** Routes that only read *)

(** The session object the registry holds for [id]. *)
Definition stored (id : string) (w : World) : option Session :=
  sessions w !! id ≫= λ l, objs w !! l.

(** GET /api/me/:sessionId.  server.js and the query-string API have no such
    route: no route code runs for the request. *)
Definition me_route (v : Variant) (sessionId : string) (w : World) : World :=
  let r := length (reqs w) in
  match v with
  | ban_md =>
      let w := new_req w in
      match stored sessionId w with
      | Some s =>
          res_json r (json [("user", juser (s_user s));
                            ("connection", JStr (s_connection s))]) w
      | None => res_json r (json [("error", JStr "Unknown session")]) w
      end
  | part_000 =>
      let w := new_req w in
      match stored sessionId w with
      | Some s => res_json r (json [("user", juser (sock_user (sock s) w))]) w
      | None => res_json r (json [("error", JStr "Unknown session")]) w
      end
  | server | part_003 => w
  end.

(** [let status = "connecting"; if (state === 1) status = "open";
     if (state === 3) status = "close";] *)
Definition status_of (readyState : nat) : string :=
  let status := "connecting" in
  let status := if readyState =? 1 then "open" else status in
  if readyState =? 3 then "close" else status.

(** GET /status?session= of the query-string API; [readyState] is what
    [s.sock.ws.readyState] reads when the request arrives.  The other
    variants have no such route. *)
Definition status_route (v : Variant) (param : option string)
    (readyState : nat) (w : World) : World :=
  let r := length (reqs w) in
  match v with
  | part_003 =>
      let sessionId := Js.or_else param "ban-session1" in
      let w := new_req w in
      match find_session v sessionId w with
      | Live _ =>
          res_json r (json [("ok", JBool true); ("session", JStr sessionId);
                            ("status", JStr (status_of readyState))]) w
      | Junk => w   (* [s.sock] is undefined: [s.sock.ws] throws *)
      | Absent =>
          res_json r (json [("ok", JBool false); ("session", JStr sessionId);
                            ("status", JStr "none")]) w
      end
  | _ => w
  end.

(** GET /api/health; the query-string API has none. *)
Definition health_route (v : Variant) (w : World) : World :=
  match v with
  | part_003 => w
  | _ => res_json (length (reqs w)) (json [("ok", JBool true)]) (new_req w)
  end.

(** ** The service with all its JSON routes *)

Inductive Input :=
  | Core (e : Event)
  | GetMe (sessionId : string)
  | GetStatus (param : option string) (readyState : nat)
  | GetHealth.

Definition serve (v : Variant) (w : World) (i : Input) : World :=
  match i with
  | Core e => step v w e
  | GetMe sessionId => me_route v sessionId w
  | GetStatus param readyState => status_route v param readyState w
  | GetHealth => health_route v w
  end.

Definition serve_all (v : Variant) (w : World) (inputs : list Input) : World :=
  foldl (serve v) w inputs.

(** ** Accounting for replies *)

(** How many replies a suspended task can still lead to: one, or two while
    a long-poll QR request is not yet past [createSession]. *)
Definition weight (v : Variant) (t : Task) : nat :=
  match v, t with
  | (ban_md | part_000), (AwaitAuthState _ _ | AwaitVersion _ _) => 2
  | _, _ => 1
  end.

Definition owed (v : Variant) (r : nat) (o : option Task) : nat :=
  match o with
  | Some t => if bool_decide (task_req t = Some r) then weight v t else 0
  | None => 0
  end.

(** What the suspended tasks owe request [r]. *)
Definition pending (v : Variant) (r : nat) (ts : list (option Task)) : nat :=
  sum_list_with (owed v r) ts.

(** The suspended QR handlers of request [r]. *)
Definition encoding (r : nat) (ts : list (option Task)) : nat :=
  sum_list_with (λ o, match o with
                      | Some (AwaitEventQR r' _ _ _) =>
                          if bool_decide (r' = r) then 1 else 0
                      | _ => 0
                      end) ts.

(** The request whose QR handler [f] is. *)
Definition waiter (f : Listener) : option nat :=
  match f with
  | WaitListener r _ => Some r
  | _ => None
  end.

(** Registrations of the QR handler of request [r] on one socket, and the
    ones among them made with [on] rather than [once]. *)
Definition handlers (r : nat) (gs : list Registration) : nat :=
  length (filter (λ g, waiter (fn g) = Some r) gs).

Definition lasting (r : nat) (gs : list Registration) : nat :=
  length (filter (λ g, waiter (fn g) = Some r ∧ once g = false) gs).

Definition waits (r : nat) (ss : list Sock) : nat :=
  sum_list_with (λ s, handlers r (listeners s)) ss.

Definition waits_lasting (r : nat) (ss : list Sock) : nat :=
  sum_list_with (λ s, lasting r (listeners s)) ss.

Definition armed (q : option Req) : nat :=
  match q ≫= timer with
  | Some _ => 1
  | None => 0
  end.

Definition latched (q : option Req) : bool := from_option responded false q.

Definition answered (q : option Req) : nat :=
  length (from_option replies [] q).

(** The most replies a request of the variant can get. *)
Definition reply_bound (v : Variant) : nat :=
  match v with
  | ban_md | part_000 => 2
  | server | part_003 => 1
  end.

(** Replies made to a request plus the replies its suspended tasks, its
    registered handlers and its timer can still make. *)
Definition potential (v : Variant) (q : option Req) (p l : nat) : nat :=
  answered q + p +
  match v with
  | ban_md | part_000 => if latched q then 0 else l + armed q
  | server => if latched q then 0 else armed q
  | part_003 => armed q
  end.

(** What holds of every request index in every state of the service, with
    [b] the replies the request may get in all: [q] are the request's
    variables, [p] what suspended tasks owe it, [e] its suspended handlers,
    [l] its registered handlers and [n] the ones among them registered with
    [on]. *)
Record good (v : Variant) (b : nat) (q : option Req) (p e l n : nat)
  : Prop := mkGood {
  g_fresh : q = None → p = 0 ∧ l = 0;
  g_bound : potential v q p l ≤ b;
  g_latched : latched q = false → e = 0;
  g_once : long_poll v → n = 0;
  g_armed : v = server → latched q = false → 0 < l → armed q = 1;
  g_probe : v = part_003 → l = 0;
  g_finish : v ≠ part_000 → from_option clear_on_finish false q = false
}.

(** Request index [r] as the state [w] has it, with budget [b]. *)
Definition good_at (v : Variant) (b : nat) (r : nat) (w : World) : Prop :=
  good v b (reqs w !! r) (pending v r (tasks w)) (encoding r (tasks w))
       (waits r (socks w)) (waits_lasting r (socks w)).

Definition sound (v : Variant) (w : World) : Prop :=
  ∀ r, good_at v (reply_bound v) r w.

(** Registrations of the function [f] among [gs]. *)
Definition registered (f : Listener) (gs : list Registration) : nat :=
  length (filter (λ g, fn g = f) gs).

(** What holds of the listeners [gs] an emit on socket [h] has still to
    call, in the state [w] it has reached. *)
Definition snapshot (v : Variant) (h : nat) (gs : list Registration)
    (w : World) : Prop :=
  match v with
  | ban_md | part_000 =>
      (∀ g, g ∈ gs → is_Some (waiter (fn g)) → once g = true)
      ∧ (∀ f, is_Some (waiter f) →
              registered f gs ≤ registered f (listeners_of h w))
  | server =>
      ∀ g r, g ∈ gs → waiter (fn g) = Some r →
             latched (reqs w !! r) = true ∨ armed (reqs w !! r) = 1
  | part_003 => ∀ g, g ∈ gs → waiter (fn g) = None
  end.

(** What an emit knows of the request of a QR handler it is about to
    call, after a [once] registration has been taken off. *)
Definition called (v : Variant) (f : Listener) (w : World) : Prop :=
  match f with
  | WaitListener r _ =>
      match v with
      | ban_md | part_000 =>
          good v (reply_bound v) (reqs w !! r) (pending v r (tasks w))
               (encoding r (tasks w)) (S (waits r (socks w)))
               (waits_lasting r (socks w))
      | server => latched (reqs w !! r) = true ∨ armed (reqs w !! r) = 1
      | part_003 => False
      end
  | _ => True
  end.

(** The reference [construct] stores: the session object it makes, or in
    server.js the socket itself. *)
Definition new_ref (v : Variant) (w : World) : nat :=
  match v with
  | server => length (socks w)
  | _ => length (objs w)
  end.

(** ** Sessions and their listeners *)

(** A registration that an emit leaves on the socket if it is the listener
    [createSession] installed. *)
Definition plain (g : Registration) : Prop :=
  match fn g with
  | SessionListener _ _ => once g = false
  | _ => True
  end.

(** Every session object has the listener [createSession] installed for it
    registered on its socket, and no such listener is registered with
    [once]. *)
Definition listening (w : World) : Prop :=
  (∀ h g, g ∈ listeners_of h w → plain g)
  ∧ (∀ l s, objs w !! l = Some s →
            ∃ id, 0 < registered (SessionListener id l)
                                 (listeners_of (sock s) w)).

(** What the ["connection.update"] listener of [createSession] makes of its
    session object when the socket, whose user is [who], emits [u] at time
    [t]. *)
Definition reflect (v : Variant) (u : Update) (who : option string) (t : Z)
    (s : Session) : Session :=
  match v with
  | ban_md =>
      let s :=
        if Js.truthy_opt (u_qr u)
        then mkSession (sock s) (u_qr u) t (s_user s) (s_connection s)
                       (sentSessionMsg s)
        else s in
      let s :=
        match u_connection u with
        | Some c =>
            if Js.truthy c
            then mkSession (sock s) (lastQR s) (lastQRAt s) (s_user s) c
                           (sentSessionMsg s)
            else s
        | None => s
        end in
      match who with
      | Some x =>
          mkSession (sock s) (lastQR s) (lastQRAt s) (Some x) (s_connection s)
                    (sentSessionMsg s)
      | None => s
      end
  | part_000 =>
      if Js.truthy_opt (u_qr u)
      then mkSession (sock s) (u_qr u) t (s_user s) (s_connection s)
                     (sentSessionMsg s)
      else s
  | _ => s
  end.

(** ** Suspended constructions *)

(** Every suspended task satisfies [P]. *)
Definition ok_tasks (P : Task → Prop) (w : World) : Prop :=
  ∀ k t, tasks w !! k = Some (Some t) → P t.

(** The id a suspended [createSession] will store its session under. *)
Definition creating_id (t : Task) : option string :=
  match t with
  | AwaitAuthState _ id | AwaitVersion _ id => Some id
  | _ => None
  end.

(** No suspended construction of the query-string API is for a key that a
    plain object inherits. *)
Definition own_key (t : Task) : Prop :=
  match creating_id t with
  | Some id => Js.inherited id = false
  | None => True
  end.

(** The registry of the query-string API holds no key that a plain object
    inherits, and no suspended construction will store one. *)
Definition keyed (w : World) : Prop :=
  ok_tasks own_key w
  ∧ ∀ id, Js.inherited id = true → sessions w !! id = None.

(** ** Phones handed to the provider *)

(** A phone number the long-poll variants let through: digits only, and at
    least one. *)
Definition clean_phone (phone : string) : Prop :=
  all_digits phone = true ∧ phone ≠ "".

(** A suspended [createSession] called by a pairing route carries a clean
    phone. *)
Definition clean_caller (t : Task) : Prop :=
  match creating t with
  | Some (PairRoute _ _ phone) => clean_phone phone
  | _ => True
  end.

Definition clean_call (c : Call) : Prop :=
  match c with
  | RequestPairingCode _ phone => clean_phone phone
  | _ => True
  end.

Definition ok_calls (w : World) : Prop := ∀ c, c ∈ calls w → clean_call c.

(** ** Waiting through other inputs *)

(** An input that cannot make the QR request waiting on socket [h] with
    deadline [d] answer. *)
Definition quiet_input (h : nat) (d : Z) (i : Input) : Prop :=
  match i with
  | Core e => quiet_event h d e
  | _ => True
  end.

(** The reply of the 10 s timer of server.js. *)
Definition qr_timeout_reply : Reply :=
  mkReply 504 [("ok", JBool false); ("error", JStr "QR timeout")].

(** ** The probe of the query-string API *)

Global Instance Registration_eq_dec : EqDecision Registration.
Proof. solve_decision. Defined.

(** The registration the /qr route of request [r] makes. *)
Definition probe (r : nat) : Registration := mkReg (ProbeListener r) false.

(** The closure variables of a /qr request of the query-string API that
    waits for its timer; [data] is [qrData]. *)
Definition probe_wait (d : Z) (id : string) (h : nat) (data : option string)
  : Req :=
  mkReq false data (Some (mkTimer d id h)) false [].

(** Request [r] of the query-string API has the variables [q], no suspended
    task will answer it, and its probe is registered on socket [h] and
    nowhere else.  With [bound = Some d] the clock is still before [d]. *)
Record probing (r h : nat) (q : Req) (bound : option Z) (w : World)
  : Prop := mkProbing {
  pb_req : reqs w !! r = Some q;
  pb_tasks : ∀ k t, tasks w !! k = Some (Some t) → task_req t ≠ Some r;
  pb_here : probe r ∈ listeners_of h w;
  pb_only : ∀ h' g, g ∈ listeners_of h' w →
                    listener_req (fn g) = Some r → h' = h ∧ g = probe r;
  pb_now : ∀ d, bound = Some d → (now w < d)%Z
}.

(** What holds in every state of the query-string API: the sockets carry
    probes only and every session object has its socket.  [gs] are
    registrations known to be on socket [h], from the oldest on. *)
Definition api_ok (h : nat) (gs : list Registration) (w : World) : Prop :=
  (∀ h' g, g ∈ listeners_of h' w → ∃ r, g = probe r)
  ∧ (∀ l s, objs w !! l = Some s → sock s < length (socks w))
  ∧ gs `prefix_of` listeners_of h w.

(** The input does not take the clock to [d]. *)
Definition before (d : Z) (i : Input) : Prop :=
  match i with
  | Core (Advance t) => (t < d)%Z
  | _ => True
  end.

(** [qrData] of a probe on socket [h] after the input. *)
Definition seen (h : nat) (data : option string) (i : Input)
  : option string :=
  match i with
  | Core (Emit h' u) =>
      if bool_decide (h' = h) && Js.truthy_opt (u_qr u) then u_qr u else data
  | _ => data
  end.

(** The last QR payload socket [h] emits during the inputs. *)
Definition qr_seen (h : nat) (inputs : list Input) : option string :=
  foldl (seen h) None inputs.

(** The reply of the 2 s timer of the query-string API. *)
Definition probe_reply (id : string) (data : option string) : Reply :=
  match data with
  | Some d =>
      if Js.truthy d
      then json [("ok", JBool true);
                 ("qr", JStr ("data:image/png;base64," +:+ d));
                 ("session", JStr id)]
      else json [("ok", JBool false);
                 ("message", JStr "QR not available yet.")]
  | None =>
      json [("ok", JBool false); ("message", JStr "QR not available yet.")]
  end.

(** ** Handlers of answered requests (server.js) *)

(** No listener on any socket is the QR handler of request [r]. *)
Definition idle (r : nat) (w : World) : Prop :=
  ∀ h g, g ∈ listeners_of h w → waiter (fn g) ≠ Some r.

(** The QR handler of request [r] is registered nowhere but on socket [h],
    for [id], with [on] and at most once. *)
Definition placed (r h : nat) (id : string) (w : World) : Prop :=
  (∀ h' g, g ∈ listeners_of h' w → waiter (fn g) = Some r →
           h' = h ∧ g = mkReg (WaitListener r id) false)
  ∧ registered (WaitListener r id) (listeners_of h w) ≤ 1.

(** Request [r] of server.js has gone on to wait on socket [h]: it is
    unanswered, the only tasks that will answer it are runs of its handler
    suspended at the encoder, and its timer is armed unless [responded] is
    set. *)
Record busy (r h : nat) (id : string) (w : World) : Prop := mkBusy {
  bz_placed : placed r h id w;
  bz_req : is_Some (reqs w !! r);
  bz_replies : replies_of r w = [];
  bz_tasks : ∀ k t, tasks w !! k = Some (Some t) → task_req t = Some r →
                    ∃ u, t = AwaitEventQR r id h u;
  bz_timer : is_responded r w = false →
             ∃ d, reqs w !! r ≫= timer = Some (mkTimer d id h)
}.

(** What holds of every request index in every state of server.js. *)
Definition tidy (w : World) : Prop :=
  ∀ r, idle r w ∨ ∃ h id, busy r h id w.

(** What holds of the listeners [gs] an emit on socket [h] of server.js has
    still to call: a QR handler among them was registered with [on], and is
    still registered unless its request has set [responded]. *)
Definition snap (h : nat) (gs : list Registration) (w : World) : Prop :=
  ∀ g r, g ∈ gs → waiter (fn g) = Some r →
         once g = false ∧ (is_responded r w = false → g ∈ listeners_of h w).

(** ** The session-id message of part_000 *)

(** The call is a [sock.sendMessage] on socket [h]. *)
Definition is_send (h : nat) (c : Call) : bool :=
  match c with
  | SendMessage h' _ => bool_decide (h' = h)
  | _ => false
  end.

(** The messages sent on socket [h] so far, oldest first. *)
Definition sends (h : nat) (w : World) : list Call :=
  filter (λ c, is_send h c = true) (calls w).

(** The listener [createSession] installed for a session object is on the
    object's socket, no two objects share a socket, and every object has
    its socket.  With [who = Some (l, h, cs)] the session object [l], on
    socket [h], has [sentSessionMsg] set and [cs] are the messages sent on
    [h]. *)
Record paired (who : option (nat * nat * list Call)) (w : World)
  : Prop := mkPaired {
  pr_listener : ∀ h g id l, g ∈ listeners_of h w →
                            fn g = SessionListener id l →
                            ∃ s, objs w !! l = Some s ∧ sock s = h;
  pr_inj : ∀ l1 l2 s1 s2, objs w !! l1 = Some s1 → objs w !! l2 = Some s2 →
                          sock s1 = sock s2 → l1 = l2;
  pr_sock : ∀ l s, objs w !! l = Some s → sock s < length (socks w);
  pr_sent : ∀ l h cs, who = Some (l, h, cs) →
                      ∃ s, objs w !! l = Some s ∧ sock s = h
                           ∧ sentSessionMsg s = true ∧ sends h w = cs
}.

(** ** The process *)

(** Some response had [res.json] called on it twice.  The second call throws
    ERR_HTTP_HEADERS_SENT, in a timer callback or in the async [handler],
    where nothing catches it. *)
Definition replied_twice (w : World) : bool :=
  existsb (λ q, bool_decide (1 < length (replies q))) (reqs w).

(** The process has ended: on an unhandled rejection or on that error. *)
Definition down (w : World) : bool := exited w || replied_twice w.

(** An input reaches the service only while the process runs. *)
Definition turn (v : Variant) (w : World) (i : Input) : World :=
  if down w then w else serve v w i.

Definition turns (v : Variant) (w : World) (inputs : list Input) : World :=
  foldl (turn v) w inputs.

(** ** Sample runs of the process *)

(** A QR request for the new id "s1" whose construction completes at time
    0: request 0 waits on socket 0. *)
Definition one_waiting : list Input :=
  [Core (GetQR (Some "s1") "ban-0"); Core (Settle 0 ok None);
   Core (Settle 1 ok blank)].

(** While request 0 waits, a pairing request for the new id "s2" arrives
    (request 1), and the [useMultiFileAuthState] of its [createSession]
    rejects. *)
Definition pair_fails : list Input :=
  [Core (GetPair "s2" "256700000000" "ban-1");
   Core (Settle 2 (Rejected "EACCES") None)].

(** The clock passes the deadline of request 0 in every variant, and a new
    QR request arrives. *)
Definition afterwards : list Input :=
  [Core (Advance 25000); Core (GetQR (Some "s1") "ban-2")].

(** While request 0 waits, at time 3000 a QR request for a new session
    arrives (request 1) and its [createSession] reaches
    [fetchLatestBaileysVersion]. *)
Definition other_starts : list Input :=
  [Core (Advance 3000); Core (GetQR (Some "new") "ban-1");
   Core (Settle 2 ok None)].

(** [fetchLatestBaileysVersion] of request 1 fulfils, and a socket is
    made. *)
Definition other_completes : Input := Core (Settle 3 ok blank).

(** [fetchLatestBaileysVersion] of request 1 rejects. *)
Definition other_fails : Input := Core (Settle 3 (Rejected "ENOTFOUND") None).

(** The reply of the timer of a long-poll QR request for [id]. *)
Definition qr_unavailable_reply (id : string) : Reply :=
  json [("error", JStr qr_unavailable); ("sessionId", JStr id)].

(** The reply of the pairing route of server.js when it catches. *)
Definition pair_failed_reply : Reply :=
  mkReply 500 [("ok", JBool false);
               ("error", JStr "Failed to get pairing code")].

(** Session "s1" is created at time 0 by a pairing request that stays
    suspended on [sock.requestPairingCode]. *)
Definition session_made : list Input :=
  [Core (GetPair "s1" "256700000000" "ban-0"); Core (Settle 0 ok None);
   Core (Settle 1 ok blank)].

(** Inputs before time 10000 that bring no QR and no login on socket 0. *)
Definition quiet_inputs : list Input :=
  [Core (Emit 0 (mkUpdate None (Some "connecting")));
   Core (Advance 4000);
   GetMe "s1";
   Core (GetPair "s2" "n/a" "ban-1");
   Core (Settle 2 (Fulfilled "ABCD1234") None);
   Core (Advance 9999)].

(** * Properties *)

(** ** Reading the heap after a primitive effect *)

Lemma alter_new {A} (f : A → A) (l : list A) (x : A) :
  alter f (length l) (l ++ [x]) = l ++ [f x].
Proof.
  replace (length l) with (length l + 0) by lia.
  by rewrite alter_app_r.
Qed.

Lemma lookup_new {A} (l : list A) (x : A) : (l ++ [x]) !! length l = Some x.
Proof. by rewrite lookup_app_r, Nat.sub_diag by lia. Qed.

Lemma replies_of_res_json r rep w :
  r < length (reqs w) →
  replies_of r (res_json r rep w) = replies_of r w ++ [rep].
Proof.
  intros Hr. unfold replies_of, res_json, with_req. simpl.
  rewrite list_lookup_alter_eq.
  destruct (lookup_lt_is_Some_2 _ _ Hr) as [q ->]. done.
Qed.

Lemma truthy_ne s : Js.truthy s = true ↔ s ≠ "".
Proof. destruct s; simpl; split; congruence. Qed.

(** ** Phone validation *)

(** C7.  In ban-md.js and part_000, a phone parameter with no digit left
    after stripping is answered at once with the "Valid phone required"
    error: the only effect of the request is that reply.  No call reaches
    the provider, no session is looked up or created, and nothing is left
    suspended that could call it later. *)
Theorem pair_rejects_digitless_phone v w sessionId phone rnd :
  long_poll v →
  Js.strip_non_digits phone = "" →
  step v w (GetPair sessionId phone rnd) =
    mkWorld (sessions w) (objs w) (socks w)
      (reqs w ++ [mkReq false None None false
                    [json [("error", JStr (phone_required v))]]])
      (tasks w) (now w) (calls w) (exited w).
Proof.
  intros Hv Hphone. unfold step, pair_route.
  destruct Hv as [-> | ->]; rewrite Hphone; simpl;
    unfold res_json, with_req, new_req; simpl;
    by rewrite alter_new.
Qed.

Lemma pair_rejects_digitless_phone_witness :
  step ban_md empty_world (GetPair "s1" "+(---) abc" "ban-0") =
    mkWorld ∅ [] []
      [mkReq false None None false
         [json [("error",
                 JStr "Valid phone required (include country code, digits only)")]]]
      [] 0 [] false.
Proof.
  apply (pair_rejects_digitless_phone ban_md empty_world "s1" "+(---) abc" "ban-0").
  - left; reflexivity.
  - reflexivity.
Defined.

(** ** Authenticated sessions *)

Lemma wanted_Some param id :
  wanted param = Some id → param = Some id ∧ Js.truthy id = true.
Proof.
  destruct param as [p|]; simpl; [|done].
  destruct (Js.truthy p) eqn:Hp; simpl; [|done].
  destruct (String.eqb p "new"); simpl; [done|].
  intros [= ->]. done.
Qed.

(** C3, as amended.  In ban-md.js and part_000, when the registry holds a
    session for [id] whose socket has [user] set, a QR request addressed to
    [id] and a pairing request for [id] with at least one digit in the phone
    are both answered with the logged-in message and the user.  The reply is
    the only effect: no provider call is logged, no listener is registered,
    no timer is armed and nothing is left suspended. *)
Theorem authenticated_short_circuit v w id l s who :
  long_poll v →
  sessions w !! id = Some l →
  objs w !! l = Some s →
  sock_user (sock s) w = Some who →
  (∀ param rnd,
     wanted param = Some id →
     step v w (GetQR param rnd) =
       just_replied w (json [("message", JStr (logged_in v));
                             ("user", JStr who);
                             ("sessionId", JStr id)]))
  ∧ (∀ phone rnd,
       Js.strip_non_digits phone ≠ "" →
       id ≠ "" →
       step v w (GetPair id phone rnd) =
         just_replied w (json [("message", JStr "Already logged in");
                               ("user", JStr who);
                               ("sessionId", JStr id)])).
Proof.
  intros Hv Hid Hl Hwho. split.
  - intros param rnd Hp. apply wanted_Some in Hp as Hp'. destruct Hp' as [-> Ht].
    unfold step, qr_route, createSession. rewrite Hp.
    destruct Hv as [-> | ->]; simpl; rewrite Ht; simpl; rewrite Hid, Hl; simpl;
      unfold sock_user in *; simpl; rewrite Hwho;
      unfold res_json, with_req, just_replied; simpl; by rewrite alter_new.
  - intros phone rnd Hphone Hne.
    apply truthy_ne in Hphone. apply truthy_ne in Hne.
    unfold step, pair_route, createSession.
    destruct Hv as [-> | ->]; rewrite Hphone; simpl; rewrite Hne; simpl;
      rewrite Hid, Hl; simpl;
      unfold sock_user in *; simpl; rewrite Hwho;
      unfold res_json, with_req, just_replied; simpl; by rewrite alter_new.
Qed.

Lemma authenticated_short_circuit_witness :
  step ban_md logged_in_world (GetQR (Some "s1") "ban-1") =
    just_replied logged_in_world
      (json [("message", JStr "Already logged in");
             ("user", JStr "256700000000@s.whatsapp.net");
             ("sessionId", JStr "s1")])
  ∧ step ban_md logged_in_world (GetPair "s1" "+256 700 000000" "ban-1") =
    just_replied logged_in_world
      (json [("message", JStr "Already logged in");
             ("user", JStr "256700000000@s.whatsapp.net");
             ("sessionId", JStr "s1")]).
Proof.
  pose proof (authenticated_short_circuit ban_md logged_in_world "s1" 0
                (mkSession 0 None 0 None "init" false)
                "256700000000@s.whatsapp.net") as H.
  destruct H as [Hqr Hpair].
  - left; reflexivity.
  - reflexivity.
  - reflexivity.
  - reflexivity.
  - split.
    + apply Hqr. reflexivity.
    + apply Hpair; [vm_compute; discriminate | discriminate].
Defined.

(** C3 as stated fails: on a session whose [sock.user] is set, a pairing
    request whose phone has no digit is answered with the phone error, not
    with the logged-in result. *)
Lemma authenticated_pair_digitless_counterexample :
  sock_user 0 logged_in_world = Some "256700000000@s.whatsapp.net"
  ∧ sessions logged_in_world !! "s1" = Some 0
  ∧ replies_of 1 (step ban_md logged_in_world (GetPair "s1" "n/a" "ban-1")) =
      [json [("error",
              JStr "Valid phone required (include country code, digits only)")]]
  ∧ replies_of 1 (step ban_md logged_in_world (GetPair "s1" "n/a" "ban-1")) ≠
      [json [("message", JStr "Already logged in");
             ("user", JStr "256700000000@s.whatsapp.net");
             ("sessionId", JStr "s1")]].
Proof. repeat split; try reflexivity. vm_compute. discriminate. Qed.

(** ** The cached QR *)

Lemma qr_route_stored v w param rnd id l s :
  long_poll v →
  wanted param = Some id →
  sessions w !! id = Some l →
  objs w !! l = Some s →
  step v w (GetQR param rnd) =
    qr_route_k v (length (reqs w)) id s (new_req w).
Proof.
  intros Hv Hp Hid Hl. apply wanted_Some in Hp as Hp'. destruct Hp' as [-> Ht].
  unfold step, qr_route, createSession. rewrite Hp.
  destruct Hv as [-> | ->]; simpl; rewrite Ht; simpl; by rewrite Hid, Hl.
Qed.

Lemma qr_route_k_cached v r id s w payload :
  long_poll v →
  sock_user (sock s) w = None →
  fresh_qr s w = Some payload →
  qr_route_k v r id s w = spawn (AwaitCachedQR r id payload) w.
Proof.
  intros [-> | ->] Hu Hf; unfold qr_route_k; by rewrite Hu, Hf.
Qed.

Lemma qr_route_k_wait v r id s w :
  long_poll v →
  sock_user (sock s) w = None →
  fresh_qr s w = None →
  qr_route_k v r id s w =
    let w := ev_on (sock s) (mkReg (WaitListener r id) true) w in
    let w := setTimeout r (mkTimer (now w + qr_timeout v) id (sock s)) w in
    match v with part_000 => on_finish_clear r w | _ => w end.
Proof.
  intros [-> | ->] Hu Hf; unfold qr_route_k; by rewrite Hu, Hf.
Qed.

(** C4.  In ban-md.js and part_000, take a stored session whose socket has
    no user and whose cached QR payload is not empty.  If the payload is
    younger than the 60 s TTL when the QR request runs, the request only
    suspends on encoding that payload (no listener is registered and no
    timer is armed) and answers with the encoded image as soon as the
    encoder returns.  If the payload has reached the TTL, the cached payload
    is not encoded and nothing is answered from it: the request registers
    its handler and arms its timer instead. *)
Theorem cached_qr_served_iff_fresh v w param rnd id l s payload :
  long_poll v →
  wanted param = Some id →
  sessions w !! id = Some l →
  objs w !! l = Some s →
  sock_user (sock s) w = None →
  lastQR s = Some payload →
  payload ≠ "" →
  let r := length (reqs w) in
  let w' := step v w (GetQR param rnd) in
  ((now w - lastQRAt s < qr_ttl)%Z →
     w' = encoding_cached w id payload
     ∧ ∀ img mk,
         replies_of r (step v w' (Settle (length (tasks w)) (Fulfilled img) mk)) =
           [json [("qr", JStr img); ("sessionId", JStr id)]])
  ∧ ((qr_ttl ≤ now w - lastQRAt s)%Z →
     w' = started_waiting v w id (sock s)
     ∧ replies_of r w' = []).
Proof.
  intros Hv Hp Hid Hl Hu Hq Hne r w'.
  assert (Hw' : w' = qr_route_k v r id s (new_req w))
    by (by apply qr_route_stored with l).
  apply truthy_ne in Hne.
  split; intros Hage.
  - assert (Hf : fresh_qr s (new_req w) = Some payload).
    { unfold fresh_qr. rewrite Hq, Hne. simpl.
      by rewrite bool_decide_eq_true_2. }
    rewrite (qr_route_k_cached v r id s _ payload) in Hw' by done.
    split; [by subst w'|].
    intros img mk. rewrite Hw'.
    unfold step, settle, spawn, new_req. simpl.
    rewrite lookup_new. simpl.
    unfold cached_encoded, replies_of, res_json, with_req. simpl.
    subst r. by rewrite alter_new, lookup_new.
  - assert (Hf : fresh_qr s (new_req w) = None).
    { unfold fresh_qr. rewrite Hq, Hne. simpl.
      rewrite bool_decide_eq_false_2; [done|lia]. }
    rewrite (qr_route_k_wait v r id s) in Hw' by done.
    assert (Hw'' : w' = started_waiting v w id (sock s)).
    { rewrite Hw'. unfold started_waiting, waiting. subst r.
      destruct Hv as [-> | ->]; simpl;
        unfold on_finish_clear, setTimeout, with_req, ev_on, with_sock, new_req;
        simpl; by rewrite !alter_new. }
    split; [done|].
    rewrite Hw''. unfold replies_of, started_waiting. simpl.
    subst r. by rewrite lookup_new.
Qed.

Lemma cached_qr_served_iff_fresh_witness :
  (step ban_md (cached_world 30000) (GetQR (Some "s1") "ban-1") =
     encoding_cached (cached_world 30000) "s1" "Q1"
   ∧ ∀ img mk,
       replies_of 1
         (step ban_md (step ban_md (cached_world 30000) (GetQR (Some "s1") "ban-1"))
               (Settle 3 (Fulfilled img) mk)) =
         [json [("qr", JStr img); ("sessionId", JStr "s1")]])
  ∧ (step ban_md (cached_world 70000) (GetQR (Some "s1") "ban-1") =
       started_waiting ban_md (cached_world 70000) "s1" 0
     ∧ replies_of 1
         (step ban_md (cached_world 70000) (GetQR (Some "s1") "ban-1")) = []).
Proof.
  split.
  - apply (cached_qr_served_iff_fresh ban_md (cached_world 30000) (Some "s1")
             "ban-1" "s1" 0 (mkSession 0 (Some "Q1") 1000 None "init" false) "Q1");
      try reflexivity; [by left | discriminate].
  - apply (cached_qr_served_iff_fresh ban_md (cached_world 70000) (Some "s1")
             "ban-1" "s1" 0 (mkSession 0 (Some "Q1") 1000 None "init" false) "Q1");
      try reflexivity; [by left | discriminate | vm_compute; discriminate].
Defined.

(** ** Pairing codes *)

Lemma slice0_length n s : String.length (Js.slice0 n s) = n `min` String.length s.
Proof.
  revert s. induction n as [|n IH]; intros [|c s]; simpl; try done.
  by rewrite IH.
Qed.

Lemma string_app_length s t :
  String.length (s +:+ t) = String.length s + String.length t.
Proof. induction s as [|c s IH]; simpl; [done|by rewrite IH]. Qed.

Lemma fill_chars_length n fill cur :
  fill ≠ "" → String.length (Js.fill_chars n fill cur) = n.
Proof.
  intros Hfill. revert cur. induction n as [|n IH]; intros cur; simpl; [done|].
  destruct cur as [|c cur]; simpl.
  - destruct fill as [|c fill]; [done|]. simpl. by rewrite IH.
  - by rewrite IH.
Qed.

Lemma padEnd_length n fill s :
  fill ≠ "" → String.length (Js.padEnd n fill s) = n `max` String.length s.
Proof.
  intros Hfill. unfold Js.padEnd.
  destruct (n <=? String.length s) eqn:Hn.
  - apply Nat.leb_le in Hn. lia.
  - apply Nat.leb_gt in Hn. rewrite string_app_length, fill_chars_length by done. lia.
Qed.

Lemma code8_length raw : String.length (code8 raw) = 8.
Proof.
  unfold code8. rewrite slice0_length, padEnd_length by done. lia.
Qed.

Lemma all_digits_strip s : all_digits (Js.strip_non_digits s) = true.
Proof.
  induction s as [|c s IH]; simpl; [done|].
  destruct (Js.is_digit c) eqn:Hc; simpl; [by rewrite Hc|done].
Qed.

Lemma all_digits_app s t :
  all_digits (s +:+ t) = all_digits s && all_digits t.
Proof.
  induction s as [|c s IH]; simpl; [done|]. by rewrite IH, andb_assoc.
Qed.

Lemma all_digits_slice0 n s : all_digits s = true → all_digits (Js.slice0 n s) = true.
Proof.
  revert s. induction n as [|n IH]; intros [|c s]; simpl; try done.
  intros [Hc Hs]%andb_true_iff. rewrite Hc. simpl. by apply IH.
Qed.

Lemma all_digits_fill_zero n cur :
  all_digits cur = true → all_digits (Js.fill_chars n "0" cur) = true.
Proof.
  revert cur. induction n as [|n IH]; intros cur Hcur; simpl; [done|].
  destruct cur as [|c cur]; simpl.
  - by apply IH.
  - simpl in Hcur. apply andb_true_iff in Hcur as [Hc Hcur].
    rewrite Hc. simpl. by apply IH.
Qed.

Lemma code8_digits raw : all_digits (code8 raw) = true.
Proof.
  unfold code8. apply all_digits_slice0. unfold Js.padEnd.
  destruct (8 <=? _); [apply all_digits_strip|].
  rewrite all_digits_app, all_digits_strip. simpl.
  by apply all_digits_fill_zero.
Qed.

Lemma slice0_pad8 d :
  Js.slice0 8 (Js.padEnd 8 "0" d) = Js.slice0 8 (d +:+ "00000000").
Proof.
  do 8 (destruct d as [|? d]; [reflexivity|]).
  unfold Js.padEnd. simpl. done.
Qed.

Lemma settle_pending v w k t o mk :
  tasks w !! k = Some (Some t) →
  step v w (Settle k o mk) = resume v t o mk (finish_task k w).
Proof. intros Hk. unfold step, settle. by rewrite Hk. Qed.

(** C6, as amended.  The normalisation of part_003,
    [raw.replace(/\D/g, "").padEnd(8, "0").slice(0, 8)], yields exactly 8
    characters, all digits: the digits of the raw code followed by zeros, cut
    after the eighth; "123" becomes "12300000".  The /pair route of part_003
    delivers that normalised code.  The pairing routes of ban-md.js,
    part_000 and server.js deliver the provider's raw code as it is. *)
Theorem pairing_code_normalised_in_part_003 raw :
  String.length (code8 raw) = 8
  ∧ all_digits (code8 raw) = true
  ∧ code8 raw = Js.slice0 8 (Js.strip_non_digits raw +:+ "00000000")
  ∧ code8 "123" = "12300000"
  ∧ (∀ w k r sessionId id mk,
       tasks w !! k = Some (Some (AwaitPairCode r sessionId id)) →
       r < length (reqs w) →
       replies_of r (step part_003 w (Settle k (Fulfilled raw) mk)) =
         replies_of r w ++
         [json [("ok", JBool true);
                ("code", JStr (code8 raw));
                ("message",
                 JStr "Enter this 8-digit code on your phone (Linked devices)")]])
  ∧ (∀ v w k r sessionId id mk,
       v ≠ part_003 →
       tasks w !! k = Some (Some (AwaitPairCode r sessionId id)) →
       r < length (reqs w) →
       ∃ rep, replies_of r (step v w (Settle k (Fulfilled raw) mk)) =
                replies_of r w ++ [rep]
              ∧ ("code", JStr raw) ∈ body rep).
Proof.
  split; [apply code8_length|].
  split; [apply code8_digits|].
  split; [apply slice0_pad8|].
  split; [reflexivity|].
  split.
  - intros w k r sessionId id mk Hk Hr.
    rewrite (settle_pending _ _ _ _ _ _ Hk). simpl.
    by rewrite replies_of_res_json.
  - intros v w k r sessionId id mk Hv Hk Hr.
    rewrite (settle_pending _ _ _ _ _ _ Hk).
    destruct v; [| | |done]; simpl; eexists;
      (split; [by rewrite replies_of_res_json|]); simpl; set_solver.
Qed.

(** C6 as stated fails: ban-md.js hands the raw code "123" to the caller,
    three characters long. *)
Lemma raw_pairing_code_counterexample :
  replies_of 0 (step ban_md (idle_in ban_md) (Settle 2 (Fulfilled "123") None)) =
    [json [("code", JStr "123"); ("sessionId", JStr "s1")]]
  ∧ String.length "123" ≠ 8.
Proof. split; [reflexivity|discriminate]. Qed.

Lemma pairing_code_normalised_in_part_003_witness :
  replies_of 0 (step part_003 (idle_in part_003) (Settle 2 (Fulfilled "123") None)) =
    [json [("ok", JBool true);
           ("code", JStr "12300000");
           ("message",
            JStr "Enter this 8-digit code on your phone (Linked devices)")]]
  ∧ ∃ rep,
      replies_of 0
        (step server (idle_in server) (Settle 2 (Fulfilled "123") None)) = [rep]
           ∧ ("code", JStr "123") ∈ body rep.
Proof.
  destruct (pairing_code_normalised_in_part_003 "123")
    as (_ & _ & _ & _ & Hnorm & Hraw).
  split.
  - apply (Hnorm (idle_in part_003) 2 0 "s1" "s1" None); [reflexivity|].
    vm_compute. lia.
  - apply (Hraw server (idle_in server) 2 0 "s1" "s1" None);
      [discriminate|reflexivity|].
    vm_compute. lia.
Defined.

(** ** Failed construction *)

Lemma throw_to_registry v k w w0 :
  same_registry w0 w → same_registry w0 (throw_to v k w).
Proof. by destruct v, k. Qed.

Lemma throw_to_tasks v k w : tasks (throw_to v k w) = tasks w.
Proof. by destruct v, k. Qed.

Lemma throw_to_other v k w r :
  r ≠ caller_req k → reqs (throw_to v k w) !! r = reqs w !! r.
Proof.
  intros Hr. destruct v, k; try done. simpl in *.
  by rewrite list_lookup_alter_ne.
Qed.

Lemma throw_after_finish v k n w :
  let w' := throw_to v k (finish_task n w) in
  same_registry w w'
  ∧ tasks w' = <[n := None]> (tasks w)
  ∧ ∀ r, r ≠ caller_req k → reqs w' !! r = reqs w !! r.
Proof.
  split; [by apply throw_to_registry|].
  split; [by rewrite throw_to_tasks|].
  intros r Hr. by rewrite throw_to_other.
Qed.

(** A [createSession] call that fails stores nothing.  Starting the
    construction and passing [useMultiFileAuthState] leave the registry, the
    session objects and the sockets as they were.  So does the step at which
    the construction fails ([useMultiFileAuthState] or
    [fetchLatestBaileysVersion] rejecting, or [makeWASocket] throwing): that
    step only ends the suspended call. *)
Theorem failed_createSession_keeps_registry v w :
  (∀ sessionId rnd k,
     find_session v (session_id v sessionId rnd) w = Absent →
     same_registry w (createSession v sessionId rnd k w))
  ∧ (∀ n k id x mk,
       tasks w !! n = Some (Some (AwaitAuthState k id)) →
       same_registry w (step v w (Settle n (Fulfilled x) mk)))
  ∧ (∀ n t k o mk,
       tasks w !! n = Some (Some t) →
       creating t = Some k →
       construction_fails t o mk →
       let w' := step v w (Settle n o mk) in
       same_registry w w' ∧ tasks w' = <[n := None]> (tasks w)).
Proof.
  split; [|split].
  - intros sessionId rnd k Hfind. unfold createSession. by rewrite Hfind.
  - intros n k id x mk Hn. by rewrite (settle_pending _ _ _ _ _ _ Hn).
  - intros n t k o mk Hn Hk Hfail w'. subst w'.
    rewrite (settle_pending _ _ _ _ _ _ Hn).
    destruct t; try done; simpl in Hk; injection Hk as ->; simpl in *.
    + destruct Hfail as [m ->].
      by destruct (throw_after_finish v k n w) as (? & ? & _).
    + unfold version_settled.
      destruct Hfail as [[m ->] | ->];
        [by destruct (throw_after_finish v k n w) as (? & ? & _)|].
      destruct o;
        [by destruct (throw_after_finish v k n (call MakeWASocket w))
              as (? & ? & _)
        |by destruct (throw_after_finish v k n w) as (? & ? & _)].
Qed.

Lemma failed_createSession_keeps_registry_witness :
  same_registry empty_world creating_world
  ∧ same_registry creating_world
      (step server creating_world (Settle 0 (Rejected "EACCES") None))
  ∧ same_registry constructing_world
      (step ban_md constructing_world (Settle 1 ok None)).
Proof.
  split; [|split].
  - destruct (failed_createSession_keeps_registry server (new_req empty_world))
      as (Hstart & _ & _).
    apply (Hstart (Some "s1") "x" (QrRoute 0)). reflexivity.
  - destruct (failed_createSession_keeps_registry server creating_world)
      as (_ & _ & Hfail).
    apply (Hfail 0 (AwaitAuthState (QrRoute 0) "s1") (QrRoute 0)
                 (Rejected "EACCES") None); [reflexivity|reflexivity|].
    by exists "EACCES".
  - destruct (failed_createSession_keeps_registry ban_md constructing_world)
      as (_ & _ & Hfail).
    apply (Hfail 1 (AwaitVersion (QrRoute 0) "s1") (QrRoute 0) ok None);
      [reflexivity|reflexivity|].
    by right.
Defined.

(** ** Eviction on close (server.js) *)

Lemma handler_open_registry v r id h u w :
  sessions (handler_open v r id h u w) = sessions w
  ∧ length (socks (handler_open v r id h u w)) = length (socks w)
  ∧ objs (handler_open v r id h u w) = objs w.
Proof.
  unfold handler_open. case_match; [|done].
  destruct v; simpl; by rewrite ?length_alter.
Qed.

Lemma handler_registry v r id h u w :
  sessions (handler v r id h u w) = sessions w
  ∧ length (socks (handler v r id h u w)) = length (socks w)
  ∧ objs (handler v r id h u w) = objs w.
Proof.
  unfold handler. repeat case_match; try apply handler_open_registry. done.
Qed.

Lemma deliver_server_sessions h u w g :
  sessions (deliver server h u w g) =
    match fn g with
    | SessionListener id _ =>
        if bool_decide (u_connection u = Some "close")
        then delete id (sessions w) else sessions w
    | _ => sessions w
    end
  ∧ length (socks (deliver server h u w g)) = length (socks w).
Proof.
  unfold deliver, callback.
  destruct (fn g) as [id l | r id | r]; simpl.
  - case_match; case_match; simpl; by rewrite ?length_alter.
  - destruct (handler_registry server r id h u
                (if once g then ev_off h (WaitListener r id) w else w))
      as (-> & -> & _).
    case_match; simpl; by rewrite ?length_alter.
  - repeat case_match; simpl; by rewrite ?length_alter.
Qed.

Lemma emit_server_close h u gs : ∀ w id,
  u_connection u = Some "close" →
  sessions w !! id = None ∨ (∃ g l, g ∈ gs ∧ fn g = SessionListener id l) →
  sessions (foldl (deliver server h u) w gs) !! id = None.
Proof.
  induction gs as [|g gs IH]; intros w id Hu Hw; simpl.
  - destruct Hw as [Hw | (g & l & Hg & _)]; [done|]. by apply not_elem_of_nil in Hg.
  - apply IH; [done|].
    destruct (deliver_server_sessions h u w g) as [Hs _].
    destruct Hw as [Hw | (g' & l & Hg & Hfn)].
    + left. rewrite Hs. repeat case_match; try done.
      by apply lookup_delete_None; right.
    + apply elem_of_cons in Hg as [-> | Hg].
      * left. rewrite Hs, Hfn, bool_decide_eq_true_2 by done.
        apply lookup_delete_eq.
      * right. by exists g', l.
Qed.

Lemma emit_server_socks h u gs : ∀ w,
  length (socks (foldl (deliver server h u) w gs)) = length (socks w).
Proof.
  induction gs as [|g gs IH]; intros w; simpl; [done|].
  rewrite IH. apply deliver_server_sessions.
Qed.

Lemma settle_spawned v t o mk w n :
  n = length (tasks w) →
  step v (spawn t w) (Settle n o mk) =
    resume v t o mk (finish_task n (spawn t w)).
Proof.
  intros ->. apply settle_pending. simpl. apply lookup_new.
Qed.

Lemma sockets_made_call c w :
  sockets_made (call c w) =
    (if decide (c = MakeWASocket) then 1 else 0) + sockets_made w.
Proof.
  unfold sockets_made. simpl. rewrite filter_app, length_app.
  rewrite filter_cons, filter_nil. case_decide; simpl; lia.
Qed.

(** In server.js, an id absent from the registry gets a socket made for it:
    [createSession] runs the whole construction and stores the new socket,
    whose reference no earlier socket has. *)
Lemma server_constructs_when_absent w id rnd k m :
  sessions w !! id = None →
  let n := length (tasks w) in
  let w' := run server (createSession server (Some id) rnd k w)
                       [Settle n ok None; Settle (S n) ok (Some m)] in
  sessions w' !! id = Some (length (socks w))
  ∧ length (socks w') = S (length (socks w))
  ∧ sockets_made w' = S (sockets_made w).
Proof.
  intros Hid n w'. subst w' n.
  assert (Hstart : createSession server (Some id) rnd k w =
            spawn (AwaitAuthState k id) (call (UseMultiFileAuthState id) w)).
  { unfold createSession. simpl. by rewrite Hid. }
  unfold run. cbn [foldl]. rewrite Hstart.
  rewrite settle_spawned by done.
  cbn [resume auth_settled ok].
  rewrite settle_spawned by (simpl; rewrite length_insert, length_app; simpl; lia).
  cbn [resume]. unfold version_settled, ok.
  set (w0 := call MakeWASocket _).
  assert (Hsocks : socks w0 = socks w) by done.
  assert (Hsess : sessions w0 = sessions w) by done.
  assert (Hmade : sockets_made w0 = S (sockets_made w)).
  { subst w0. unfold sockets_made. simpl.
    rewrite !filter_app, !length_app, !filter_cons, !filter_nil.
    repeat case_decide; simpl; try done; lia. }
  clearbody w0.
  unfold construct. rewrite Hsocks.
  destruct k as [r | r sid phone]; simpl;
    rewrite ?length_alter, ?length_app, Hsess, Hsocks; simpl;
    (split; [by rewrite lookup_insert_eq|split; [lia|]]).
  - done.
  - rewrite <- Hmade. unfold sockets_made. simpl.
    rewrite filter_app, length_app, filter_cons, filter_nil.
    case_decide; [done|]. simpl. lia.
Qed.

(** C10.  In server.js, when a socket on which [createSession] registered
    its listener for [id] emits an update with [connection === "close"], the
    registry has no entry for [id] afterwards.  A QR or pairing request for
    [id] that follows therefore runs the construction again: once the two
    provider promises settle, a socket made for this call, with a reference
    no earlier socket has, is stored under [id]. *)
Theorem close_evicts_session w h sk g id l u :
  socks w !! h = Some sk →
  g ∈ listeners sk →
  fn g = SessionListener id l →
  u_connection u = Some "close" →
  let w1 := step server w (Emit h u) in
  sessions w1 !! id = None
  ∧ ∀ e rnd phone m,
      e = GetQR (Some id) rnd ∨ e = GetPair id phone rnd →
      let n := length (tasks w1) in
      let w2 := run server w1 [e; Settle n ok None; Settle (S n) ok (Some m)] in
      sessions w2 !! id = Some (length (socks w))
      ∧ h < length (socks w)
      ∧ length (socks w2) = S (length (socks w))
      ∧ sockets_made w2 = S (sockets_made w1).
Proof.
  intros Hh Hg Hfn Hu w1.
  assert (H1 : sessions w1 !! id = None).
  { subst w1. unfold step, emit. rewrite Hh.
    apply emit_server_close; [done|]. right. by exists g, l. }
  assert (Hlen : length (socks w1) = length (socks w)).
  { subst w1. unfold step, emit. rewrite Hh. apply emit_server_socks. }
  split; [done|].
  intros e rnd phone m He n w2.
  assert (Hh' : h < length (socks w)) by (by eapply lookup_lt_Some).
  rewrite <- Hlen.
  destruct He as [-> | ->].
  - pose proof (server_constructs_when_absent (new_req w1) id rnd
                  (QrRoute (length (reqs w1))) m H1) as (Ha & Hb & Hc).
    subst w2 n. split; [exact Ha|]. split; [lia|]. split; [exact Hb|exact Hc].
  - pose proof (server_constructs_when_absent (new_req w1) id rnd
                  (PairRoute (length (reqs w1)) id phone) m H1) as (Ha & Hb & Hc).
    subst w2 n. split; [exact Ha|]. split; [lia|]. split; [exact Hb|exact Hc].
Qed.

Lemma close_evicts_session_witness :
  sessions (idle_in server) !! "s1" = Some 0
  ∧ sessions (step server (idle_in server) (Emit 0 closed)) !! "s1" = None
  ∧ sessions (run server (step server (idle_in server) (Emit 0 closed))
                [GetQR (Some "s1") "x"; Settle 3 ok None;
                 Settle 4 ok (Some (mkMade None true))]) !! "s1" = Some 1.
Proof.
  destruct (close_evicts_session (idle_in server) 0
              (mkSock None [mkReg (SessionListener "s1" 0) false] 1 true)
              (mkReg (SessionListener "s1" 0) false) "s1" 0 closed)
    as [Hgone Hagain].
  - reflexivity.
  - apply list_elem_of_here.
  - reflexivity.
  - reflexivity.
  - split; [reflexivity|]. split; [exact Hgone|].
    apply (Hagain (GetQR (Some "s1") "x") "x" "" (mkMade None true)).
    by left.
Defined.

(** ** Reuse of stored sessions *)

Lemma sockets_made_other c w :
  c ≠ MakeWASocket → sockets_made (call c w) = sockets_made w.
Proof. intros Hc. rewrite sockets_made_call. by case_decide. Qed.

Lemma return_to_registry v k id s w :
  let w' := return_to v k id s w in
  sessions w' = sessions w
  ∧ objs w' = objs w
  ∧ length (socks w') = length (socks w)
  ∧ sockets_made w' = sockets_made w.
Proof.
  destruct k as [r | r sessionId phone]; simpl.
  - unfold qr_route_k. destruct v; repeat case_match; simpl;
      by rewrite ?length_alter.
  - unfold pair_route_k.
    destruct v; repeat case_match; simpl; rewrite ?length_alter;
      repeat split; try done; by apply sockets_made_other.
Qed.

Lemma return_to_tasks v k id s w :
  ∃ ts, tasks (return_to v k id s w) = tasks w ++ ts.
Proof.
  destruct k as [r | r sessionId phone]; simpl.
  - unfold qr_route_k.
    destruct v; repeat case_match; simpl;
      first [by exists [] ; rewrite app_nil_r | by eexists].
  - unfold pair_route_k.
    destruct v; repeat case_match; simpl;
      first [by exists [] ; rewrite app_nil_r | by eexists].
Qed.

(** What one completed construction adds: one socket, made by one
    [makeWASocket] call, and at most new suspended tasks after the ones
    there were. *)
Lemma version_settled_makes v k id x m w :
  let w' := version_settled v k id (Fulfilled x) (Some m) w in
  length (socks w') = S (length (socks w))
  ∧ sockets_made w' = S (sockets_made w)
  ∧ ∃ ts, tasks w' = tasks w ++ ts.
Proof.
  unfold version_settled, construct.
  destruct v; cbv zeta;
    match goal with
    | |- context [return_to ?v ?k ?id ?s ?w] =>
        destruct (return_to_registry v k id s w) as (_ & _ & Hl & Hm);
        destruct (return_to_tasks v k id s w) as [ts Hts];
        rewrite Hl, Hm, Hts
    end; simpl; rewrite ?length_alter, ?length_app; simpl;
    (split; [lia|split; [|by exists ts]]);
    unfold sockets_made; simpl;
    rewrite filter_app, length_app, filter_cons, filter_nil;
    (case_decide; [simpl; lia|done]).
Qed.

(** Whenever the existence check of [createSession] finds a stored session,
    that session goes back to the caller and nothing is created: registry
    and session objects are unchanged, no socket is added and [makeWASocket]
    is not called.  In the state a completed construction leaves, the
    existence check for its id finds the session with the socket just
    made. *)
Theorem stored_session_is_returned v :
  (∀ w sessionId rnd k s,
     find_session v (session_id v sessionId rnd) w = Live s →
     let w' := createSession v sessionId rnd k w in
     w' = return_to v k (session_id v sessionId rnd) s w
     ∧ sessions w' = sessions w
     ∧ objs w' = objs w
     ∧ length (socks w') = length (socks w)
     ∧ sockets_made w' = sockets_made w)
  ∧ (∀ w k id m,
       let w1 := construct v k id m w in
       length (socks w1) = S (length (socks w))
       ∧ ∃ s, find_session v id w1 = Live s ∧ sock s = length (socks w)).
Proof.
  split.
  - intros w sessionId rnd k s Hfind w'. subst w'.
    unfold createSession. rewrite Hfind.
    split; [done|]. apply return_to_registry.
  - intros w k id m w1. subst w1. unfold construct.
    destruct v; cbn zeta;
      match goal with
      | |- context [return_to ?v ?k ?id ?s ?w] =>
          destruct (return_to_registry v k id s w) as (Hs & Ho & Hl & _);
          unfold find_session; rewrite ?Hl, ?Hs, ?Ho
      end; simpl; rewrite ?length_alter, ?length_app, lookup_insert_eq; simpl;
      rewrite ?lookup_new; (split; [lia|eauto]).
Qed.

Lemma stored_session_is_returned_witness :
  let w' := createSession ban_md (Some "s1") "ban-1" (QrRoute 1)
              (new_req (waiting_in ban_md)) in
  w' = return_to ban_md (QrRoute 1) "s1" (mkSession 0 None 0 None "init" false)
         (new_req (waiting_in ban_md))
  ∧ sessions w' = sessions (waiting_in ban_md)
  ∧ objs w' = objs (waiting_in ban_md)
  ∧ length (socks w') = 1
  ∧ sockets_made w' = 1.
Proof.
  destruct (stored_session_is_returned ban_md) as (Hstored & _).
  apply (Hstored (new_req (waiting_in ban_md)) (Some "s1") "ban-1"
           (QrRoute 1) (mkSession 0 None 0 None "init" false)).
  reflexivity.
Defined.

(** Two calls for one id that are both suspended in the construction each
    complete it: every variant makes two sockets. *)
Lemma racing_constructions_make_two v w n1 n2 k1 k2 id x1 x2 m1 m2 :
  n1 ≠ n2 →
  tasks w !! n1 = Some (Some (AwaitVersion k1 id)) →
  tasks w !! n2 = Some (Some (AwaitVersion k2 id)) →
  let w' := run v w [Settle n1 (Fulfilled x1) (Some m1);
                     Settle n2 (Fulfilled x2) (Some m2)] in
  length (socks w') = 2 + length (socks w)
  ∧ sockets_made w' = 2 + sockets_made w.
Proof.
  intros Hne H1 H2 w'. subst w'.
  unfold run. cbn [foldl].
  rewrite (settle_pending _ _ _ _ _ _ H1). cbn [resume].
  destruct (version_settled_makes v k1 id x1 m1 (finish_task n1 w))
    as (Hl1 & Hm1 & ts & Hts).
  set (w1 := version_settled v k1 id (Fulfilled x1) (Some m1) _) in *.
  assert (H2' : tasks w1 !! n2 = Some (Some (AwaitVersion k2 id))).
  { rewrite Hts. simpl. apply lookup_app_l_Some.
    by rewrite list_lookup_insert_ne. }
  rewrite (settle_pending _ _ _ _ _ _ H2'). cbn [resume].
  destruct (version_settled_makes v k2 id x2 m2 (finish_task n2 w1))
    as (Hl2 & Hm2 & _).
  clearbody w1. unfold sockets_made in *. simpl in *.
  by rewrite Hl2, Hm2, Hl1, Hm1.
Qed.

(** C2.  [createSession] checks the registry first, but the check does not
    make it idempotent: between the check and the insert it awaits
    [useMultiFileAuthState] and [fetchLatestBaileysVersion], and nothing
    records that a construction for the id is under way.  Two QR requests
    for the same id, the second arriving while the first is suspended in
    [createSession], make two sockets; each request waits on its own socket
    and the registry keeps the session stored last.  A request that arrives
    after the first construction has stored its session is handed socket 0,
    and a request that arrives after the second one has stored its own is
    handed socket 1: calls for one id do not yield one session.  The two
    later requests find a stored session and make no socket.  The same
    happens in server.js. *)
Theorem interleaved_createSession_makes_two_sockets :
  sockets_made (raced_in ban_md) = 2
  ∧ length (socks (raced_in ban_md)) = 2
  ∧ mkReg (WaitListener 0 "s1") true ∈ listeners_of 0 (raced_in ban_md)
  ∧ mkReg (WaitListener 1 "s1") true ∈ listeners_of 1 (raced_in ban_md)
  ∧ (sessions (raced_in ban_md) !! "s1"
       ≫= λ l, sock <$> objs (raced_in ban_md) !! l) = Some 1
  ∧ sockets_made (raced_in server) = 2
  ∧ mkReg (WaitListener 0 "s1") false ∈ listeners_of 0 (raced_in server)
  ∧ mkReg (WaitListener 1 "s1") false ∈ listeners_of 1 (raced_in server)
  ∧ sessions (raced_in server) !! "s1" = Some 1
  ∧ sockets_made (raced_then_polled ban_md) = 2
  ∧ mkReg (WaitListener 2 "s1") true ∈ listeners_of 0 (raced_then_polled ban_md)
  ∧ mkReg (WaitListener 3 "s1") true ∈ listeners_of 1 (raced_then_polled ban_md)
  ∧ sockets_made (raced_then_polled server) = 2
  ∧ mkReg (WaitListener 2 "s1") false
      ∈ listeners_of 0 (raced_then_polled server)
  ∧ mkReg (WaitListener 3 "s1") false
      ∈ listeners_of 1 (raced_then_polled server).
Proof.
  repeat split; try reflexivity; vm_compute; set_solver.
Qed.

(** ** Requests out of reach *)

Lemma remove_last_subseteq f gs g : g ∈ remove_last f gs → g ∈ gs.
Proof.
  induction gs as [|g0 gs IH]; simpl; [done|].
  destruct (bool_decide (f ∈ fn <$> gs)).
  - intros [-> | Hg]%elem_of_cons; [by left|]. right. by apply IH.
  - destruct (bool_decide (fn g0 = f)); [by right|done].
Qed.

Create HintDb frame.

Ltac frame_tac :=
  cbv zeta; repeat case_match; cbv zeta; auto 15 with frame.

Section Frame.
Variables (r : nat) (q : option Req) (own : option nat) (bound : option Z).

Local Abbreviation framed := (framed r q own bound).

Lemma framed_with_req r' f w :
  r' ≠ r → framed w → framed (with_req r' f w).
Proof.
  intros Hr [H1 H2 H3 H4]. constructor; simpl; try done.
  by rewrite list_lookup_alter_ne.
Qed.

Lemma framed_with_sock h' f w :
  (∀ s g, g ∈ listeners (f s) →
          g ∈ listeners s ∨ listener_req (fn g) ≠ Some r) →
  framed w → framed (with_sock h' f w).
Proof.
  intros Hf [H1 H2 H3 H4]. constructor; simpl; try done.
  intros h'' s g Hs Hg Hreq.
  destruct (decide (h' = h'')) as [<- | Hne].
  - rewrite list_lookup_alter_eq in Hs.
    destruct (socks w !! h') as [s0|] eqn:Hs0; simplify_eq/=.
    destruct (Hf _ _ Hg) as [Hg' | Hg']; [|done].
    by apply (H3 h' s0 g).
  - rewrite list_lookup_alter_ne in Hs by done. by apply (H3 h'' s g).
Qed.

Lemma framed_ev_on h' g w :
  listener_req (fn g) ≠ Some r → framed w → framed (ev_on h' g w).
Proof.
  intros Hg. apply framed_with_sock. simpl. intros s g'.
  rewrite elem_of_app, list_elem_of_singleton. intros [?| ->]; auto.
Qed.

Lemma framed_ev_off h' f w : framed w → framed (ev_off h' f w).
Proof.
  apply framed_with_sock. simpl. intros s g Hg. left.
  by apply remove_last_subseteq in Hg.
Qed.

Lemma framed_on_creds h' w : framed w → framed (on_creds h' w).
Proof. apply framed_with_sock. simpl. auto. Qed.

Lemma framed_set_user h' who w : framed w → framed (set_user h' who w).
Proof. apply framed_with_sock. simpl. auto. Qed.

Lemma framed_with_obj l f w : framed w → framed (with_obj l f w).
Proof. by intros []. Qed.

Lemma framed_with_sessions f w : framed w → framed (with_sessions f w).
Proof. by intros []. Qed.

Lemma framed_new_obj s w : framed w → framed (new_obj s w).
Proof. by intros []. Qed.

Lemma framed_call c w : framed w → framed (call c w).
Proof. by intros []. Qed.

Lemma framed_unhandled w : framed w → framed (unhandled w).
Proof. by intros []. Qed.

Lemma framed_new_req w :
  r ≠ length (reqs w) → framed w → framed (new_req w).
Proof.
  intros Hr [H1 H2 H3 H4]. constructor; simpl; try done.
  destruct (decide (r < length (reqs w))).
  - by rewrite lookup_app_l.
  - rewrite <- H1, !lookup_ge_None_2; [done|lia|].
    rewrite length_app. simpl. lia.
Qed.

Lemma framed_new_sock s w :
  listeners s = [] → framed w → framed (new_sock s w).
Proof.
  intros Hs [H1 H2 H3 H4]. constructor; simpl; try done.
  intros h' s' g Hs' Hg Hreq.
  apply lookup_app_Some in Hs' as [Hs' | [_ Hs']]; [by apply (H3 h' s' g)|].
  apply list_lookup_singleton_Some in Hs' as [_ <-].
  rewrite Hs in Hg. by apply not_elem_of_nil in Hg.
Qed.

Lemma framed_spawn t w :
  task_req t ≠ Some r → framed w → framed (spawn t w).
Proof.
  intros Ht [H1 H2 H3 H4]. constructor; simpl; try done.
  intros k t' Hk.
  apply lookup_app_Some in Hk as [Hk | [_ Hk]]; [by apply (H2 k)|].
  apply list_lookup_singleton_Some in Hk as [_ Hk]. by simplify_eq.
Qed.

Lemma framed_finish_task k w : framed w → framed (finish_task k w).
Proof.
  intros [H1 H2 H3 H4]. constructor; simpl; try done.
  intros k' t Hk.
  destruct (decide (k = k')) as [<- | Hne].
  - by apply list_lookup_insert_Some in Hk as [(_ & ? & _) | (? & _)].
  - rewrite list_lookup_insert_ne in Hk by done. by apply (H2 k').
Qed.

Lemma framed_set_now t w :
  (∀ d, bound = Some d → (t < d)%Z) → framed w → framed (set_now t w).
Proof. by intros Ht []. Qed.

#[local] Hint Resolve framed_with_req framed_ev_on framed_ev_off
  framed_on_creds framed_set_user framed_with_obj framed_with_sessions
  framed_new_obj framed_call framed_unhandled framed_new_req
  framed_new_sock framed_spawn framed_finish_task : frame.
#[local] Hint Extern 1 (_ ≠ _) => simpl; congruence : frame.
#[local] Hint Extern 1 (_ = _) => reflexivity : frame.

Lemma framed_res_json r' rep w :
  r' ≠ r → framed w → framed (res_json r' rep w).
Proof. unfold res_json. auto with frame. Qed.

Lemma framed_set_responded r' w :
  r' ≠ r → framed w → framed (set_responded r' w).
Proof. unfold set_responded. auto with frame. Qed.

Lemma framed_setTimeout r' t w :
  r' ≠ r → framed w → framed (setTimeout r' t w).
Proof. unfold setTimeout. auto with frame. Qed.

Lemma framed_timer_done r' w :
  r' ≠ r → framed w → framed (timer_done r' w).
Proof. unfold timer_done. auto with frame. Qed.

Lemma framed_on_finish_clear r' w :
  r' ≠ r → framed w → framed (on_finish_clear r' w).
Proof. unfold on_finish_clear. auto with frame. Qed.

Lemma framed_set_qrData r' d w :
  r' ≠ r → framed w → framed (set_qrData r' d w).
Proof. unfold set_qrData. auto with frame. Qed.

#[local] Hint Resolve framed_res_json framed_set_responded framed_setTimeout
  framed_timer_done framed_on_finish_clear framed_set_qrData : frame.

Lemma framed_session_update v id l h' u w :
  framed w → framed (session_update v id l h' u w).
Proof.
  intros Hw. unfold session_update.
  destruct v; frame_tac.
Qed.

Lemma framed_send_settled l w : framed w → framed (send_settled l w).
Proof. unfold send_settled. auto with frame. Qed.

Lemma framed_handler_open v r' id h' u w :
  r' ≠ r → framed w → framed (handler_open v r' id h' u w).
Proof.
  intros Hr Hw. unfold handler_open.
  destruct v; frame_tac.
Qed.

#[local] Hint Resolve framed_session_update framed_send_settled
  framed_handler_open : frame.

Lemma framed_handler v r' id h' u w :
  r' ≠ r → framed w → framed (handler v r' id h' u w).
Proof.
  intros Hr Hw. unfold handler. frame_tac.
Qed.

Lemma framed_handler_encoded v r' id h' u o w :
  r' ≠ r → framed w → framed (handler_encoded v r' id h' u o w).
Proof.
  intros Hr Hw. unfold handler_encoded.
  destruct v; frame_tac.
Qed.

Lemma framed_timeout_cb v r' t w :
  r' ≠ r → framed w → framed (timeout_cb v r' t w).
Proof.
  intros Hr Hw. unfold timeout_cb.
  destruct v; frame_tac.
Qed.

Lemma framed_qr_route_k v r' id s w :
  r' ≠ r → framed w → framed (qr_route_k v r' id s w).
Proof.
  intros Hr Hw. unfold qr_route_k.
  destruct v; frame_tac.
Qed.

Lemma framed_cached_encoded r' id o w :
  r' ≠ r → framed w → framed (cached_encoded r' id o w).
Proof. intros Hr Hw. unfold cached_encoded. case_match; auto with frame. Qed.

Lemma framed_pair_route_k v r' sessionId phone id s w :
  r' ≠ r → framed w → framed (pair_route_k v r' sessionId phone id s w).
Proof.
  intros Hr Hw. unfold pair_route_k.
  destruct v; frame_tac.
Qed.

Lemma framed_pair_settled v r' sessionId id o w :
  r' ≠ r → framed w → framed (pair_settled v r' sessionId id o w).
Proof.
  intros Hr Hw. unfold pair_settled.
  destruct v; frame_tac.
Qed.

#[local] Hint Resolve framed_handler framed_handler_encoded
  framed_timeout_cb framed_qr_route_k framed_cached_encoded
  framed_pair_route_k framed_pair_settled : frame.

Lemma framed_return_to v k id s w :
  caller_req k ≠ r → framed w → framed (return_to v k id s w).
Proof. intros Hk Hw. destruct k; simpl in *; auto with frame. Qed.

Lemma framed_throw_to v k w :
  caller_req k ≠ r → framed w → framed (throw_to v k w).
Proof. intros Hk Hw. destruct v, k; simpl in *; auto with frame. Qed.

#[local] Hint Resolve framed_return_to framed_throw_to : frame.

Lemma framed_createSession v sessionId rnd k w :
  caller_req k ≠ r → framed w → framed (createSession v sessionId rnd k w).
Proof.
  intros Hk Hw. unfold createSession. frame_tac.
Qed.

Lemma framed_construct v k id m w :
  caller_req k ≠ r → framed w → framed (construct v k id m w).
Proof.
  intros Hk Hw. unfold construct. destruct v; frame_tac.
Qed.

#[local] Hint Resolve framed_createSession framed_construct : frame.

Lemma framed_resume v t o mk w :
  task_req t ≠ Some r → framed w → framed (resume v t o mk w).
Proof.
  intros Ht Hw.
  destruct t; simpl in *;
    unfold auth_settled, version_settled;
    frame_tac.
Qed.

Lemma framed_settle v k o mk w : framed w → framed (settle v k o mk w).
Proof.
  intros Hw. unfold settle.
  destruct (tasks w !! k) as [[t|]|] eqn:Hk; try done.
  apply framed_resume; [by eapply fr_tasks|auto with frame].
Qed.

Lemma framed_qr_route v param rnd w :
  r ≠ length (reqs w) → framed w → framed (qr_route v param rnd w).
Proof.
  intros Hr Hw. unfold qr_route. destruct v; frame_tac.
Qed.

Lemma framed_pair_route v sessionId phone rnd w :
  r ≠ length (reqs w) →
  framed w → framed (pair_route v sessionId phone rnd w).
Proof.
  intros Hr Hw. unfold pair_route. destruct v; frame_tac.
Qed.

End Frame.

(** ** Waiting requests and quiet events *)

Lemma handler_quiet v r id h u w : quiet_update u → handler v r id h u w = w.
Proof.
  intros [Hqr Hopen]. unfold handler, handler_open.
  rewrite (bool_decide_eq_false_2 _ Hopen). simpl.
  destruct (u_qr u) as [payload|]; [|done].
  simpl in Hqr. by rewrite Hqr.
Qed.

Section Quiet.
Variables (r : nat) (q : option Req) (own : option nat) (bound : option Z).

Local Abbreviation framed := (framed r q own bound).

Lemma framed_callback v h' f u w :
  (listener_req f = Some r →
   (∃ id, f = WaitListener r id) ∧ quiet_update u) →
  framed w → framed (callback v h' f u w).
Proof.
  intros Hf Hw. destruct f as [id l | r' id | r']; simpl.
  - by apply framed_session_update.
  - destruct (decide (r' = r)) as [-> | Hr].
    + destruct Hf as [_ Hu]; [done|]. by rewrite handler_quiet.
    + by apply framed_handler.
  - destruct (decide (r' = r)) as [-> | Hr].
    + destruct Hf as [[id Hid] _]; [done|]. done.
    + case_match; [|done]. by apply framed_set_qrData.
Qed.

Lemma framed_deliver v h' u w g :
  (listener_req (fn g) = Some r →
   (∃ id, fn g = WaitListener r id) ∧ quiet_update u) →
  framed w → framed (deliver v h' u w g).
Proof.
  intros Hg Hw. unfold deliver. apply framed_callback; [done|].
  case_match; [by apply framed_ev_off|done].
Qed.

Lemma framed_deliver_all v h' u gs : ∀ w,
  (∀ g, g ∈ gs → listener_req (fn g) = Some r →
        (∃ id, fn g = WaitListener r id) ∧ quiet_update u) →
  framed w → framed (foldl (deliver v h' u) w gs).
Proof.
  induction gs as [|g gs IH]; intros w Hgs Hw; simpl; [done|].
  apply IH.
  - intros g' Hg'. apply Hgs. by right.
  - apply framed_deliver; [|done]. apply Hgs. by left.
Qed.

Lemma framed_emit v h' u w :
  (own = Some h' → quiet_update u) → framed w → framed (emit v h' u w).
Proof.
  intros Hu Hw. unfold emit.
  destruct (socks w !! h') as [s|] eqn:Hs; [|done].
  apply framed_deliver_all; [|done].
  intros g Hg Hreq.
  destruct (fr_listeners _ _ _ _ _ Hw h' s g Hs Hg Hreq) as [Hown Hid].
  auto.
Qed.

Lemma framed_fire_other v w r' : r' ≠ r → framed w → framed (fire v w r').
Proof.
  intros Hr Hw. unfold fire. repeat case_match; try done.
  by apply framed_timeout_cb, framed_timer_done.
Qed.

Lemma framed_fire_early v w :
  (∀ t, q ≫= timer = Some t → bound = Some (due t)) →
  framed w → framed (fire v w r).
Proof.
  intros Hq Hw. unfold fire. rewrite (fr_req _ _ _ _ _ Hw).
  destruct (q ≫= timer) as [t|] eqn:Ht; [|done].
  pose proof (fr_now _ _ _ _ _ Hw _ (Hq t eq_refl)).
  rewrite bool_decide_eq_false_2; [done|lia].
Qed.

Lemma framed_fire v w r' :
  (∀ t, q ≫= timer = Some t → bound = Some (due t)) →
  framed w → framed (fire v w r').
Proof.
  intros Hq Hw. destruct (decide (r' = r)) as [-> | Hr].
  - by apply framed_fire_early.
  - by apply framed_fire_other.
Qed.

Lemma framed_advance v t w :
  (∀ t, q ≫= timer = Some t → bound = Some (due t)) →
  (∀ d, bound = Some d → (t < d)%Z) →
  framed w → framed (advance v t w).
Proof.
  intros Hq Ht Hw. unfold advance.
  assert (Hw' : framed (set_now (Z.max (now w) t) w)).
  { apply framed_set_now; [|done]. intros d Hd.
    pose proof (fr_now _ _ _ _ _ Hw _ Hd). pose proof (Ht d Hd). lia. }
  change (length (reqs (set_now (Z.max (now w) t) w)))
    with (length (reqs w)).
  revert Hw'. generalize (set_now (Z.max (now w) t) w).
  induction (seq 0 (length (reqs w))) as [|r' rs IH]; intros w' Hw'; simpl;
    [done|].
  by apply IH, framed_fire.
Qed.

(** One event that brings no QR or open update to the socket of the
    request's handler, keeps the clock before the bound, and does not hand
    out the index [r] to a new request, leaves [r] out of reach. *)
Lemma framed_step v e w :
  (∀ t, q ≫= timer = Some t → bound = Some (due t)) →
  (∀ h u, e = Emit h u → own = Some h → quiet_update u) →
  (∀ t d, e = Advance t → bound = Some d → (t < d)%Z) →
  (is_request e = true → r ≠ length (reqs w)) →
  framed w → framed (step v w e).
Proof.
  intros Hq Hemit Hadv Hreq Hw. destruct e; simpl in *.
  - by apply framed_qr_route; auto.
  - by apply framed_pair_route; auto.
  - by apply framed_settle.
  - apply framed_emit; [|done]. by apply Hemit.
  - by apply framed_set_user.
  - apply framed_advance; [done| |done]. intros d' Hd'. by apply Hadv.
Qed.

End Quiet.

(** ** The timer of a waiting request *)

Lemma framed_unbounded r q own bound w :
  framed r q own bound w → framed r q own None w.
Proof. intros [H1 H2 H3 H4]. by constructor. Qed.

Lemma framed_with_req_self r q own bound f w :
  framed r q own bound w → framed r (f <$> q) own bound (with_req r f w).
Proof.
  intros [H1 H2 H3 H4]. constructor; simpl; try done.
  by rewrite list_lookup_alter_eq, H1.
Qed.

Lemma now_fire v w r : now (fire v w r) = now w.
Proof.
  unfold fire, timeout_cb. destruct v; repeat case_match; done.
Qed.

Lemma foldl_fire_others v r q own rs : ∀ w,
  r ∉ rs →
  framed r q own None w →
  framed r q own None (foldl (fire v) w rs)
  ∧ now (foldl (fire v) w rs) = now w.
Proof.
  induction rs as [|r' rs IH]; intros w Hr Hw; simpl; [done|].
  apply not_elem_of_cons in Hr as [Hne Hr].
  destruct (IH (fire v w r') Hr) as [Hf Hn].
  - by apply framed_fire_other.
  - split; [done|]. by rewrite Hn, now_fire.
Qed.

(** What the closure variables of a waiting request become when its timer
    fires in ban-md.js and part_000. *)
Lemma fire_due v r q own w tm :
  long_poll v →
  framed r (Some q) own None w →
  timer q = Some tm →
  responded q = false →
  (due tm ≤ now w)%Z →
  framed r
    (Some (mkReq false (qrData q) None (clear_on_finish q)
             (replies q ++ [json [("error", JStr qr_unavailable);
                                  ("sessionId", JStr (t_id tm))]])))
    own None (fire v w r).
Proof.
  intros Hv Hw Ht Hresp Hdue.
  unfold fire. rewrite (fr_req _ _ _ _ _ Hw). simpl. rewrite Ht.
  rewrite bool_decide_eq_true_2 by done.
  assert (Hnot : is_responded r (timer_done r w) = false).
  { unfold is_responded, timer_done. simpl.
    by rewrite list_lookup_alter_eq, (fr_req _ _ _ _ _ Hw). }
  assert (Hcb : timeout_cb v r tm (timer_done r w) =
                res_json r (json [("error", JStr qr_unavailable);
                                  ("sessionId", JStr (t_id tm))])
                  (timer_done r w)).
  { unfold timeout_cb. destruct Hv as [-> | ->]; by rewrite Hnot. }
  rewrite Hcb.
  apply (framed_with_req_self r _ own None
           (λ q, mkReq (responded q) (qrData q) None (clear_on_finish q)
                       (replies q))) in Hw.
  apply (framed_with_req_self r _ own None
           (λ q, mkReq (responded q) (qrData q)
                       (if clear_on_finish q then None else timer q)
                       (clear_on_finish q)
                       (replies q ++ [json [("error", JStr qr_unavailable);
                                            ("sessionId", JStr (t_id tm))]])))
    in Hw.
  simpl in Hw. rewrite Hresp in Hw.
  by destruct (clear_on_finish q).
Qed.

Lemma advance_fires v r q own bound w tm t :
  long_poll v →
  framed r (Some q) own bound w →
  timer q = Some tm →
  responded q = false →
  (due tm ≤ t)%Z →
  framed r
    (Some (mkReq false (qrData q) None (clear_on_finish q)
             (replies q ++ [json [("error", JStr qr_unavailable);
                                  ("sessionId", JStr (t_id tm))]])))
    own None (advance v t w).
Proof.
  intros Hv Hw Ht Hresp Hdue. unfold advance.
  set (w0 := set_now (Z.max (now w) t) w).
  assert (Hw0 : framed r (Some q) own None w0).
  { apply framed_set_now; [done|]. by apply framed_unbounded with bound. }
  assert (Hr : r < length (reqs w0))
    by (eapply lookup_lt_Some, fr_req, Hw0).
  replace (length (reqs w0)) with (r + (1 + (length (reqs w0) - S r))) by lia.
  rewrite !seq_app, !foldl_app. simpl.
  destruct (foldl_fire_others v r (Some q) own (seq 0 r) w0) as [H1 Hnow1];
    [|done|].
  { rewrite elem_of_seq. lia. }
  set (w1 := foldl (fire v) w0 (seq 0 r)) in *.
  assert (Hdue1 : (due tm ≤ now w1)%Z) by (rewrite Hnow1; subst w0; simpl; lia).
  assert (H2 := fire_due v r q own w1 tm Hv H1 Ht Hresp Hdue1).
  apply (foldl_fire_others v r _ own (seq (r + 1) (length (reqs w0) - S r)))
    in H2 as [H3 _]; [done|].
  rewrite elem_of_seq. lia.
Qed.

(** In ban-md.js and part_000 no timer callback touches a socket. *)
Lemma advance_socks v t w : long_poll v → socks (advance v t w) = socks w.
Proof.
  intros Hv. unfold advance.
  change (socks w) with (socks (set_now (Z.max (now w) t) w)).
  generalize (seq 0 (length (reqs (set_now (Z.max (now w) t) w)))).
  generalize (set_now (Z.max (now w) t) w).
  intros w' rs. revert w'.
  induction rs as [|r rs IH]; intros w'; simpl; [done|].
  rewrite IH. unfold fire, timeout_cb.
  destruct Hv as [-> | ->]; repeat case_match; done.
Qed.

Lemma qr_timeout_pos v : (0 < qr_timeout v)%Z.
Proof. by destruct v. Qed.

(** The route of an untouched request [r] that finds no user and no fresh
    cached QR leaves [r] waiting on the socket, with the timer armed for the
    current time plus the variant's delay. *)
Lemma qr_route_k_arms v r id s w :
  long_poll v →
  sock_user (sock s) w = None →
  fresh_qr s w = None →
  framed r (Some untouched) None None w →
  framed r (Some (waiting v (now w + qr_timeout v) id (sock s)))
         (Some (sock s)) (Some (now w + qr_timeout v)%Z)
         (qr_route_k v r id s w).
Proof.
  intros Hv Hu Hf Hw. rewrite qr_route_k_wait by done. cbv zeta.
  pose proof (qr_timeout_pos v) as Hpos.
  assert (H1 : framed r (Some untouched) (Some (sock s)) None
                 (ev_on (sock s) (mkReg (WaitListener r id) true) w)).
  { destruct Hw as [H1 H2 H3 H4]. constructor; simpl; try done.
    intros h' s' g Hs' Hg Hreq.
    destruct (decide (sock s = h')) as [<- | Hne].
    - split; [done|].
      rewrite list_lookup_alter_eq in Hs'.
      destruct (socks w !! sock s) as [s0|] eqn:Hs0; simplify_eq/=.
      apply elem_of_app in Hg as [Hg | Hg].
      + by destruct (H3 (sock s) s0 g).
      + apply list_elem_of_singleton in Hg as ->. by exists id.
    - rewrite list_lookup_alter_ne in Hs' by done.
      by destruct (H3 h' s' g) as [? _]. }
  set (w1 := ev_on _ _ w) in *.
  assert (H2 : framed r (Some (waiting v (now w + qr_timeout v) id (sock s)))
                 (Some (sock s)) (Some (now w + qr_timeout v)%Z)
                 (match v with
                  | part_000 =>
                      on_finish_clear r
                        (setTimeout r (mkTimer (now w1 + qr_timeout v) id (sock s)) w1)
                  | _ => setTimeout r (mkTimer (now w1 + qr_timeout v) id (sock s)) w1
                  end)).
  { destruct H1 as [H1 H2 H3 H4]. simpl in H1.
    destruct Hv as [-> | ->]; constructor; simpl; try done;
      rewrite ?list_lookup_alter_eq, ?H1; try done;
      intros d [= <-]; simpl in *; lia. }
  by destruct Hv as [-> | ->].
Qed.

Lemma unused_framed w :
  unused (length (reqs w)) w →
  framed (length (reqs w)) (Some untouched) None None (new_req w).
Proof.
  intros [Ht Hl]. constructor; simpl; try done.
  - apply lookup_new.
  - intros h' s g Hs Hg Hreq. by destruct (Hl h' s g).
Qed.

(** ** Request indices are handed out once *)

Create HintDb grows.

Ltac grows_tac :=
  cbv zeta; repeat case_match; cbv zeta; auto 15 with grows.

Section Grows.
Variable w0 : World.

Lemma grows_with_req r f w : grows w0 w → grows w0 (with_req r f w).
Proof. unfold grows. simpl. by rewrite length_alter. Qed.

Lemma grows_with_sock h f w : grows w0 w → grows w0 (with_sock h f w).
Proof. done. Qed.

Lemma grows_with_obj l f w : grows w0 w → grows w0 (with_obj l f w).
Proof. done. Qed.

Lemma grows_with_sessions f w : grows w0 w → grows w0 (with_sessions f w).
Proof. done. Qed.

Lemma grows_new_req w : grows w0 w → grows w0 (new_req w).
Proof. unfold grows. simpl. rewrite length_app. simpl. lia. Qed.

Lemma grows_new_sock s w : grows w0 w → grows w0 (new_sock s w).
Proof. done. Qed.

Lemma grows_new_obj s w : grows w0 w → grows w0 (new_obj s w).
Proof. done. Qed.

Lemma grows_spawn t w : grows w0 w → grows w0 (spawn t w).
Proof. done. Qed.

Lemma grows_finish_task k w : grows w0 w → grows w0 (finish_task k w).
Proof. done. Qed.

Lemma grows_call c w : grows w0 w → grows w0 (call c w).
Proof. done. Qed.

Lemma grows_set_now t w : grows w0 w → grows w0 (set_now t w).
Proof. done. Qed.

#[local] Hint Resolve grows_with_req grows_with_sock grows_with_obj
  grows_with_sessions grows_new_req grows_new_sock grows_new_obj grows_spawn
  grows_finish_task grows_call grows_set_now : grows.

Lemma grows_effects w :
  grows w0 w →
  (∀ r rep, grows w0 (res_json r rep w))
  ∧ (∀ r, grows w0 (set_responded r w))
  ∧ (∀ r t, grows w0 (setTimeout r t w))
  ∧ (∀ r, grows w0 (timer_done r w))
  ∧ (∀ r, grows w0 (on_finish_clear r w))
  ∧ (∀ r d, grows w0 (set_qrData r d w))
  ∧ (∀ h g, grows w0 (ev_on h g w))
  ∧ (∀ h f, grows w0 (ev_off h f w))
  ∧ (∀ h, grows w0 (on_creds h w))
  ∧ (∀ h who, grows w0 (set_user h who w))
  ∧ (∀ l, grows w0 (send_settled l w)).
Proof.
  intros Hw.
  repeat split; intros;
    unfold res_json, set_responded, setTimeout, timer_done, on_finish_clear,
      set_qrData, ev_on, ev_off, on_creds, set_user, send_settled;
    auto with grows.
Qed.

Lemma grows_res_json r rep w : grows w0 w → grows w0 (res_json r rep w).
Proof. intros Hw. by apply grows_effects. Qed.

Lemma grows_set_responded r w : grows w0 w → grows w0 (set_responded r w).
Proof. intros Hw. by apply grows_effects. Qed.

Lemma grows_setTimeout r t w : grows w0 w → grows w0 (setTimeout r t w).
Proof. intros Hw. by apply grows_effects. Qed.

Lemma grows_timer_done r w : grows w0 w → grows w0 (timer_done r w).
Proof. intros Hw. by apply grows_effects. Qed.

Lemma grows_on_finish_clear r w : grows w0 w → grows w0 (on_finish_clear r w).
Proof. intros Hw. by apply grows_effects. Qed.

Lemma grows_set_qrData r d w : grows w0 w → grows w0 (set_qrData r d w).
Proof. intros Hw. by apply grows_effects. Qed.

Lemma grows_ev_on h g w : grows w0 w → grows w0 (ev_on h g w).
Proof. intros Hw. by apply grows_effects. Qed.

Lemma grows_ev_off h f w : grows w0 w → grows w0 (ev_off h f w).
Proof. intros Hw. by apply grows_effects. Qed.

Lemma grows_on_creds h w : grows w0 w → grows w0 (on_creds h w).
Proof. intros Hw. by apply grows_effects. Qed.

Lemma grows_set_user h who w : grows w0 w → grows w0 (set_user h who w).
Proof. intros Hw. by apply grows_effects. Qed.

Lemma grows_send_settled l w : grows w0 w → grows w0 (send_settled l w).
Proof. intros Hw. by apply grows_effects. Qed.

#[local] Hint Resolve grows_res_json grows_set_responded grows_setTimeout
  grows_timer_done grows_on_finish_clear grows_set_qrData grows_ev_on
  grows_ev_off grows_on_creds grows_set_user grows_send_settled : grows.

Lemma grows_session_update v id l h u w :
  grows w0 w → grows w0 (session_update v id l h u w).
Proof. intros Hw. unfold session_update. destruct v; grows_tac. Qed.

Lemma grows_handler_open v r id h u w :
  grows w0 w → grows w0 (handler_open v r id h u w).
Proof. intros Hw. unfold handler_open. destruct v; grows_tac. Qed.

#[local] Hint Resolve grows_session_update grows_handler_open : grows.

Lemma grows_handler v r id h u w : grows w0 w → grows w0 (handler v r id h u w).
Proof. intros Hw. unfold handler. grows_tac. Qed.

Lemma grows_handler_encoded v r id h u o w :
  grows w0 w → grows w0 (handler_encoded v r id h u o w).
Proof. intros Hw. unfold handler_encoded. destruct v; grows_tac. Qed.

Lemma grows_timeout_cb v r t w : grows w0 w → grows w0 (timeout_cb v r t w).
Proof. intros Hw. unfold timeout_cb. destruct v; grows_tac. Qed.

Lemma grows_qr_route_k v r id s w : grows w0 w → grows w0 (qr_route_k v r id s w).
Proof. intros Hw. unfold qr_route_k. destruct v; grows_tac. Qed.

Lemma grows_cached_encoded r id o w :
  grows w0 w → grows w0 (cached_encoded r id o w).
Proof. intros Hw. unfold cached_encoded. grows_tac. Qed.

Lemma grows_pair_route_k v r sessionId phone id s w :
  grows w0 w → grows w0 (pair_route_k v r sessionId phone id s w).
Proof. intros Hw. unfold pair_route_k. destruct v; grows_tac. Qed.

Lemma grows_pair_settled v r sessionId id o w :
  grows w0 w → grows w0 (pair_settled v r sessionId id o w).
Proof. intros Hw. unfold pair_settled. destruct v; grows_tac. Qed.

#[local] Hint Resolve grows_handler grows_handler_encoded grows_timeout_cb
  grows_qr_route_k grows_cached_encoded grows_pair_route_k
  grows_pair_settled : grows.

Lemma grows_return_to v k id s w : grows w0 w → grows w0 (return_to v k id s w).
Proof. intros Hw. destruct k; simpl; auto with grows. Qed.

Lemma grows_throw_to v k w : grows w0 w → grows w0 (throw_to v k w).
Proof. intros Hw. destruct v, k; simpl; auto with grows. Qed.

#[local] Hint Resolve grows_return_to grows_throw_to : grows.

Lemma grows_createSession v sessionId rnd k w :
  grows w0 w → grows w0 (createSession v sessionId rnd k w).
Proof. intros Hw. unfold createSession. grows_tac. Qed.

Lemma grows_construct v k id m w : grows w0 w → grows w0 (construct v k id m w).
Proof. intros Hw. unfold construct. destruct v; grows_tac. Qed.

#[local] Hint Resolve grows_createSession grows_construct : grows.

Lemma grows_settle v k o mk w : grows w0 w → grows w0 (settle v k o mk w).
Proof.
  intros Hw. unfold settle, resume, auth_settled, version_settled.
  grows_tac.
Qed.

Lemma grows_emit v h u w : grows w0 w → grows w0 (emit v h u w).
Proof.
  intros Hw. unfold emit. destruct (socks w !! h) as [s|]; [|done].
  revert w Hw. induction (listeners s) as [|g gs IH]; intros w Hw; simpl;
    [done|].
  apply IH. unfold deliver, callback. grows_tac.
Qed.

Lemma grows_advance v t w : grows w0 w → grows w0 (advance v t w).
Proof.
  intros Hw. unfold advance.
  assert (Hw' : grows w0 (set_now (Z.max (now w) t) w))
    by (by apply grows_set_now).
  revert Hw'.
  generalize (seq 0 (length (reqs (set_now (Z.max (now w) t) w)))).
  generalize (set_now (Z.max (now w) t) w).
  intros w' rs. revert w'.
  induction rs as [|r rs IH]; intros w' Hw'; simpl; [done|].
  apply IH. unfold fire. grows_tac.
Qed.

End Grows.

Lemma grows_refl w : grows w w.
Proof. unfold grows. lia. Qed.

(** An event never drops a request, and an HTTP request adds one. *)
Lemma step_grows v w e :
  length (reqs w) + (if is_request e then 1 else 0)
  ≤ length (reqs (step v w e)).
Proof.
  assert (Hnew : length (reqs (new_req w)) = length (reqs w) + 1)
    by (simpl; by rewrite length_app).
  destruct e; simpl; rewrite <- ?Hnew, ?Nat.add_0_r.
  - unfold qr_route.
    destruct v; apply (grows_createSession (new_req w)), grows_refl.
  - unfold pair_route.
    destruct v; repeat case_match;
      first [apply (grows_createSession (new_req w))
            |apply (grows_res_json (new_req w))]; apply grows_refl.
  - apply (grows_settle w), grows_refl.
  - apply (grows_emit w), grows_refl.
  - apply (grows_set_user w h who w), grows_refl.
  - apply (grows_advance w), grows_refl.
Qed.

(** In a world the service has reached, an index no request has yet is
    referred to by no suspended task and by no listener. *)
Lemma reachable_unused v w r :
  reachable v w → length (reqs w) ≤ r → unused r w.
Proof.
  intros [es ->] Hr.
  assert (Hf : framed r None None None (run v empty_world es)).
  { revert r Hr. induction es as [|e es IH] using rev_ind; intros r Hr.
    - by constructor.
    - unfold run in *. rewrite foldl_app in *. simpl in *.
      pose proof (step_grows v (foldl (step v) empty_world es) e) as Hg.
      apply framed_step; try done.
      + intros He. rewrite He in Hg. lia.
      + apply IH. lia. }
  split.
  - apply (fr_tasks _ _ _ _ _ Hf).
  - intros h s g Hs Hg Hreq.
    by destruct (fr_listeners _ _ _ _ _ Hf h s g Hs Hg Hreq).
Qed.

(** ** The timeout callback of ban-md.js and part_000 *)

(** Once [responded] is true, [handler] does nothing in any variant. *)
Lemma handler_latched v r id h u w :
  is_responded r w = true → handler v r id h u w = w.
Proof.
  intros Hr. unfold handler, handler_open. rewrite Hr. simpl.
  rewrite !andb_false_r. destruct (u_qr u) as [payload|]; [|done].
  by rewrite andb_false_r.
Qed.

(** The timeout callback of server.js sets the latch; the one of ban-md.js
    and part_000 leaves [responded] as it found it. *)
Lemma timeout_cb_latch v r t w :
  r < length (reqs w) →
  is_responded r (timeout_cb v r t w) =
    match v with
    | server => true
    | _ => is_responded r w
    end.
Proof.
  intros Hr. destruct (lookup_lt_is_Some_2 _ _ Hr) as [q Hq].
  unfold timeout_cb, is_responded.
  destruct v; repeat case_match; simpl;
    rewrite ?list_lookup_alter_eq, ?Hq; simpl; try done.
  all: unfold is_responded in *; rewrite Hq in *; simpl in *;
    by destruct (responded q).
Qed.

(** The state in which the timeout leaves a QR request of ban-md.js or
    part_000 that found a stored session with no user and no fresh cached
    QR: the timeout reply made, [responded] still false, and the handler
    still the last registration on the socket. *)
Lemma timed_out_state v w param rnd id l s sk t :
  long_poll v →
  reachable v w →
  wanted param = Some id →
  sessions w !! id = Some l →
  objs w !! l = Some s →
  sock_user (sock s) w = None →
  fresh_qr s w = None →
  socks w !! sock s = Some sk →
  (now w + qr_timeout v ≤ t)%Z →
  let r := length (reqs w) in
  let w' := run v w [GetQR param rnd; Advance t] in
  framed r
    (Some (mkReq false None None match v with part_000 => true | _ => false end
             [json [("error", JStr qr_unavailable); ("sessionId", JStr id)]]))
    (Some (sock s)) None w'
  ∧ listeners_of (sock s) w' =
      listeners sk ++ [mkReg (WaitListener r id) true].
Proof.
  intros Hv Hreach Hp Hid Hl Hu Hf Hs Ht r w'. subst w'.
  unfold run. cbn [foldl].
  rewrite (qr_route_stored v w param rnd id l s) by done.
  assert (Harm := qr_route_k_arms v r id s (new_req w) Hv Hu Hf
                    (unused_framed w (reachable_unused v w r Hreach (le_n _)))).
  split.
  - apply (advance_fires v r _ _ _ _ (mkTimer (now w + qr_timeout v) id (sock s)) t
             Hv Harm); try done.
  - unfold listeners_of. cbn [step]. rewrite advance_socks by done.
    rewrite qr_route_k_wait by done. cbv zeta.
    destruct Hv as [-> | ->]; simpl; by rewrite list_lookup_alter_eq, Hs.
Qed.

(** In ban-md.js and part_000, a QR request on a stored session with no
    user and no fresh cached QR that is answered by its timeout leaves its
    handler registered on the socket, with [responded] still false. *)
Lemma timeout_leaves_handler_live v w param rnd id l s sk t :
  long_poll v →
  reachable v w →
  wanted param = Some id →
  sessions w !! id = Some l →
  objs w !! l = Some s →
  sock_user (sock s) w = None →
  fresh_qr s w = None →
  socks w !! sock s = Some sk →
  (now w + qr_timeout v ≤ t)%Z →
  let r := length (reqs w) in
  let w' := run v w [GetQR param rnd; Advance t] in
  replies_of r w' =
    [json [("error", JStr qr_unavailable); ("sessionId", JStr id)]]
  ∧ mkReg (WaitListener r id) true ∈ listeners_of (sock s) w'
  ∧ is_responded r w' = false.
Proof.
  intros Hv Hreach Hp Hid Hl Hu Hf Hs Ht r w'.
  destruct (timed_out_state v w param rnd id l s sk t) as [Hfr Hls]; try done.
  fold r in Hfr, Hls. fold w' in Hfr, Hls.
  split; [|split].
  - unfold replies_of. by rewrite (fr_req _ _ _ _ _ Hfr).
  - rewrite Hls. apply elem_of_app. right. apply list_elem_of_here.
  - unfold is_responded. by rewrite (fr_req _ _ _ _ _ Hfr).
Qed.

(** ... and when the socket then delivers a QR payload, the handler starts
    its encoding, and [res.json] is called a second time when the encoder
    returns. *)
Lemma late_qr_replies_again v w param rnd id l s sk t u payload :
  long_poll v →
  reachable v w →
  wanted param = Some id →
  sessions w !! id = Some l →
  objs w !! l = Some s →
  sock_user (sock s) w = None →
  fresh_qr s w = None →
  socks w !! sock s = Some sk →
  (now w + qr_timeout v ≤ t)%Z →
  u_qr u = Some payload →
  payload ≠ "" →
  let r := length (reqs w) in
  let w' := run v w [GetQR param rnd; Advance t; Emit (sock s) u] in
  ∃ k, tasks w' !! k = Some (Some (AwaitEventQR r id (sock s) u))
       ∧ ∀ img mk,
           replies_of r (step v w' (Settle k (Fulfilled img) mk)) =
             [json [("error", JStr qr_unavailable); ("sessionId", JStr id)];
              json [("qr", JStr img); ("sessionId", JStr id)]].
Proof.
  intros Hv Hreach Hp Hid Hl Hu Hf Hs Ht Hqr Hne r w'.
  destruct (timed_out_state v w param rnd id l s sk t) as [Hfr Hls]; try done.
  fold r in Hfr, Hls.
  set (w2 := run v w [GetQR param rnd; Advance t]) in *.
  assert (Hw' : w' = emit v (sock s) u w2) by done.
  assert (Hsk2 : ∃ sk2, socks w2 !! sock s = Some sk2
                        ∧ listeners sk2 =
                            listeners sk ++ [mkReg (WaitListener r id) true]).
  { unfold listeners_of in Hls.
    destruct (socks w2 !! sock s) as [sk2|] eqn:Hsk2; [by exists sk2|].
    simpl in Hls. by destruct (listeners sk). }
  destruct Hsk2 as (sk2 & Hsk2 & Hls2).
  unfold emit in Hw'. rewrite Hsk2, Hls2, foldl_snoc in Hw'.
  set (w3 := foldl (deliver v (sock s) u) w2 (listeners sk)) in *.
  assert (Hfr3 : framed r
            (Some (mkReq false None None
                     match v with part_000 => true | _ => false end
                     [json [("error", JStr qr_unavailable);
                            ("sessionId", JStr id)]]))
            (Some (sock s)) None w3).
  { apply framed_deliver_all; [|done].
    intros g Hg Hreq.
    by destruct (reachable_unused v w r Hreach (le_n _)) as [_ Hnone];
      destruct (Hnone (sock s) sk g Hs Hg). }
  apply truthy_ne in Hne.
  assert (Hresp : is_responded r (ev_off (sock s) (WaitListener r id) w3) = false).
  { unfold is_responded. simpl. by rewrite (fr_req _ _ _ _ _ Hfr3). }
  assert (Hw3 : w' = spawn (AwaitEventQR r id (sock s) u)
                       (set_responded r
                          (ev_off (sock s) (WaitListener r id) w3))).
  { rewrite Hw'. unfold deliver. simpl. unfold handler.
    by rewrite Hqr, Hne, Hresp. }
  exists (length (tasks w3)). split.
  - rewrite Hw3. simpl. apply lookup_new.
  - intros img mk. rewrite Hw3.
    rewrite settle_spawned by done. cbn [resume].
    assert (Hreq : reqs w3 !! r =
              Some (mkReq false None None
                      match v with part_000 => true | _ => false end
                      [json [("error", JStr qr_unavailable);
                             ("sessionId", JStr id)]]))
      by apply (fr_req _ _ _ _ _ Hfr3).
    unfold handler_encoded, handler_open.
    destruct Hv as [-> | ->]; simpl;
      unfold is_responded, replies_of; simpl;
      rewrite !list_lookup_alter_eq, Hreq; simpl;
      rewrite andb_false_r; simpl;
      by rewrite !list_lookup_alter_eq, Hreq.
Qed.

(** C1.  In ban-md.js (and part_000) the timeout callback replies without
    setting [responded].  When the timer fires first and the socket then
    delivers a QR payload or reports ["open"], [handler] still finds
    [responded] false and calls [res.json] again: the request gets two
    replies.  In the other order, and in server.js in both orders, there is
    one. *)
Theorem timeout_then_qr_replies_twice :
  replies_of 0 (run ban_md (waiting_in ban_md) (timeout_then_qr 10000)) =
    [timeout_reply; qr_reply]
  ∧ replies_of 0 (run ban_md (waiting_in ban_md) (timeout_then_open 10000)) =
      [timeout_reply; logged_in_reply]
  ∧ replies_of 0 (run part_000 (waiting_in part_000) (timeout_then_qr 25000)) =
      [timeout_reply; qr_reply]
  ∧ replies_of 0 (run ban_md (waiting_in ban_md) (qr_then_timeout 10000)) =
      [qr_reply]
  ∧ replies_of 0 (run server (waiting_in server) (timeout_then_qr 10000)) =
      [mkReply 504 [("ok", JBool false); ("error", JStr "QR timeout")]]
  ∧ replies_of 0 (run server (waiting_in server) (timeout_then_open 10000)) =
      [mkReply 504 [("ok", JBool false); ("error", JStr "QR timeout")]]
  ∧ replies_of 0 (run server (waiting_in server) (qr_then_timeout 10000)) =
      [json [("ok", JBool true); ("qr", JStr "data:image/png;base64,UTE=")]].
Proof. repeat apply conj; vm_compute; reflexivity. Qed.

(** C8.  In ban-md.js and part_000 a QR request that ends with the timeout
    reply leaves its [handler] on the socket, and the handler is live:
    [responded] is still false.  Three requests on a silent socket leave
    three handlers, and the next QR update starts an encoding, followed by
    [res.json], for each of them.  In server.js the timeout callback sets
    [responded] and removes the handler. *)
Theorem timed_out_handlers_stay_registered :
  let w := run ban_md (idle_in ban_md) (three_polls 10000) in
  let w' := run part_000 (idle_in part_000) (three_polls 25000) in
  let ws := run server (idle_in server) (three_polls 10000) in
  (replies_of 1 w = [timeout_reply]
   ∧ replies_of 2 w = [timeout_reply]
   ∧ replies_of 3 w = [timeout_reply])
  ∧ listeners_of 0 w =
      [mkReg (SessionListener "s1" 0) false;
       mkReg (WaitListener 1 "s1") true;
       mkReg (WaitListener 2 "s1") true;
       mkReg (WaitListener 3 "s1") true]
  ∧ (is_responded 1 w = false ∧ is_responded 2 w = false
     ∧ is_responded 3 w = false)
  ∧ tasks (step ban_md w (Emit 0 (mkUpdate (Some "Q1") None))) =
      tasks w ++
      [Some (AwaitEventQR 1 "s1" 0 (mkUpdate (Some "Q1") None));
       Some (AwaitEventQR 2 "s1" 0 (mkUpdate (Some "Q1") None));
       Some (AwaitEventQR 3 "s1" 0 (mkUpdate (Some "Q1") None))]
  ∧ listeners_of 0 w' = listeners_of 0 w
  ∧ is_responded 1 w' = false
  ∧ listeners_of 0 ws = [mkReg (SessionListener "s1" 0) false]
  ∧ is_responded 1 ws = true.
Proof. intros w w' ws. repeat apply conj; vm_compute; reflexivity. Qed.

(** ** Accounting lemmas *)

Lemma pending_spawn v r t ts :
  pending v r (ts ++ [Some t]) = pending v r ts + owed v r (Some t).
Proof. unfold pending. rewrite sum_list_with_app. simpl. lia. Qed.

Lemma pending_finish v r k t ts :
  ts !! k = Some (Some t) →
  pending v r ts = pending v r (<[k:=None]> ts) + owed v r (Some t).
Proof.
  unfold pending. revert k. induction ts as [|o ts IH]; intros [|k] Hk;
    simplify_eq/=; [lia|].
  rewrite (IH k Hk). lia.
Qed.

Lemma encoding_spawn r t ts :
  encoding r (ts ++ [Some t]) =
  encoding r ts + match t with
                  | AwaitEventQR r' _ _ _ => if bool_decide (r' = r) then 1 else 0
                  | _ => 0
                  end.
Proof. unfold encoding. rewrite sum_list_with_app. simpl. lia. Qed.

Lemma encoding_finish r k ts :
  encoding r (<[k:=None]> ts) ≤ encoding r ts.
Proof.
  unfold encoding. revert k. induction ts as [|o ts IH]; intros [|k]; simpl;
    [lia|lia|lia|].
  specialize (IH k). lia.
Qed.

Lemma encoding_pending v r ts : encoding r ts ≤ pending v r ts.
Proof.
  unfold encoding, pending. induction ts as [|[t|] ts IH]; simpl; [lia| |lia].
  destruct t; simpl; try lia.
  repeat case_bool_decide; simplify_eq/=; destruct v; simpl; lia.
Qed.

Lemma waits_alter (m : list Registration → nat) f h ss s :
  ss !! h = Some s →
  sum_list_with (λ s, m (listeners s)) (alter f h ss) + m (listeners s) =
  sum_list_with (λ s, m (listeners s)) ss + m (listeners (f s)).
Proof.
  revert h. induction ss as [|s0 ss IH]; intros [|h] Hh; simplify_eq/=; [lia|].
  specialize (IH h Hh). lia.
Qed.

Lemma alter_absent {A} (f : A → A) h (l : list A) :
  l !! h = None → alter f h l = l.
Proof.
  revert h. induction l as [|x l IH]; intros [|h] Hh; try done.
  simpl in *. f_equal. by apply IH.
Qed.

Lemma waits_new (m : list Registration → nat) ss s :
  sum_list_with (λ s, m (listeners s)) (ss ++ [s]) =
  sum_list_with (λ s, m (listeners s)) ss + m (listeners s).
Proof. rewrite sum_list_with_app. simpl. lia. Qed.

Lemma waits_lookup (m : list Registration → nat) ss h s :
  ss !! h = Some s → m (listeners s) ≤ sum_list_with (λ s, m (listeners s)) ss.
Proof.
  revert h. induction ss as [|s0 ss IH]; intros [|h] Hh; simplify_eq/=; [lia|].
  specialize (IH h Hh). lia.
Qed.

Lemma handlers_app r gs g :
  handlers r (gs ++ [g]) =
  handlers r gs + (if bool_decide (waiter (fn g) = Some r) then 1 else 0).
Proof.
  unfold handlers. rewrite filter_app, length_app, filter_cons, filter_nil.
  case_bool_decide; case_decide; simpl; try done; lia.
Qed.

Lemma lasting_app r gs g :
  lasting r (gs ++ [g]) =
  lasting r gs +
  (if bool_decide (waiter (fn g) = Some r) then if once g then 0 else 1 else 0).
Proof.
  unfold lasting. rewrite filter_app, length_app, filter_cons, filter_nil.
  case_decide as Hd.
  - destruct Hd as [Hw Ho]. by rewrite bool_decide_true, Ho.
  - case_bool_decide as Hw; [|done].
    destruct (once g) eqn:Ho; [done|]. by destruct Hd.
Qed.

Lemma handlers_remove_last r f gs :
  handlers r (remove_last f gs) ≤ handlers r gs.
Proof.
  unfold handlers. induction gs as [|g gs IH]; simpl; [done|].
  repeat case_bool_decide; rewrite ?filter_cons; repeat case_decide; simpl; lia.
Qed.

Lemma lasting_remove_last r f gs :
  lasting r (remove_last f gs) ≤ lasting r gs.
Proof.
  unfold lasting. induction gs as [|g gs IH]; simpl; [done|].
  repeat case_bool_decide; rewrite ?filter_cons; repeat case_decide; simpl; lia.
Qed.

Lemma waits_alter_bound r f h ss d :
  (∀ s, handlers r (listeners (f s)) ≤ handlers r (listeners s) + d) →
  waits r (alter f h ss) ≤ waits r ss + d.
Proof.
  intros Hf. unfold waits. destruct (ss !! h) as [s|] eqn:Hs.
  - pose proof (waits_alter (handlers r) f h ss s Hs). specialize (Hf s). lia.
  - rewrite alter_absent by done. lia.
Qed.

Lemma waits_lasting_alter_bound r f h ss d :
  (∀ s, lasting r (listeners (f s)) ≤ lasting r (listeners s) + d) →
  waits_lasting r (alter f h ss) ≤ waits_lasting r ss + d.
Proof.
  intros Hf. unfold waits_lasting. destruct (ss !! h) as [s|] eqn:Hs.
  - pose proof (waits_alter (lasting r) f h ss s Hs). specialize (Hf s). lia.
  - rewrite alter_absent by done. lia.
Qed.

Lemma waits_new_sock r ss u c p : waits r (ss ++ [mkSock u [] c p]) = waits r ss.
Proof. unfold waits. rewrite waits_new. simpl. unfold handlers. simpl. lia. Qed.

Lemma waits_lasting_new_sock r ss u c p :
  waits_lasting r (ss ++ [mkSock u [] c p]) = waits_lasting r ss.
Proof.
  unfold waits_lasting. rewrite waits_new. simpl. unfold lasting. simpl. lia.
Qed.

Ltac prims :=
  unfold res_json, set_responded, setTimeout, timer_done, on_finish_clear,
    set_qrData, is_responded in *.

(** Looking at request [r] after effects on request [r']. *)
Ltac observe r' r :=
  destruct (decide (r' = r)) as [->|?]; simpl;
  [rewrite ?list_lookup_alter_eq|rewrite ?list_lookup_alter_ne by done].

Ltac side :=
  intros; simpl;
  rewrite ?handlers_app, ?lasting_app; simpl;
  repeat (case_bool_decide; simplify_eq/=);
  try match goal with
      | |- handlers _ (remove_last _ _) ≤ _ =>
          etrans; [apply handlers_remove_last|]
      | |- lasting _ (remove_last _ _) ≤ _ =>
          etrans; [apply lasting_remove_last|]
      end;
  repeat case_match; lia.

(** Replace what the sockets and tasks hold for the observed request by
    bounds in terms of what they held before. *)
Ltac bound_waits r f h ss :=
  let H := fresh "Hw" in
  first
    [ assert (H : waits r (alter f h ss) ≤ waits r ss + 0)
        by (apply waits_alter_bound; side)
    | assert (H : waits r (alter f h ss) ≤ waits r ss + 1)
        by (apply waits_alter_bound; side) ];
  generalize dependent (waits r (alter f h ss)); intros.

Ltac bound_lasting r f h ss :=
  let H := fresh "Hw" in
  first
    [ assert (H : waits_lasting r (alter f h ss) ≤ waits_lasting r ss + 0)
        by (apply waits_lasting_alter_bound; side)
    | assert (H : waits_lasting r (alter f h ss) ≤ waits_lasting r ss + 1)
        by (apply waits_lasting_alter_bound; side) ];
  generalize dependent (waits_lasting r (alter f h ss)); intros.

Ltac bounds :=
  repeat first
    [ progress rewrite ?pending_spawn, ?encoding_spawn, ?waits_new_sock,
        ?waits_lasting_new_sock in *
    | match goal with
      | |- context [waits ?r (alter ?f ?h ?ss)] => bound_waits r f h ss
      | _ : context [waits ?r (alter ?f ?h ?ss)] |- _ => bound_waits r f h ss
      | |- context [waits_lasting ?r (alter ?f ?h ?ss)] =>
          bound_lasting r f h ss
      | _ : context [waits_lasting ?r (alter ?f ?h ?ss)] |- _ =>
          bound_lasting r f h ss
      | |- context [encoding ?r (<[?k:=None]> ?ts)] =>
          let H := fresh "He" in
          pose proof (encoding_finish r k ts) as H;
          generalize dependent (encoding r (<[k:=None]> ts)); intros
      | Hk : ?ts !! ?k = Some (Some ?t)
        |- context [pending ?v ?r (<[?k:=None]> ?ts)] =>
          let H := fresh "Hp" in
          pose proof (pending_finish v r k t ts Hk) as H;
          generalize dependent (pending v r (<[k:=None]> ts)); intros
      end ].

Ltac crunch :=
  unfold potential, answered, latched, armed, reply_bound, owed, weight,
    long_poll in *;
  simpl in *;
  repeat (case_bool_decide; simplify_eq/=);
  rewrite ?length_app in *; simpl in *;
  intros; simplify_eq/=;
  repeat case_match; simplify_eq/=;
  try done; try lia; try (intuition (done || lia || congruence)).

(** Split the invariant at the observed request and prove it again. *)
Ltac regood Hs :=
  let Gf := fresh "Gf" in let Gb := fresh "Gb" in let Gl := fresh "Gl" in
  let Go := fresh "Go" in let Ga := fresh "Ga" in let Gp := fresh "Gp" in
  let Gc := fresh "Gc" in
  unfold good_at in *; simpl in *; bounds;
  destruct Hs as [Gf Gb Gl Go Ga Gp Gc]; constructor; crunch.

Lemma good_mono v b b' q p p' e e' l l' n n' :
  good v b q p e l n →
  b ≤ b' → p' ≤ p → e' ≤ e → l' ≤ l → n' ≤ n →
  good v b' q p' e' l' n'.
Proof. intros [Gf Gb Gl Go Ga Gp Gc]; constructor; crunch. Qed.

Lemma sound_fire v w r' : sound v w → sound v (fire v w r').
Proof.
  intros Hs r. specialize (Hs r). unfold fire.
  destruct (reqs w !! r') as [[D qd tm cf rs]|] eqn:Hq'; [|done]. simpl.
  destruct tm as [t|]; [|done].
  case_bool_decide; [|done].
  unfold timeout_cb, good_at in *.
  destruct v; prims; simpl; rewrite ?list_lookup_alter_eq, ?Hq'; simpl.
  all: repeat case_match; simpl; observe r' r;
      rewrite ?Hq' in *; simpl in *; try done;
      try destruct (reqs w !! r) as [[]|]; regood Hs.
Qed.

(** The observed request [r] against the request [r'] a transition is
    about: [Hs] is what is known of [r] before. *)
Ltac facing r' r Hs :=
  let Hq := fresh "Hq" in
  destruct (decide (r' = r)) as [->|?];
  [|destruct (reqs _ !! r) as [[]|] eqn:Hq];
  simpl;
  [rewrite ?list_lookup_alter_eq|
   rewrite ?list_lookup_alter_ne by done|
   rewrite ?list_lookup_alter_ne by done];
  rewrite ?Hq; simpl.

Lemma good_return_to v k id s w r :
  (if decide (caller_req k = r)
   then good_at v 0 r w ∧ is_Some (reqs w !! r)
   else good_at v (reply_bound v) r w) →
  good_at v (reply_bound v) r (return_to v k id s w).
Proof.
  intros Hs.
  destruct k as [r'|r' sessionId phone]; simpl in Hs; simpl;
    (case_decide; [subst r'; destruct Hs as [Hs [[] Hq]]|]);
    unfold qr_route_k, pair_route_k, ev_on, good_at in *;
    destruct v; repeat case_match; prims; simpl;
    rewrite ?list_lookup_alter_eq, ?list_lookup_alter_ne by done;
    rewrite ?Hq in *; simpl; regood Hs.
Qed.

Lemma good_throw_to v k w r :
  (if decide (caller_req k = r)
   then good_at v 0 r w ∧ is_Some (reqs w !! r)
   else good_at v (reply_bound v) r w) →
  good_at v (reply_bound v) r (throw_to v k w).
Proof.
  intros Hs.
  destruct k as [r'|r' sessionId phone]; simpl in Hs; simpl;
    (case_decide; [subst r'; destruct Hs as [Hs [[] Hq]]|]);
    unfold throw_to, good_at in *;
    destruct v; prims; simpl;
    rewrite ?list_lookup_alter_eq, ?list_lookup_alter_ne by done;
    rewrite ?Hq in *; simpl; regood Hs.
Qed.

Lemma good_construct v k id m w r :
  (if decide (caller_req k = r)
   then good_at v 0 r w ∧ is_Some (reqs w !! r)
   else good_at v (reply_bound v) r w) →
  good_at v (reply_bound v) r (construct v k id m w).
Proof.
  intros Hs. unfold construct.
  destruct v; cbv zeta; apply good_return_to;
    (case_decide; [destruct Hs as [Hs Hq]; split; [|done]|]);
    unfold good_at, ev_on, on_creds in *; simpl; bounds;
    (eapply good_mono; [apply Hs|simpl; lia..]).
Qed.

Lemma encoding_lookup ts k r id h u :
  ts !! k = Some (Some (AwaitEventQR r id h u)) → 0 < encoding r ts.
Proof.
  unfold encoding. revert k. induction ts as [|o ts IH]; intros [|k] Hk;
    simplify_eq/=.
  - rewrite bool_decide_true by done. lia.
  - specialize (IH k Hk). lia.
Qed.

Lemma pending_lookup v ts k t r :
  ts !! k = Some (Some t) → task_req t = Some r → 0 < pending v r ts.
Proof.
  unfold pending. revert k. induction ts as [|o ts IH]; intros [|k] Hk Ht;
    simplify_eq/=.
  - rewrite bool_decide_true by done. destruct v, t; simpl; lia.
  - specialize (IH k Hk Ht). lia.
Qed.

(** A request a suspended task will answer exists. *)
Lemma good_owner v b w k t r :
  good_at v b r w → tasks w !! k = Some (Some t) → task_req t = Some r →
  is_Some (reqs w !! r).
Proof.
  intros [Gf _ _ _ _ _ _] Hk Ht.
  pose proof (pending_lookup v _ _ _ _ Hk Ht).
  destruct (reqs w !! r); [done|]. destruct Gf; [done|lia].
Qed.

(** A request with a suspended handler has its latch set. *)
Lemma good_encoding v b w k r id h u :
  good_at v b r w → tasks w !! k = Some (Some (AwaitEventQR r id h u)) →
  is_responded r w = true.
Proof.
  intros [_ _ Gl _ _ _ _] Hk.
  pose proof (encoding_lookup _ _ _ _ _ _ Hk).
  unfold is_responded, latched in *.
  destruct (from_option responded false (reqs w !! r)); [done|].
  specialize (Gl eq_refl). lia.
Qed.

Lemma good_finished v w k t r :
  good_at v (reply_bound v) r w →
  tasks w !! k = Some (Some t) →
  creating t = Some (QrRoute r) ∨ (∃ s p, creating t = Some (PairRoute r s p)) →
  good_at v 0 r (finish_task k w) ∧ is_Some (reqs (finish_task k w) !! r).
Proof.
  intros Hr Hk Ht. split.
  - unfold good_at in *; simpl.
    destruct t; destruct Ht as [Ht|(?&?&Ht)]; simplify_eq/=;
      destruct v; regood Hr.
  - simpl. eapply good_owner; [done..|].
    destruct t; destruct Ht as [Ht|(?&?&Ht)]; by simplify_eq/=.
Qed.

Lemma good_unfinished v w k t r :
  good_at v (reply_bound v) r w →
  tasks w !! k = Some (Some t) →
  task_req t ≠ Some r →
  good_at v (reply_bound v) r (finish_task k w).
Proof.
  intros Hr Hk Ht. unfold good_at in *; simpl.
  destruct t; simplify_eq/=; destruct v; regood Hr.
Qed.

Lemma sound_settle v k o mk w : sound v w → sound v (settle v k o mk w).
Proof.
  intros Hs. unfold settle.
  destruct (tasks w !! k) as [[t|]|] eqn:Hk; try done.
  intros r. pose proof (Hs r) as Hr.
  destruct t as [c id|c id|r' id p|r' id h u|r' sid id|l]; simpl.
  - unfold auth_settled. destruct o.
    + unfold good_at in *; simpl. destruct c, v; regood Hr.
    + apply good_throw_to. case_decide.
      * eapply good_finished; [done..|]. destruct c; naive_solver.
      * eapply good_unfinished; [done..|]. simpl. congruence.
  - assert (Hc :
      if decide (caller_req c = r)
      then good_at v 0 r (finish_task k w)
           ∧ is_Some (reqs (finish_task k w) !! r)
      else good_at v (reply_bound v) r (finish_task k w)).
    { case_decide.
      - eapply good_finished; [done..|]. destruct c; naive_solver.
      - eapply good_unfinished; [done..|]. simpl. congruence. }
    assert (Hc' :
      if decide (caller_req c = r)
      then good_at v 0 r (call MakeWASocket (finish_task k w))
           ∧ is_Some (reqs (call MakeWASocket (finish_task k w)) !! r)
      else good_at v (reply_bound v) r (call MakeWASocket (finish_task k w)))
      by done.
    unfold version_settled. destruct o; [destruct mk|].
    + by apply good_construct.
    + by apply good_throw_to.
    + by apply good_throw_to.
  - unfold cached_encoded, good_at in *. destruct o; prims; simpl.
    + destruct (decide (r' = r)) as [->|?];
        rewrite ?list_lookup_alter_eq, ?list_lookup_alter_ne by done;
        destruct (reqs w !! r) as [[]|] eqn:Hq; destruct v; regood Hr.
    + destruct (decide (r' = r)) as [->|?];
        destruct (reqs w !! r) as [[]|] eqn:Hq; destruct v; regood Hr.
  - pose proof (good_encoding _ _ _ _ _ _ _ _ (Hs r') Hk) as HD.
    unfold is_responded in HD.
    destruct (reqs w !! r') as [[D qd tm cf rs]|] eqn:Hq'; simplify_eq/=.
    unfold handler_encoded, handler_open, good_at, ev_off in *.
    destruct v, o; prims; simpl;
      rewrite ?list_lookup_alter_eq, ?Hq'; simpl;
      rewrite ?andb_false_r; simpl;
      (destruct (decide (r' = r)) as [->|?];
       [rewrite ?list_lookup_alter_eq, ?Hq' in *
       |rewrite ?list_lookup_alter_ne by done;
        destruct (reqs w !! r) as [[]|] eqn:Hq]);
      regood Hr.
  - unfold pair_settled, good_at in *.
    destruct v, o; prims; simpl;
      (destruct (decide (r' = r)) as [->|?];
       rewrite ?list_lookup_alter_eq, ?list_lookup_alter_ne by done;
       destruct (reqs w !! r) as [[]|] eqn:Hq);
      regood Hr.
  - unfold send_settled, good_at in *. simpl. destruct v; regood Hr.
Qed.

(** A request that has just arrived. *)
Lemma good_new_req v w r :
  sound v w →
  if decide (length (reqs w) = r)
  then good_at v 0 r (new_req w) ∧ is_Some (reqs (new_req w) !! r)
  else good_at v (reply_bound v) r (new_req w).
Proof.
  intros Hs. pose proof (Hs r) as Hr. unfold good_at in *. case_decide.
  - subst r. simpl. rewrite lookup_new.
    rewrite (lookup_ge_None_2 (reqs w)) in Hr by done.
    split; [|done]. destruct v; regood Hr.
  - simpl. destruct (decide (r < length (reqs w))).
    + by rewrite lookup_app_l.
    + rewrite lookup_ge_None_2 by (rewrite length_app; simpl; lia).
      by rewrite lookup_ge_None_2 in Hr by lia.
Qed.

Lemma good_createSession v sessionId rnd k w r :
  (if decide (caller_req k = r)
   then good_at v 0 r w ∧ is_Some (reqs w !! r)
   else good_at v (reply_bound v) r w) →
  good_at v (reply_bound v) r (createSession v sessionId rnd k w).
Proof.
  intros Hs. unfold createSession. cbv zeta.
  destruct (find_session v (session_id v sessionId rnd) w).
  - by apply good_return_to.
  - by apply good_throw_to.
  - unfold good_at in *. simpl.
    case_decide; [destruct Hs as [Hs [[] Hq]]; rewrite ?Hq in *|];
      destruct k, v; regood Hs.
Qed.

Lemma sound_qr_route v param rnd w : sound v w → sound v (qr_route v param rnd w).
Proof.
  intros Hs r. pose proof (good_new_req v w r Hs).
  unfold qr_route. destruct v; cbv zeta; by apply good_createSession.
Qed.

(** A route that answers the request it has just received, if at all. *)
Lemma sound_answer v w rep :
  sound v w → sound v (res_json (length (reqs w)) rep (new_req w)).
Proof.
  intros Hs r. pose proof (good_new_req v w r Hs) as Hr.
  unfold good_at in *; prims; simpl in *.
  case_decide; [subst r; destruct Hr as [Hr _]|];
    rewrite ?list_lookup_alter_eq, ?list_lookup_alter_ne by done;
    [rewrite lookup_new in *; simpl|]; destruct v; regood Hr.
Qed.

Lemma sound_new_req v w : sound v w → sound v (new_req w).
Proof.
  intros Hs r. pose proof (good_new_req v w r Hs) as Hr.
  case_decide; [|done]. destruct Hr as [Hr _].
  unfold good_at in *. eapply good_mono; [done|lia..].
Qed.

Lemma sound_pair_route v sessionId phone rnd w :
  sound v w → sound v (pair_route v sessionId phone rnd w).
Proof.
  intros Hs. unfold pair_route.
  destruct v; cbv zeta; repeat case_match; try by apply sound_answer.
  all: intros r; pose proof (good_new_req _ w r Hs);
    by apply good_createSession.
Qed.

Lemma sound_me_route v sessionId w : sound v w → sound v (me_route v sessionId w).
Proof.
  intros Hs. unfold me_route.
  destruct v; cbv zeta; repeat case_match; try done; by apply sound_answer.
Qed.

Lemma sound_status_route v param readyState w :
  sound v w → sound v (status_route v param readyState w).
Proof.
  intros Hs. unfold status_route.
  destruct v; cbv zeta; repeat case_match; try done;
    first [by apply sound_answer|by apply sound_new_req].
Qed.

Lemma sound_health_route v w : sound v w → sound v (health_route v w).
Proof.
  intros Hs. unfold health_route. destruct v; try done; by apply sound_answer.
Qed.

Lemma sound_set_user v h who w : sound v w → sound v (set_user h who w).
Proof.
  intros Hs r. pose proof (Hs r) as Hr.
  unfold good_at, set_user in *. simpl. bounds.
  eapply good_mono; [done|lia..].
Qed.

Lemma sound_fires v rs : ∀ w, sound v w → sound v (foldl (fire v) w rs).
Proof.
  induction rs as [|r' rs IH]; intros w Hw; simpl; [done|].
  apply IH. by apply sound_fire.
Qed.

Lemma sound_advance v t w : sound v w → sound v (advance v t w).
Proof.
  intros Hs. unfold advance. cbv zeta.
  apply sound_fires. intros r. exact (Hs r).
Qed.

(** ** Emitting an update *)

Lemma registered_elem f gs : f ∈ fn <$> gs ↔ 0 < registered f gs.
Proof.
  unfold registered. induction gs as [|g gs IH]; simpl.
  - split; [by intros ?%elem_of_nil|lia].
  - rewrite filter_cons, elem_of_cons. case_decide; simpl.
    + split; [lia|by left].
    + rewrite IH. split; [by intros [?|?]|by right].
Qed.

Lemma registered_remove_last f gs :
  0 < registered f gs →
  registered f (remove_last f gs) + 1 = registered f gs.
Proof.
  induction gs as [|g gs IH]; simpl; [unfold registered; simpl; lia|].
  intros Hf. case_bool_decide as Hin.
  - apply registered_elem in Hin. specialize (IH Hin).
    unfold registered in *. rewrite !filter_cons. case_decide; simpl; lia.
  - rewrite registered_elem in Hin.
    unfold registered in *. rewrite filter_cons in *.
    case_bool_decide; case_decide; simpl in *; try done; lia.
Qed.

Lemma registered_remove_other f f' gs :
  f' ≠ f → registered f' (remove_last f gs) = registered f' gs.
Proof.
  intros Hne. unfold registered.
  induction gs as [|g gs IH]; simpl; [done|].
  repeat case_bool_decide; rewrite ?filter_cons; repeat case_decide;
    simplify_eq/=; try done; lia.
Qed.

Lemma handlers_remove_one r id gs :
  0 < registered (WaitListener r id) gs →
  handlers r (remove_last (WaitListener r id) gs) + 1 = handlers r gs.
Proof.
  induction gs as [|g gs IH]; simpl; [unfold registered; simpl; lia|].
  intros Hf. case_bool_decide as Hin.
  - apply registered_elem in Hin. specialize (IH Hin).
    unfold handlers in *. rewrite !filter_cons. case_decide; simpl; lia.
  - rewrite registered_elem in Hin.
    unfold registered, handlers in *. rewrite !filter_cons in *.
    case_bool_decide as Hg; repeat case_decide; simpl in *; try lia.
    all: try done; try (rewrite Hg in *; done).
Qed.

Lemma handlers_registered r gs g :
  g ∈ gs → waiter (fn g) = Some r → 0 < handlers r gs.
Proof.
  intros Hg Hr. unfold handlers.
  assert (g ∈ filter (λ g, waiter (fn g) = Some r) gs) as Hin
    by by apply list_elem_of_filter.
  destruct (filter _ gs); [by apply elem_of_nil in Hin|simpl; lia].
Qed.

Lemma lasting_registered r gs g :
  g ∈ gs → waiter (fn g) = Some r → once g = false → 0 < lasting r gs.
Proof.
  intros Hg Hr Ho. unfold lasting.
  assert (g ∈ filter (λ g, waiter (fn g) = Some r ∧ once g = false) gs) as Hin
    by by apply list_elem_of_filter.
  destruct (filter _ gs); [by apply elem_of_nil in Hin|simpl; lia].
Qed.

Lemma snapshot_start v h s w :
  sound v w → socks w !! h = Some s → snapshot v h (listeners s) w.
Proof.
  intros Hs Hh. destruct v; simpl.
  1,2: split;
    [intros g Hg [r Hr]; destruct (Hs r) as [_ _ _ Go _ _ _];
     pose proof (waits_lookup (lasting r) _ _ _ Hh);
     destruct (once g) eqn:Ho; [done|];
     pose proof (lasting_registered _ _ _ Hg Hr Ho);
     unfold waits_lasting, long_poll in *;
     (rewrite Go in * by auto); lia
    |intros f _; unfold listeners_of; by rewrite Hh].
  - intros g r Hg Hr. destruct (Hs r) as [_ _ _ _ Ga _ _].
    pose proof (waits_lookup (handlers r) _ _ _ Hh).
    pose proof (handlers_registered _ _ _ Hg Hr).
    unfold waits in *.
    destruct (latched (reqs w !! r)); [by left|right].
    apply Ga; [done..|lia].
  - intros g Hg. destruct (waiter (fn g)) as [r|] eqn:Hr; [|done].
    destruct (Hs r) as [_ _ _ _ _ Gp _].
    pose proof (waits_lookup (handlers r) _ _ _ Hh).
    pose proof (handlers_registered _ _ _ Hg Hr).
    unfold waits in *. rewrite Gp in * by done. lia.
Qed.

Lemma listeners_of_ev_off h f w :
  listeners_of h (ev_off h f w) = remove_last f (listeners_of h w).
Proof.
  unfold listeners_of, ev_off. simpl. rewrite list_lookup_alter_eq.
  by destruct (socks w !! h).
Qed.

Lemma registered_cons f g gs :
  registered f (g :: gs) =
  (if bool_decide (fn g = f) then 1 else 0) + registered f gs.
Proof.
  unfold registered. rewrite filter_cons.
  case_bool_decide; case_decide; simpl; done.
Qed.

Lemma sound_ev_off v h f w : sound v w → sound v (ev_off h f w).
Proof.
  intros Hs r. pose proof (Hs r) as Hr.
  unfold good_at, ev_off in *. simpl. bounds.
  eapply good_mono; [done|lia..].
Qed.

Lemma waits_ev_off_one r id h w :
  0 < registered (WaitListener r id) (listeners_of h w) →
  waits r (socks (ev_off h (WaitListener r id) w)) + 1 = waits r (socks w).
Proof.
  unfold listeners_of, ev_off. simpl. intros Hreg.
  destruct (socks w !! h) as [s|] eqn:Hh; simpl in Hreg;
    [|unfold registered in Hreg; simpl in Hreg; lia].
  pose proof (waits_alter (handlers r)
    (λ s, mkSock (user s) (remove_last (WaitListener r id) (listeners s))
                 (creds_listeners s) (pairing s)) h _ _ Hh) as Ha.
  simpl in Ha. pose proof (handlers_remove_one r id _ Hreg).
  unfold waits. lia.
Qed.

Lemma snapshot_pop v h g gs w :
  sound v w → snapshot v h (g :: gs) w →
  let w1 := if once g then ev_off h (fn g) w else w in
  sound v w1 ∧ snapshot v h gs w1 ∧ called v (fn g) w1.
Proof.
  intros Hs Hsnap w1.
  assert (Hs1 : sound v w1).
  { subst w1. destruct (once g); [by apply sound_ev_off|done]. }
  split; [done|]. destruct v; simpl in *.
  1,2: destruct Hsnap as [Ha Hb]; split_and!.
  1,4: intros g' Hg'; apply Ha; by right.
  1,3: intros f Hf; specialize (Hb f Hf); rewrite registered_cons in Hb;
    subst w1; destruct (once g) eqn:Ho;
    [rewrite listeners_of_ev_off;
     destruct (decide (fn g = f)) as [<-|Hne];
     [rewrite bool_decide_true in Hb by done;
      assert (0 < registered (fn g) (listeners_of h w)) as Hreg by lia;
      pose proof (registered_remove_last _ _ Hreg); lia
     |rewrite registered_remove_other by done; lia]
    |case_bool_decide as Hg; [|lia];
     subst f; rewrite Ha in Ho by (done || by left); done].
  1,2: destruct (fn g) as [| r id |] eqn:Hf; simpl; try done;
    assert (once g = true) as Ho by (apply Ha; [by left|by rewrite Hf]);
    pose proof (Hb (WaitListener r id) (mk_is_Some _ _ eq_refl)) as Hr;
    rewrite registered_cons, bool_decide_true in Hr by done;
    subst w1; rewrite Ho in *;
    (assert (0 < registered (WaitListener r id) (listeners_of h w)) as Hreg
       by lia);
    pose proof (waits_ev_off_one r id h w Hreg) as Hone;
    pose proof (Hs1 r) as Hr1; pose proof (Hs r) as Hr0;
    unfold good_at in *; simpl in *;
    replace (S (waits r (alter _ h (socks w)))) with (waits r (socks w))
      by lia;
    (eapply good_mono; [exact Hr0|simpl; try lia..]);
    (destruct Hr1 as [_ _ _ Go _ _ _], Hr0 as [_ _ _ Go' _ _ _];
     unfold long_poll in *; rewrite Go, Go' by auto; done).
  - split.
    + intros g' r Hg' Hr. subst w1.
      destruct (once g); simpl; apply (Hsnap g' r); by (right || done).
    + destruct (fn g) as [| r id |] eqn:Hf; simpl; try done.
      subst w1. destruct (once g); simpl;
        apply (Hsnap g r); by (left || rewrite Hf).
  - split.
    + intros g' Hg'. apply Hsnap. by right.
    + pose proof (Hsnap g (list_elem_of_here _ _)) as Hn.
      destruct (fn g); simpl in *; done.
Qed.

Lemma session_update_frame v id l h u w :
  reqs (session_update v id l h u w) = reqs w
  ∧ socks (session_update v id l h u w) = socks w.
Proof. unfold session_update. destruct v; repeat case_match; done. Qed.

Lemma sound_session_update v id l h u w :
  sound v w → sound v (session_update v id l h u w).
Proof.
  intros Hs r. pose proof (Hs r) as Hr.
  unfold session_update, good_at in *.
  destruct v; repeat case_match; simpl; try done; regood Hr.
Qed.

Lemma snapshot_keep v h gs w w' :
  (long_poll v → listeners_of h w' = listeners_of h w) →
  (v = server → ∀ r,
     latched (reqs w !! r) = true ∨ armed (reqs w !! r) = 1 →
     latched (reqs w' !! r) = true ∨ armed (reqs w' !! r) = 1) →
  snapshot v h gs w → snapshot v h gs w'.
Proof.
  intros Hl Hr Hsnap. unfold long_poll in *. destruct v; simpl in *; try done.
  1,2: rewrite Hl by auto; done.
  intros g r Hg Hw. apply Hr; [done|]. by eapply Hsnap.
Qed.

Lemma handler_socks v r id h u w :
  long_poll v → socks (handler v r id h u w) = socks w.
Proof.
  intros [-> | ->]; unfold handler, handler_open;
    repeat case_match; done.
Qed.

Lemma sound_handler v r id h u w :
  sound v w → called v (WaitListener r id) w → sound v (handler v r id h u w).
Proof.
  intros Hs Hc r0. pose proof (Hs r0) as Hr. simpl in Hc.
  unfold handler, handler_open, good_at, ev_off in *.
  destruct v; try done.
  all: destruct (decide (r = r0)) as [->|?];
    [destruct (reqs w !! r0) as [[D qd tm cf rs]|] eqn:Hq
    |destruct (reqs w !! r0) as [[]|] eqn:Hq];
    prims; rewrite ?Hq; simpl; repeat case_match; simpl;
    rewrite ?list_lookup_alter_eq, ?list_lookup_alter_ne by done;
    rewrite ?Hq; simpl.
  all: try (regood Hr; fail).
  all: try (regood Hc; fail).
Qed.

(** In server.js a handler leaves every request latched or with its timer
    armed that was so before. *)
Lemma handler_keeps r id h u w r0 :
  sound server w →
  latched (reqs w !! r0) = true ∨ armed (reqs w !! r0) = 1 →
  latched (reqs (handler server r id h u w) !! r0) = true
  ∨ armed (reqs (handler server r id h u w) !! r0) = 1.
Proof.
  intros Hs Hc. pose proof (Hs r0) as [_ _ _ _ _ _ Gc].
  specialize (Gc ltac:(done)).
  unfold handler, handler_open, ev_off in *.
  destruct (decide (r = r0)) as [->|?];
    destruct (reqs w !! r0) as [[D qd tm cf rs]|] eqn:Hq;
    prims; rewrite ?Hq; simpl; repeat case_match; simpl;
    rewrite ?list_lookup_alter_eq, ?list_lookup_alter_ne by done;
    rewrite ?Hq; simpl in *; subst; auto.
Qed.

Lemma callback_step v h f u w gs :
  sound v w → snapshot v h gs w → called v f w →
  sound v (callback v h f u w) ∧ snapshot v h gs (callback v h f u w).
Proof.
  intros Hs Hsnap Hc. destruct f as [id l|r id|r]; simpl.
  - split; [by apply sound_session_update|].
    destruct (session_update_frame v id l h u w) as [Hr Hk].
    eapply snapshot_keep; [| |done].
    + intros _. unfold listeners_of. by rewrite Hk.
    + intros _ r0. by rewrite Hr.
  - split; [by apply sound_handler|].
    eapply snapshot_keep; [| |done].
    + intros Hv. unfold listeners_of. by rewrite handler_socks.
    + intros -> r0. by apply handler_keeps.
  - case_match; [|done]. split.
    + intros r0. pose proof (Hs r0) as Hr. unfold good_at in *. prims. simpl.
      destruct (decide (r = r0)) as [->|?];
        rewrite ?list_lookup_alter_eq, ?list_lookup_alter_ne by done;
        destruct (reqs w !! r0) as [[]|] eqn:Hq; destruct v; regood Hr.
    + eapply snapshot_keep; [| |done]; [done|].
      intros _ r0. prims. simpl.
      destruct (decide (r = r0)) as [->|?];
        rewrite ?list_lookup_alter_eq, ?list_lookup_alter_ne by done;
        destruct (reqs w !! r0) as [[]|] eqn:Hq; simpl; done.
Qed.

Lemma sound_delivered v h u gs : ∀ w,
  sound v w → snapshot v h gs w → sound v (foldl (deliver v h u) w gs).
Proof.
  induction gs as [|g gs IH]; intros w Hs Hsnap; simpl; [done|].
  destruct (snapshot_pop v h g gs w Hs Hsnap) as (Hs1 & Hsnap1 & Hc).
  destruct (callback_step v h (fn g) u _ gs Hs1 Hsnap1 Hc) as [Hs2 Hsnap2].
  by apply IH.
Qed.

Lemma sound_emit v h u w : sound v w → sound v (emit v h u w).
Proof.
  intros Hs. unfold emit. destruct (socks w !! h) as [s|] eqn:Hh; [|done].
  apply sound_delivered; [done|]. by apply snapshot_start.
Qed.

Lemma sound_step v w e : sound v w → sound v (step v w e).
Proof.
  intros Hs. destruct e; simpl.
  - by apply sound_qr_route.
  - by apply sound_pair_route.
  - by apply sound_settle.
  - by apply sound_emit.
  - by apply sound_set_user.
  - by apply sound_advance.
Qed.

Lemma sound_serve v w i : sound v w → sound v (serve v w i).
Proof.
  intros Hs. destruct i; simpl.
  - by apply sound_step.
  - by apply sound_me_route.
  - by apply sound_status_route.
  - by apply sound_health_route.
Qed.

Lemma sound_empty v : sound v empty_world.
Proof. intros r. unfold good_at. simpl. destruct v; constructor; crunch. Qed.

Lemma sound_serve_all v inputs : ∀ w,
  sound v w → sound v (serve_all v w inputs).
Proof.
  induction inputs as [|i inputs IH]; intros w Hs; simpl; [done|].
  apply IH. by apply sound_serve.
Qed.

Lemma answered_bound v inputs r :
  length (replies_of r (serve_all v empty_world inputs)) ≤ reply_bound v.
Proof.
  destruct (sound_serve_all v inputs _ (sound_empty v) r) as [_ Gb _ _ _ _ _].
  unfold potential, answered, replies_of in *. lia.
Qed.

(** ** What a transition does to the registry *)

Lemma sessions_handler_encoded v r id h u o w :
  sessions (handler_encoded v r id h u o w) = sessions w.
Proof.
  unfold handler_encoded.
  destruct v, o; try done;
    match goal with
    | |- context [handler_open ?v ?r ?i ?h ?u ?w] =>
        by destruct (handler_open_registry v r i h u w) as (-> & _)
    end.
Qed.

Lemma sessions_createSession v sessionId rnd k w :
  sessions (createSession v sessionId rnd k w) = sessions w.
Proof.
  unfold createSession. cbv zeta. case_match.
  - apply return_to_registry.
  - by destruct v, k.
  - done.
Qed.

Lemma sessions_construct v k id m w :
  sessions (construct v k id m w) = <[id := new_ref v w]> (sessions w).
Proof.
  unfold construct.
  destruct v; cbv zeta;
    match goal with
    | |- context [return_to ?v ?k ?id ?s ?w] =>
        by destruct (return_to_registry v k id s w) as (-> & _)
    end.
Qed.

Lemma sessions_settle v k o mk w :
  sessions (settle v k o mk w) = sessions w
  ∨ ∃ c id m,
      tasks w !! k = Some (Some (AwaitVersion c id)) ∧ mk = Some m
      ∧ sessions (settle v k o mk w) = <[id := new_ref v w]> (sessions w).
Proof.
  unfold settle. destruct (tasks w !! k) as [[t|]|] eqn:Hk; [|by left..].
  destruct t as [c id|c id|r' id p|r' id h u|r' sid id|l]; simpl.
  - left. unfold auth_settled. destruct o; [done|by destruct v, c].
  - unfold version_settled. destruct o as [x|x]; [destruct mk as [m|]|].
    + right. exists c, id, m. by rewrite sessions_construct.
    + left. by destruct v, c.
    + left. by destruct v, c.
  - left. unfold cached_encoded. by destruct o.
  - left. by rewrite sessions_handler_encoded.
  - left. by destruct v, o.
  - by left.
Qed.

Lemma sessions_fire v w r : sessions (fire v w r) = sessions w.
Proof.
  unfold fire, timeout_cb. repeat case_match; done.
Qed.

Lemma sessions_advance v t w : sessions (advance v t w) = sessions w.
Proof.
  unfold advance. cbv zeta.
  change (sessions w) with (sessions (set_now (now w `max` t)%Z w)).
  generalize (seq 0 (length (reqs (set_now (now w `max` t)%Z w)))).
  generalize (set_now (now w `max` t)%Z w).
  intros w' rs. revert w'. induction rs as [|r rs IH]; intros w'; simpl;
    [done|]. by rewrite IH, sessions_fire.
Qed.

Lemma sessions_deliver v h u w g :
  sessions (deliver v h u w g) =
    match v, fn g with
    | server, SessionListener id _ =>
        if bool_decide (u_connection u = Some "close")
        then delete id (sessions w) else sessions w
    | _, _ => sessions w
    end.
Proof.
  unfold deliver, callback.
  destruct (fn g) as [id l|r id|r]; simpl.
  - unfold session_update. destruct v; repeat case_match; done.
  - match goal with
    | |- context [handler ?v ?r ?i ?h ?u ?w] =>
        destruct (handler_registry v r i h u w) as (-> & _)
    end. by destruct v, (once g).
  - destruct v; repeat case_match; done.
Qed.

Lemma sessions_delivered v h u gs : ∀ w id l,
  sessions (foldl (deliver v h u) w gs) !! id = Some l →
  sessions w !! id = Some l.
Proof.
  induction gs as [|g gs IH]; intros w id l; simpl; [done|].
  intros Hl%IH. rewrite sessions_deliver in Hl.
  repeat case_match; try done. by apply lookup_delete_Some in Hl as [_ ?].
Qed.

Lemma sessions_delivered_same v h u gs : ∀ w,
  v ≠ server ∨ u_connection u ≠ Some "close" →
  sessions (foldl (deliver v h u) w gs) = sessions w.
Proof.
  induction gs as [|g gs IH]; intros w Hv; simpl; [done|].
  rewrite IH, sessions_deliver by done.
  destruct v; try done; destruct (fn g); try done.
  rewrite bool_decide_false; [done|]. by destruct Hv.
Qed.

Lemma sessions_read_only v w i :
  match i with Core _ => False | _ => True end →
  sessions (serve v w i) = sessions w.
Proof.
  destruct i; simpl; [done|..]; intros _.
  - unfold me_route. destruct v; cbv zeta; repeat case_match; done.
  - unfold status_route. destruct v; cbv zeta; repeat case_match; done.
  - unfold health_route. destruct v; done.
Qed.

Lemma sessions_pair_route v sessionId phone rnd w :
  sessions (pair_route v sessionId phone rnd w) = sessions w.
Proof.
  unfold pair_route. destruct v; cbv zeta; repeat case_match;
    by rewrite ?sessions_createSession.
Qed.

Lemma sessions_qr_route v param rnd w :
  sessions (qr_route v param rnd w) = sessions w.
Proof.
  unfold qr_route. destruct v; cbv zeta; by rewrite sessions_createSession.
Qed.

(** What one input does to the registry: nothing, one insertion by a
    construction that completes, or, in server.js, removals by a close
    update. *)
Lemma sessions_serve v w i :
  sessions (serve v w i) = sessions w
  ∨ (∃ k o c id m,
       i = Core (Settle k o (Some m))
       ∧ tasks w !! k = Some (Some (AwaitVersion c id))
       ∧ sessions (serve v w i) = <[id := new_ref v w]> (sessions w))
  ∨ (∃ h u,
       v = server ∧ i = Core (Emit h u) ∧ u_connection u = Some "close"
       ∧ ∀ id l, sessions (serve v w i) !! id = Some l →
                 sessions w !! id = Some l).
Proof.
  destruct i as [e| | |]; [|left; by apply sessions_read_only..].
  destruct e as [param rnd|sessionId phone rnd|k o mk|h u|h who|t]; simpl.
  - left. apply sessions_qr_route.
  - left. apply sessions_pair_route.
  - destruct (sessions_settle v k o mk w) as [?|(c & id & m & ? & -> & ?)];
      [by left|right; left]. by exists k, o, c, id, m.
  - unfold emit. destruct (socks w !! h) as [s|]; [|by left].
    destruct (decide (u_connection u = Some "close")) as [Hu|Hu];
      [destruct v|];
      try (left; apply sessions_delivered_same; first [by left|by right]).
    right; right. exists h, u. split_and!; try done.
    apply sessions_delivered.
  - by left.
  - left. apply sessions_advance.
Qed.

Lemma sessions_kept_serve v w i id :
  v ≠ server → is_Some (sessions w !! id) →
  is_Some (sessions (serve v w i) !! id).
Proof.
  intros Hv Hid.
  destruct (sessions_serve v w i)
    as [->|[(k & o & c & id' & m & _ & _ & ->)|(h & u & -> & _)]];
    [done| |done].
  rewrite lookup_insert_is_Some. destruct (decide (id' = id)); auto.
Qed.

Lemma evicting_listener h u gs id : ∀ w,
  is_Some (sessions w !! id) →
  sessions (foldl (deliver server h u) w gs) !! id = None →
  ∃ g l, g ∈ gs ∧ fn g = SessionListener id l.
Proof.
  induction gs as [|g gs IH]; intros w Hid Hnone; simpl in *.
  - rewrite Hnone in Hid. by destruct Hid.
  - destruct (sessions (deliver server h u w g) !! id) as [l'|] eqn:Hd.
    + destruct (IH _ (mk_is_Some _ _ Hd) Hnone) as (g' & l & Hg' & Hf).
      exists g', l. split; [by right|done].
    + rewrite sessions_deliver in Hd.
      destruct (fn g) as [id' l| |] eqn:Hf;
        try (rewrite Hd in Hid; by destruct Hid).
      case_bool_decide; [|rewrite Hd in Hid; by destruct Hid].
      apply lookup_delete_None in Hd as [->|Hd];
        [|rewrite Hd in Hid; by destruct Hid].
      exists g, l. split; [by left|done].
Qed.

(** * Further properties of the service *)

(** ** Replies per request *)

(** server.js answers no request twice: whatever requests arrive, promises
    settle, sockets emit and timers fire, [res.json] is called at most once
    on every response. *)
Theorem server_replies_at_most_once inputs r :
  length (replies_of r (serve_all server empty_world inputs)) ≤ 1.
Proof. apply (answered_bound server). Qed.

(** The query-string API answers no request twice. *)
Theorem query_api_replies_at_most_once inputs r :
  length (replies_of r (serve_all part_003 empty_world inputs)) ≤ 1.
Proof. apply (answered_bound part_003). Qed.

(** ban-md.js and its long-poll sibling call [res.json] at most twice on
    any response. *)
Theorem long_poll_replies_at_most_twice inputs r :
  length (replies_of r (serve_all ban_md empty_world inputs)) ≤ 2
  ∧ length (replies_of r (serve_all part_000 empty_world inputs)) ≤ 2.
Proof. split; [apply (answered_bound ban_md)|apply (answered_bound part_000)]. Qed.

(** ** Registry entries *)

(** ban-md.js, its long-poll sibling and the query-string API never remove
    a registry entry: an id that is stored stays stored, whatever happens
    next. *)
Theorem sessions_are_kept v w inputs id :
  v ≠ server →
  is_Some (sessions w !! id) →
  is_Some (sessions (serve_all v w inputs) !! id).
Proof.
  intros Hv. revert w. induction inputs as [|i inputs IH]; intros w Hid;
    simpl; [done|].
  apply IH. by apply sessions_kept_serve.
Qed.

Lemma sessions_are_kept_witness :
  is_Some (sessions (serve_all ban_md (idle_in ban_md)
                       [Core (Emit 0 closed); Core (Advance 100000);
                        GetMe "s1"]) !! "s1").
Proof.
  apply (sessions_are_kept ban_md (idle_in ban_md)); [done|].
  by exists 0.
Defined.

(** In server.js one input takes an id out of the registry only if it is a
    close update, emitted by a socket that carries the listener
    [createSession] installed for that id. *)
Theorem server_evicts_on_close_only w i id :
  is_Some (sessions w !! id) →
  sessions (serve server w i) !! id = None →
  ∃ h u g l,
    i = Core (Emit h u) ∧ u_connection u = Some "close"
    ∧ g ∈ listeners_of h w ∧ fn g = SessionListener id l.
Proof.
  intros Hid Hnone.
  destruct (sessions_serve server w i)
    as [Hs|[(k & o & c & id' & m & _ & _ & Hs)|(h & u & _ & -> & Hu & _)]].
  - rewrite Hs in Hnone. rewrite Hnone in Hid. by destruct Hid.
  - rewrite Hs in Hnone. apply lookup_insert_None in Hnone as [Hnone _].
    rewrite Hnone in Hid. by destruct Hid.
  - simpl in Hnone. unfold emit, listeners_of in *.
    destruct (socks w !! h) as [s|] eqn:Hh;
      [|rewrite Hnone in Hid; by destruct Hid].
    destruct (evicting_listener h u _ id w Hid Hnone) as (g & l & Hg & Hf).
    exists h, u, g, l. split_and!; try done. by rewrite Hh.
Qed.

Lemma server_evicts_on_close_only_witness :
  ∃ h u g l,
    Core (Emit 0 closed) = Core (Emit h u) ∧ u_connection u = Some "close"
    ∧ g ∈ listeners_of h (waiting_in server)
    ∧ fn g = SessionListener "s1" l.
Proof.
  apply (server_evicts_on_close_only (waiting_in server)
           (Core (Emit 0 closed)) "s1").
  - by exists 0.
  - reflexivity.
Defined.

(** ** Session objects and their listeners *)

(** What the listener of [createSession] does to the session objects. *)
Lemma objs_session_update v id l h u w l' :
  long_poll v →
  objs (session_update v id l h u w) !! l' =
    if decide (l = l')
    then reflect v u (sock_user h w) (now w) <$> objs w !! l'
    else objs w !! l'.
Proof.
  intros [-> | ->]; unfold session_update, reflect, sock_user; simpl;
    (case_decide as Hl;
     [subst l'|repeat case_match; simpl;
               by rewrite ?list_lookup_alter_ne by done]);
    repeat case_match; simpl; rewrite ?list_lookup_alter_eq;
    destruct (objs w !! l) as [[]|]; simpl in *; simplify_eq/=; done.
Qed.

Lemma frame_session_update v id l h u w :
  socks (session_update v id l h u w) = socks w
  ∧ now (session_update v id l h u w) = now w
  ∧ length (objs (session_update v id l h u w)) = length (objs w).
Proof.
  unfold session_update.
  destruct v; repeat case_match; simpl; by rewrite ?length_alter.
Qed.

Lemma listening_frame w w' :
  objs w' = objs w → socks w' = socks w → listening w → listening w'.
Proof.
  intros Ho Hk [H1 H2]. unfold listening, listeners_of in *.
  rewrite Ho, Hk. done.
Qed.

Lemma listeners_of_ev_on h g w h' :
  listeners_of h' (ev_on h g w) =
    listeners_of h' w
    ++ (if bool_decide (h = h' ∧ h < length (socks w)) then [g] else []).
Proof.
  unfold listeners_of, ev_on. simpl.
  destruct (decide (h = h')) as [->|Hne].
  - rewrite list_lookup_alter_eq.
    destruct (socks w !! h') as [s|] eqn:Hs; simpl.
    + apply lookup_lt_Some in Hs as ?. by rewrite bool_decide_true.
    + apply lookup_ge_None in Hs as ?. by rewrite bool_decide_false by lia.
  - rewrite list_lookup_alter_ne by done.
    by rewrite bool_decide_false, app_nil_r by (by intros [? _]).
Qed.

Lemma registered_app f gs gs' :
  registered f (gs ++ gs') = registered f gs + registered f gs'.
Proof. unfold registered. by rewrite filter_app, length_app. Qed.

Lemma listening_ev_on h g w :
  plain g → listening w → listening (ev_on h g w).
Proof.
  intros Hg [H1 H2]. split.
  - intros h' g'. rewrite listeners_of_ev_on, elem_of_app.
    intros [?|Hin]; [by eapply H1|].
    case_bool_decide; [|by apply elem_of_nil in Hin].
    by apply list_elem_of_singleton in Hin as ->.
  - intros l s Hl. destruct (H2 l s Hl) as [id Hid]. exists id.
    rewrite listeners_of_ev_on, registered_app. lia.
Qed.

Lemma elem_of_remove_last f gs g : g ∈ remove_last f gs → g ∈ gs.
Proof. apply remove_last_subseteq. Qed.

Lemma listeners_of_other h f w h' :
  h ≠ h' → listeners_of h' (with_sock h f w) = listeners_of h' w.
Proof.
  intros Hne. unfold listeners_of. simpl.
  by rewrite list_lookup_alter_ne.
Qed.

Lemma listening_ev_off h f w :
  (∀ id l, f ≠ SessionListener id l) → listening w → listening (ev_off h f w).
Proof.
  intros Hf [H1 H2]. split.
  - intros h' g'. destruct (decide (h = h')) as [->|Hne].
    + rewrite listeners_of_ev_off. intros ?%elem_of_remove_last. by eapply H1.
    + unfold ev_off. rewrite listeners_of_other by done. apply H1.
  - intros l s Hl. destruct (H2 l s Hl) as [id Hid]. exists id.
    destruct (decide (h = sock s)) as [->|Hne].
    + rewrite listeners_of_ev_off, registered_remove_other; [done|].
      intros Heq. by eapply Hf.
    + unfold ev_off. by rewrite listeners_of_other by done.
Qed.

(** A change of a socket that leaves its listeners alone. *)
Lemma listeners_of_kept h f w h' :
  (∀ s, listeners (f s) = listeners s) →
  listeners_of h' (with_sock h f w) = listeners_of h' w.
Proof.
  intros Hf. unfold listeners_of. simpl.
  destruct (decide (h = h')) as [->|Hne].
  - rewrite list_lookup_alter_eq. destruct (socks w !! h'); simpl; [|done].
    apply Hf.
  - by rewrite list_lookup_alter_ne.
Qed.

(** A change of session objects that keeps every object's socket. *)
Lemma listening_objs w w' :
  socks w' = socks w →
  (∀ l s', objs w' !! l = Some s' →
           ∃ s, objs w !! l = Some s ∧ sock s' = sock s) →
  listening w → listening w'.
Proof.
  intros Hk Ho [H1 H2]. unfold listening, listeners_of in *.
  rewrite Hk. split; [done|].
  intros l s' Hl. destruct (Ho l s' Hl) as (s & Hs & ->). by eapply H2.
Qed.

Lemma listening_session_update v id l h u w :
  long_poll v → listening w → listening (session_update v id l h u w).
Proof.
  intros Hv. apply listening_objs; [apply frame_session_update|].
  intros l' s'. rewrite objs_session_update by done.
  case_decide; [|by eauto]. subst.
  destruct (objs w !! l') as [s|]; simpl; [|done].
  intros [= <-]. exists s. split; [done|].
  destruct Hv as [-> | ->]; unfold reflect; repeat case_match; done.
Qed.

Lemma listening_send_settled l w : listening w → listening (send_settled l w).
Proof.
  apply listening_objs; [done|].
  intros l' s'. unfold send_settled. simpl.
  destruct (decide (l = l')) as [->|?].
  - rewrite list_lookup_alter_eq.
    destruct (objs w !! l') as [s|]; simpl; [|done].
    intros [= <-]. by exists s.
  - rewrite list_lookup_alter_ne by done. eauto.
Qed.

Lemma frame_handler v r id h u w :
  long_poll v →
  objs (handler v r id h u w) = objs w
  ∧ socks (handler v r id h u w) = socks w.
Proof.
  intros Hv. split; [apply handler_registry|by apply handler_socks].
Qed.

Lemma frame_timeout_cb v r t w :
  long_poll v →
  objs (timeout_cb v r t w) = objs w ∧ socks (timeout_cb v r t w) = socks w.
Proof. intros [-> | ->]; unfold timeout_cb; by case_match. Qed.

Lemma listening_qr_route_k v r id s w :
  listening w → listening (qr_route_k v r id s w).
Proof.
  intros Hw. unfold qr_route_k.
  destruct v; cbv zeta; repeat case_match;
    repeat first
      [ assumption
      | apply listening_ev_on; [done|]
      | eapply listening_frame; [reflexivity|reflexivity|] ].
Qed.

Lemma listening_pair_route_k v r sessionId phone id s w :
  listening w → listening (pair_route_k v r sessionId phone id s w).
Proof.
  intros Hw. unfold pair_route_k.
  destruct v; cbv zeta; repeat case_match;
    (eapply listening_frame; [| |exact Hw]; done).
Qed.

Lemma listening_return_to v k id s w :
  listening w → listening (return_to v k id s w).
Proof.
  destruct k; simpl;
    [apply listening_qr_route_k|apply listening_pair_route_k].
Qed.

Lemma listening_throw_to v k w : listening w → listening (throw_to v k w).
Proof. apply listening_frame; by destruct v, k. Qed.

Lemma listeners_of_new_sock s0 w h :
  listeners_of h (new_sock s0 w) =
    if decide (h = length (socks w)) then listeners s0 else listeners_of h w.
Proof.
  unfold listeners_of. simpl. case_decide as Hh.
  - subst. by rewrite lookup_new.
  - destruct (decide (h < length (socks w))).
    + by rewrite lookup_app_l.
    + rewrite !lookup_ge_None_2; [done|lia|rewrite length_app; simpl; lia].
Qed.

Lemma registered_exists f h w :
  0 < registered f (listeners_of h w) → h < length (socks w).
Proof.
  unfold listeners_of. destruct (socks w !! h) as [s|] eqn:Hs; simpl.
  - intros _. by eapply lookup_lt_Some.
  - unfold registered. simpl. lia.
Qed.

Lemma listening_new_sock u c p w :
  listening w → listening (new_sock (mkSock u [] c p) w).
Proof.
  intros [H1 H2]. split.
  - intros h g. rewrite listeners_of_new_sock. case_decide; [|apply H1].
    simpl. by intros ?%elem_of_nil.
  - intros l s Hl. destruct (H2 l s Hl) as [id Hid]. exists id.
    rewrite listeners_of_new_sock. case_decide as Hh; [|done].
    apply registered_exists in Hid. simpl in *. lia.
Qed.

Lemma registered_singleton f g : fn g = f → registered f [g] = 1.
Proof.
  intros Hf. unfold registered. rewrite filter_cons, decide_True by done.
  done.
Qed.

(** Storing a new session object whose listener is registered. *)
Lemma listening_stored s id w w' :
  listening w →
  sock s < length (socks w) →
  objs w' = objs w ++ [s] →
  (∀ h, listeners_of h w' =
        listeners_of h w
        ++ (if bool_decide (h = sock s)
            then [mkReg (SessionListener id (length (objs w))) false]
            else [])) →
  listening w'.
Proof.
  intros [H1 H2] Hs Ho Hl. split.
  - intros h g. rewrite Hl, elem_of_app.
    intros [?|Hin]; [by eapply H1|].
    case_bool_decide; [|by apply elem_of_nil in Hin].
    by apply list_elem_of_singleton in Hin as ->.
  - intros l s'. rewrite Ho. intros Hs'.
    destruct (decide (l = length (objs w))) as [->|Hne].
    + rewrite lookup_new in Hs'. simplify_eq. exists id.
      rewrite Hl, registered_app, bool_decide_true by done.
      rewrite registered_singleton by done. lia.
    + assert (objs w !! l = Some s') as Hl'.
      { apply lookup_lt_Some in Hs' as Hlt. rewrite length_app in Hlt.
        simpl in Hlt. rewrite lookup_app_l in Hs' by lia. done. }
      destruct (H2 l s' Hl') as [id' Hid]. exists id'.
      rewrite Hl, registered_app. lia.
Qed.

Lemma listening_with_sock h f w :
  (∀ s, listeners (f s) = listeners s) →
  listening w → listening (with_sock h f w).
Proof.
  intros Hf [H1 H2].
  assert (Hl : ∀ h', listeners_of h' (with_sock h f w) = listeners_of h' w)
    by (intros h'; by apply listeners_of_kept).
  split.
  - intros h' g. rewrite Hl. apply H1.
  - intros l s Hs. setoid_rewrite Hl. by apply H2.
Qed.

Lemma listening_construct v k id m w :
  v ≠ part_003 → listening w → listening (construct v k id m w).
Proof.
  intros Hv Hw. unfold construct.
  destruct v; try done; cbv zeta; apply listening_return_to.
  1,2: match goal with
       | |- listening (ev_on _ _ (on_creds _ (with_sessions _
                         (new_obj ?s ?w')))) =>
           apply (listening_stored s id w');
             [by apply listening_new_sock
             |simpl; rewrite length_app; simpl; lia
             |done|]
       end;
    intros h; rewrite listeners_of_ev_on; f_equal;
    [unfold on_creds; by rewrite listeners_of_kept by done|];
    simpl; rewrite length_alter, length_app; simpl;
    repeat case_bool_decide; try done; intuition lia.
  apply listening_ev_on; [done|].
  unfold on_creds. apply listening_with_sock; [done|].
  eapply listening_frame; [reflexivity|reflexivity|].
  by apply listening_new_sock.
Qed.

Ltac listening_tac :=
  repeat first
    [ assumption
    | apply listening_ev_off; [done|]
    | apply listening_ev_on; [done|]
    | eapply listening_frame; [reflexivity|reflexivity|] ].

Lemma listening_handler_open v r id h u w :
  listening w → listening (handler_open v r id h u w).
Proof.
  intros Hw. unfold handler_open. destruct v; repeat case_match; listening_tac.
Qed.

Lemma listening_handler v r id h u w :
  listening w → listening (handler v r id h u w).
Proof.
  intros Hw. unfold handler.
  repeat case_match; try by apply listening_handler_open.
  listening_tac.
Qed.

Lemma listening_handler_encoded v r id h u o w :
  listening w → listening (handler_encoded v r id h u o w).
Proof.
  intros Hw. unfold handler_encoded.
  destruct v, o; try done; apply listening_handler_open; listening_tac.
Qed.

Lemma listening_timeout_cb v r t w :
  listening w → listening (timeout_cb v r t w).
Proof.
  intros Hw. unfold timeout_cb. destruct v; repeat case_match; listening_tac.
Qed.

Lemma listening_any_update v id l h u w :
  v ≠ part_003 → listening w → listening (session_update v id l h u w).
Proof.
  intros Hv Hw. destruct v; try done.
  - apply listening_session_update; [by left|done].
  - apply listening_session_update; [by right|done].
  - unfold session_update. case_match; listening_tac.
Qed.

Lemma listening_deliver v h u w g :
  v ≠ part_003 → plain g → listening w → listening (deliver v h u w g).
Proof.
  intros Hv Hg Hw. unfold deliver. cbv zeta.
  assert (Hw1 : listening (if once g then ev_off h (fn g) w else w)).
  { destruct (once g) eqn:Ho; [|done]. apply listening_ev_off; [|done].
    intros id l Hf. unfold plain in Hg. rewrite Hf in Hg. congruence. }
  destruct (fn g) as [id l|r id|r]; simpl.
  - by apply listening_any_update.
  - by apply listening_handler.
  - destruct (Js.truthy_opt (u_qr u)); listening_tac.
Qed.

Lemma listening_delivered v h u gs :
  v ≠ part_003 → (∀ g, g ∈ gs → plain g) →
  ∀ w, listening w → listening (foldl (deliver v h u) w gs).
Proof.
  intros Hv. induction gs as [|g gs IH]; intros Hgs w Hw; simpl; [done|].
  apply IH; [intros g' Hg'; apply Hgs; by right|].
  apply listening_deliver; [done| |done]. apply Hgs. by left.
Qed.

Lemma listening_emit v h u w :
  v ≠ part_003 → listening w → listening (emit v h u w).
Proof.
  intros Hv Hw. unfold emit. destruct (socks w !! h) as [s|] eqn:Hh; [|done].
  apply listening_delivered; [done| |done].
  intros g Hg. apply (proj1 Hw h). unfold listeners_of. by rewrite Hh.
Qed.

Lemma listening_fires v rs : ∀ w,
  listening w → listening (foldl (fire v) w rs).
Proof.
  induction rs as [|r rs IH]; intros w Hw; simpl; [done|].
  apply IH. unfold fire. repeat case_match; try done.
  apply listening_timeout_cb. listening_tac.
Qed.

Lemma listening_createSession v sessionId rnd k w :
  listening w → listening (createSession v sessionId rnd k w).
Proof.
  intros Hw. unfold createSession. cbv zeta. case_match.
  - by apply listening_return_to.
  - by apply listening_throw_to.
  - listening_tac.
Qed.

Lemma listening_settle v k o mk w :
  v ≠ part_003 → listening w → listening (settle v k o mk w).
Proof.
  intros Hv Hw. unfold settle.
  destruct (tasks w !! k) as [[t|]|]; try done.
  assert (Hf : listening (finish_task k w)) by listening_tac.
  destruct t; simpl.
  - unfold auth_settled. destruct o; [listening_tac|by apply listening_throw_to].
  - unfold version_settled. destruct o; [destruct mk|].
    + apply listening_construct; [done|]. listening_tac.
    + apply listening_throw_to. listening_tac.
    + by apply listening_throw_to.
  - unfold cached_encoded. destruct o; listening_tac.
  - by apply listening_handler_encoded.
  - unfold pair_settled. destruct v, o; listening_tac.
  - by apply listening_send_settled.
Qed.

Lemma listening_serve v w i :
  v ≠ part_003 → listening w → listening (serve v w i).
Proof.
  intros Hv Hw. destruct i as [e| | |]; [destruct e|..]; simpl.
  - unfold qr_route. destruct v; cbv zeta;
      apply listening_createSession; listening_tac.
  - unfold pair_route. destruct v; cbv zeta; repeat case_match;
      first [apply listening_createSession; listening_tac|listening_tac].
  - by apply listening_settle.
  - by apply listening_emit.
  - unfold set_user. by apply listening_with_sock.
  - unfold advance. cbv zeta. apply listening_fires. listening_tac.
  - unfold me_route. destruct v; cbv zeta; repeat case_match; listening_tac.
  - unfold status_route. destruct v; cbv zeta; repeat case_match;
      listening_tac.
  - unfold health_route. destruct v; listening_tac.
Qed.

Lemma listening_serve_all v inputs :
  v ≠ part_003 → listening (serve_all v empty_world inputs).
Proof.
  intros Hv.
  assert (Hw : listening empty_world).
  { split; [intros h g ?%elem_of_nil; done|]. intros l s ?. done. }
  revert Hw. generalize empty_world.
  induction inputs as [|i inputs IH]; intros w Hw; simpl; [done|].
  apply IH. by apply listening_serve.
Qed.

(** ** What an update does to the session object *)

Lemma reflect_idem v u who t s :
  reflect v u who t (reflect v u who t s) = reflect v u who t s.
Proof. unfold reflect. destruct v; repeat case_match; done. Qed.

Lemma sock_user_ev_off h f w h' :
  sock_user h' (ev_off h f w) = sock_user h' w.
Proof.
  unfold sock_user, ev_off. simpl. destruct (decide (h = h')) as [->|?].
  - rewrite list_lookup_alter_eq. by destruct (socks w !! h').
  - by rewrite list_lookup_alter_ne.
Qed.

Lemma now_handler v r id h u w : now (handler v r id h u w) = now w.
Proof.
  unfold handler, handler_open. destruct v; repeat case_match; done.
Qed.

(** One listener's turn, seen from the session object [l] of socket [h]:
    the object is [s] or what the session's listener makes of it, and it is
    the latter after a listener of [l] has run. *)
Lemma deliver_reflects v h u w0 w g l s :
  long_poll v →
  let R := reflect v u (sock_user h w0) (now w0) in
  now w = now w0 → sock_user h w = sock_user h w0 →
  (objs w !! l = Some s ∨ objs w !! l = Some (R s)) →
  let w' := deliver v h u w g in
  now w' = now w0 ∧ sock_user h w' = sock_user h w0
  ∧ (objs w' !! l = Some s ∨ objs w' !! l = Some (R s))
  ∧ ((objs w !! l = Some (R s) ∨ ∃ id, fn g = SessionListener id l) →
     objs w' !! l = Some (R s)).
Proof.
  intros Hv R Hn Hu Ho w'. subst w'. unfold deliver. cbv zeta.
  set (w1 := if once g then ev_off h (fn g) w else w).
  assert (H1 : now w1 = now w0 ∧ sock_user h w1 = sock_user h w0
               ∧ objs w1 = objs w).
  { subst w1. destruct (once g); [|done].
    by rewrite sock_user_ev_off. }
  destruct H1 as (Hn1 & Hu1 & Ho1). rewrite <- Ho1 in *. clearbody w1.
  destruct (fn g) as [id l'|r id|r]; simpl.
  - destruct (frame_session_update v id l' h u w1) as (Hk & Hnow & _).
    unfold sock_user in *. rewrite Hk, Hnow.
    rewrite objs_session_update by done.
    fold (sock_user h w1). unfold sock_user. rewrite Hu1, Hn1. fold R.
    split_and!; try done.
    + case_decide; [|done]. subst l'. right.
      destruct Ho as [-> | ->]; simpl; [done|].
      unfold R. by rewrite reflect_idem.
    + intros [Hd|[id' Hd]].
      * rewrite Hd. case_decide; [|done]. simpl. unfold R.
        by rewrite reflect_idem.
      * simplify_eq. rewrite decide_True by done.
        destruct Ho as [-> | ->]; simpl; [done|].
        unfold R. by rewrite reflect_idem.
  - destruct (frame_handler v r id h u w1 Hv) as [Hobj Hk].
    unfold sock_user in *. rewrite Hobj, Hk, now_handler.
    split_and!; try done. intros [?|[? ?]]; done.
  - assert (objs (if Js.truthy_opt (u_qr u)
                  then set_qrData r (u_qr u) w1 else w1) = objs w1
            ∧ socks (if Js.truthy_opt (u_qr u)
                     then set_qrData r (u_qr u) w1 else w1) = socks w1
            ∧ now (if Js.truthy_opt (u_qr u)
                   then set_qrData r (u_qr u) w1 else w1) = now w1)
      as (-> & Hk & ->) by (by destruct (Js.truthy_opt (u_qr u))).
    unfold sock_user in *. rewrite Hk.
    split_and!; try done. intros [?|[? ?]]; done.
Qed.

Lemma delivered_reflects v h u w0 l s gs : ∀ w,
  long_poll v →
  let R := reflect v u (sock_user h w0) (now w0) in
  now w = now w0 → sock_user h w = sock_user h w0 →
  (objs w !! l = Some (R s)
   ∨ objs w !! l = Some s ∧ ∃ g id, g ∈ gs ∧ fn g = SessionListener id l) →
  objs (foldl (deliver v h u) w gs) !! l = Some (R s).
Proof.
  induction gs as [|g gs IH]; intros w Hv R Hn Hu Ho; simpl.
  - destruct Ho as [?|(_ & g & id & Hg & _)]; [done|].
    by apply elem_of_nil in Hg.
  - assert (Hor : objs w !! l = Some s ∨ objs w !! l = Some (R s))
      by (destruct Ho as [?|[? _]]; auto).
    destruct (deliver_reflects v h u w0 w g l s Hv Hn Hu Hor)
      as (Hn' & Hu' & Hor' & Hdone).
    apply IH; [done..|].
    destruct Ho as [Ho|(Ho & g' & id & Hg' & Hf)].
    + left. apply Hdone. by left.
    + apply elem_of_cons in Hg' as [-> | Hg'].
      * left. apply Hdone. right. by exists id.
      * destruct Hor' as [Hs|Hs]; [right|by left].
        split; [done|]. by exists g', id.
Qed.

(** An update emitted by the socket of a session object runs the object's
    listener, and nothing else the emit calls touches the object. *)
Lemma emit_reflects v h u w l s :
  long_poll v → listening w →
  objs w !! l = Some s → sock s = h →
  objs (emit v h u w) !! l = Some (reflect v u (sock_user h w) (now w) s).
Proof.
  intros Hv [_ H2] Hl Hs. destruct (H2 l s Hl) as [id Hid].
  rewrite Hs in Hid. apply registered_elem in Hid.
  unfold emit, listeners_of in *.
  destruct (socks w !! h) as [sk|] eqn:Hh; simpl in Hid;
    [|by apply elem_of_nil in Hid].
  apply list_elem_of_fmap in Hid as (g & Hf & Hg).
  apply delivered_reflects; [done..|].
  right. split; [done|]. by exists g, id.
Qed.

(** What an emit and the clock leave alone in ban-md.js and part_000. *)
Lemma frame_deliver v h u w g :
  long_poll v →
  now (deliver v h u w g) = now w
  ∧ sessions (deliver v h u w g) = sessions w
  ∧ ∀ h', sock_user h' (deliver v h u w g) = sock_user h' w.
Proof.
  intros Hv. split_and!.
  - unfold deliver, callback. destruct (fn g) as [id l|r id|r].
    + destruct (frame_session_update v id l h u
                  (if once g then ev_off h (SessionListener id l) w else w))
        as (_ & -> & _). by destruct (once g).
    + rewrite now_handler. by destruct (once g).
    + repeat case_match; done.
  - rewrite sessions_deliver. by destruct Hv as [-> | ->].
  - intros h'. unfold deliver, callback. cbv zeta.
    assert (Hu : sock_user h' (if once g then ev_off h (fn g) w else w)
                 = sock_user h' w)
      by (destruct (once g); [apply sock_user_ev_off|done]).
    rewrite <- Hu. generalize (if once g then ev_off h (fn g) w else w).
    intros w1. unfold sock_user. destruct (fn g) as [id l|r id|r].
    + by destruct (frame_session_update v id l h u w1) as (-> & _).
    + by rewrite handler_socks.
    + simpl. by destruct (Js.truthy_opt (u_qr u)).
Qed.

Lemma frame_emit v h u w :
  long_poll v →
  now (emit v h u w) = now w
  ∧ sessions (emit v h u w) = sessions w
  ∧ ∀ h', sock_user h' (emit v h u w) = sock_user h' w.
Proof.
  intros Hv. unfold emit. destruct (socks w !! h) as [s|]; [|done].
  generalize (listeners s) as gs. intros gs. revert w.
  induction gs as [|g gs IH]; intros w; simpl; [done|].
  destruct (IH (deliver v h u w g)) as (-> & -> & Hu).
  destruct (frame_deliver v h u w g Hv) as (-> & -> & Hu').
  split_and!; try done. intros h'. by rewrite Hu, Hu'.
Qed.

Lemma frame_fires v rs : ∀ w,
  long_poll v →
  now (foldl (fire v) w rs) = now w
  ∧ objs (foldl (fire v) w rs) = objs w
  ∧ socks (foldl (fire v) w rs) = socks w.
Proof.
  induction rs as [|r rs IH]; intros w Hv; simpl; [done|].
  destruct (IH (fire v w r) Hv) as (-> & -> & ->).
  rewrite now_fire. unfold fire.
  destruct Hv as [-> | ->]; unfold timeout_cb; repeat case_match; done.
Qed.

Lemma frame_advance v t w :
  long_poll v →
  now (advance v t w) = Z.max (now w) t
  ∧ sessions (advance v t w) = sessions w
  ∧ objs (advance v t w) = objs w
  ∧ socks (advance v t w) = socks w.
Proof.
  intros Hv. split_and!; [| apply sessions_advance | |].
  all: unfold advance; cbv zeta;
    destruct (frame_fires v
                (seq 0 (length (reqs (set_now (Z.max (now w) t) w))))
                (set_now (Z.max (now w) t) w) Hv) as (H1 & H2 & H3);
    by rewrite ?H1, ?H2, ?H3.
Qed.

(** ** The QR cache *)

(** In ban-md.js and part_000 the QR cache of a stored session follows the
    updates of the session's socket: after the socket emits an update that
    carries a QR payload, the session holds that payload, stamped with the
    time of the emit; an update without one leaves the cache as it was.  The
    registry entry and the session's socket are not changed. *)
Theorem qr_cache_follows_updates v inputs id l s u :
  long_poll v →
  let w := serve_all v empty_world inputs in
  sessions w !! id = Some l →
  objs w !! l = Some s →
  let w' := emit v (sock s) u w in
  ∃ s',
    sessions w' !! id = Some l ∧ objs w' !! l = Some s'
    ∧ sock s' = sock s
    ∧ (∀ p, u_qr u = Some p → p ≠ "" →
            lastQR s' = Some p ∧ lastQRAt s' = now w)
    ∧ (Js.truthy_opt (u_qr u) = false →
       lastQR s' = lastQR s ∧ lastQRAt s' = lastQRAt s).
Proof.
  intros Hv w Hid Hl w'.
  assert (Hw : listening w).
  { apply listening_serve_all. destruct Hv as [-> | ->]; done. }
  exists (reflect v u (sock_user (sock s) w) (now w) s).
  destruct (frame_emit v (sock s) u w Hv) as (_ & Hs & _).
  split_and!.
  - subst w'. by rewrite Hs.
  - by apply emit_reflects.
  - unfold reflect. destruct Hv as [-> | ->]; repeat case_match; done.
  - intros p Hp Hne. apply truthy_ne in Hne.
    unfold reflect. rewrite Hp. simpl. rewrite Hne.
    destruct Hv as [-> | ->]; repeat case_match; done.
  - intros Hq. unfold reflect. rewrite Hq.
    destruct Hv as [-> | ->]; repeat case_match; done.
Qed.

Lemma qr_cache_follows_updates_witness :
  let w := serve_all ban_md empty_world
             [Core (GetPair "s1" "256700000000" "ban-0");
              Core (Settle 0 ok None); Core (Settle 1 ok blank);
              Core (Advance 1000)] in
  ∃ s',
    sessions (emit ban_md 0 (mkUpdate (Some "Q1") None) w) !! "s1" = Some 0
    ∧ objs (emit ban_md 0 (mkUpdate (Some "Q1") None) w) !! 0 = Some s'
    ∧ sock s' = 0
    ∧ (∀ p, Some "Q1" = Some p → p ≠ "" →
            lastQR s' = Some p ∧ lastQRAt s' = now w)
    ∧ (Js.truthy_opt (Some "Q1") = false →
       lastQR s' = lastQR (mkSession 0 None 0 None "init" false)
       ∧ lastQRAt s' = lastQRAt (mkSession 0 None 0 None "init" false)).
Proof.
  apply (qr_cache_follows_updates ban_md _ "s1" 0
           (mkSession 0 None 0 None "init" false)
           (mkUpdate (Some "Q1") None)).
  - by left.
  - reflexivity.
  - reflexivity.
Defined.

(** A QR request that follows a QR update within the TTL is answered from
    the cache.  In ban-md.js and part_000, let the socket of a stored
    session that is not logged in emit a QR payload, and let less than 60 s
    pass.  A QR request for the session then only suspends on encoding that
    payload, and answers with the image when the encoder returns. *)
Theorem qr_request_after_update_hits_cache v inputs param rnd id l s u p d :
  long_poll v →
  wanted param = Some id →
  let w := serve_all v empty_world inputs in
  sessions w !! id = Some l →
  objs w !! l = Some s →
  sock_user (sock s) w = None →
  u_qr u = Some p → p ≠ "" →
  (0 ≤ d < qr_ttl)%Z →
  let w1 := advance v (now w + d) (emit v (sock s) u w) in
  let w2 := step v w1 (GetQR param rnd) in
  w2 = encoding_cached w1 id p
  ∧ ∀ img mk,
      replies_of (length (reqs w1))
        (step v w2 (Settle (length (tasks w1)) (Fulfilled img) mk)) =
        [json [("qr", JStr img); ("sessionId", JStr id)]].
Proof.
  intros Hv Hp w Hid Hl Hu Hq Hne Hd w1 w2.
  destruct (qr_cache_follows_updates v inputs id l s u Hv Hid Hl)
    as (s' & Hid' & Hl' & Hs' & Hset & _).
  destruct (Hset p Hq Hne) as [HQ HT].
  destruct (frame_emit v (sock s) u w Hv) as (Hn & _ & Hus).
  destruct (frame_advance v (now w + d) (emit v (sock s) u w) Hv)
    as (Hn1 & Hs1 & Ho1 & Hk1).
  fold w in Hn, Hus, Hid', Hl', HT. fold w1 in Hn1, Hs1, Ho1, Hk1.
  assert (Hw2 : w2 = qr_route_k v (length (reqs w1)) id s' (new_req w1)).
  { apply qr_route_stored with l; [done..|by rewrite Hs1|by rewrite Ho1]. }
  assert (Hcached : w2 = encoding_cached w1 id p).
  { rewrite Hw2. rewrite (qr_route_k_cached v _ id s' _ p); [done|done|..].
    - unfold sock_user. simpl. rewrite Hk1, Hs'.
      change (sock_user (sock s) (emit v (sock s) u w) = None).
      by rewrite Hus.
    - unfold fresh_qr. rewrite HQ. apply truthy_ne in Hne. rewrite Hne.
      simpl. rewrite bool_decide_true; [done|].
      rewrite Hn1, Hn, HT. unfold qr_ttl in *. lia. }
  split; [done|]. intros img mk. rewrite Hcached.
  unfold step, settle, encoding_cached. simpl.
  rewrite lookup_new. simpl. unfold replies_of, res_json. simpl.
  rewrite list_lookup_alter_eq, lookup_new. done.
Qed.

Lemma qr_request_after_update_hits_cache_witness :
  let w := serve_all ban_md empty_world
             [Core (GetPair "s1" "256700000000" "ban-0");
              Core (Settle 0 ok None); Core (Settle 1 ok blank);
              Core (Advance 1000)] in
  let w1 := advance ban_md (now w + 30000)
              (emit ban_md 0 (mkUpdate (Some "Q1") None) w) in
  let w2 := step ban_md w1 (GetQR (Some "s1") "ban-1") in
  w2 = encoding_cached w1 "s1" "Q1"
  ∧ ∀ img mk,
      replies_of (length (reqs w1))
        (step ban_md w2 (Settle (length (tasks w1)) (Fulfilled img) mk)) =
        [json [("qr", JStr img); ("sessionId", JStr "s1")]].
Proof.
  apply (qr_request_after_update_hits_cache ban_md _ (Some "s1") "ban-1" "s1"
           0 (mkSession 0 None 0 None "init" false)
           (mkUpdate (Some "Q1") None) "Q1" 30000);
    try reflexivity; try done.
  by left.
Defined.

(** ** Whoami *)

(** GET /api/me of ban-md.js reports the session as its listener last
    recorded it.  After the socket of a stored session emits an update with
    a connection state, the reply carries that state, and as user the
    socket's user at the time of the update, or else the user recorded
    before.  For an id the registry does not hold the reply is the "Unknown
    session" error.  In both cases the reply is all the request does: no
    session is created and the provider is not called. *)
Theorem whoami_reports_last_update inputs id l s u c :
  let w := serve_all ban_md empty_world inputs in
  sessions w !! id = Some l →
  objs w !! l = Some s →
  u_connection u = Some c → c ≠ "" →
  let w' := emit ban_md (sock s) u w in
  me_route ban_md id w' =
    just_replied w'
      (json [("user", juser match sock_user (sock s) w with
                            | Some who => Some who
                            | None => s_user s
                            end);
             ("connection", JStr c)])
  ∧ ∀ id', sessions w' !! id' = None →
           me_route ban_md id' w' =
             just_replied w' (json [("error", JStr "Unknown session")]).
Proof.
  intros w Hid Hl Hc Hne w'. split.
  - assert (Hw : listening w) by (by apply listening_serve_all).
    destruct (frame_emit ban_md (sock s) u w) as (_ & Hs & _); [by left|].
    pose proof (emit_reflects ban_md (sock s) u w l s (or_introl eq_refl) Hw
                  Hl eq_refl) as Hr.
    assert (HR : ∃ s', reflect ban_md u (sock_user (sock s) w) (now w) s = s'
                       ∧ s_connection s' = c
                       ∧ s_user s' = match sock_user (sock s) w with
                                     | Some who => Some who
                                     | None => s_user s
                                     end).
    { eexists. split; [done|]. apply truthy_ne in Hne.
      unfold reflect. rewrite Hc, Hne.
      destruct (sock_user (sock s) w), (Js.truthy_opt (u_qr u)); done. }
    destruct HR as (s' & HR & Hc' & Hu'). rewrite HR in Hr.
    unfold me_route, stored. cbv zeta. simpl. fold w'.
    subst w'. rewrite Hs, Hid. simpl. rewrite Hr.
    unfold just_replied, res_json, with_req. simpl.
    by rewrite alter_new, Hc', Hu'.
  - intros id' Hnone. unfold me_route, stored. cbv zeta. simpl.
    rewrite Hnone. unfold just_replied, res_json, with_req. simpl.
    by rewrite alter_new.
Qed.

Lemma whoami_reports_last_update_witness :
  let w := serve_all ban_md empty_world
             [Core (GetPair "s1" "256700000000" "ban-0");
              Core (Settle 0 ok None); Core (Settle 1 ok blank)] in
  let w' := emit ban_md 0 (mkUpdate None (Some "connecting")) w in
  me_route ban_md "s1" w' =
    just_replied w' (json [("user", JNull); ("connection", JStr "connecting")])
  ∧ ∀ id', sessions w' !! id' = None →
           me_route ban_md id' w' =
             just_replied w' (json [("error", JStr "Unknown session")]).
Proof.
  apply (whoami_reports_last_update
           [Core (GetPair "s1" "256700000000" "ban-0");
            Core (Settle 0 ok None); Core (Settle 1 ok blank)]
           "s1" 0 (mkSession 0 None 0 None "init" false)
           (mkUpdate None (Some "connecting")) "connecting");
    try reflexivity; done.
Defined.

(** ** Invariants of the suspended tasks *)

Section Tasks.
Variable P : Task → Prop.
Hypothesis P_other : ∀ t, creating t = None → P t.
Hypothesis P_next : ∀ c id, P (AwaitAuthState c id) → P (AwaitVersion c id).

Lemma ok_tasks_frame w w' : tasks w' = tasks w → ok_tasks P w → ok_tasks P w'.
Proof. intros Ht Hw. unfold ok_tasks. by rewrite Ht. Qed.

Lemma ok_tasks_spawn t w : P t → ok_tasks P w → ok_tasks P (spawn t w).
Proof.
  intros Ht Hw k t'. simpl. intros Hk.
  apply lookup_app_Some in Hk as [Hk|[_ Hk]]; [by eapply Hw|].
  apply list_lookup_singleton_Some in Hk as [_ Hk]. by simplify_eq.
Qed.

Lemma ok_tasks_finish k w : ok_tasks P w → ok_tasks P (finish_task k w).
Proof.
  intros Hw k' t'. simpl. intros Hk.
  apply list_lookup_insert_Some in Hk as [(_ & ? & _)|[_ Hk]]; [done|].
  by eapply Hw.
Qed.

Ltac tasks_tac :=
  repeat first
    [ assumption
    | match goal with
      | Hw : ok_tasks P ?w0 |- ok_tasks P ?w1 =>
          exact (ok_tasks_frame w0 w1 eq_refl Hw)
      end
    | apply ok_tasks_spawn; [by apply P_other|]
    | apply ok_tasks_finish ].

Lemma ok_tasks_handler v r id h u w :
  ok_tasks P w → ok_tasks P (handler v r id h u w).
Proof.
  intros Hw. unfold handler, handler_open.
  destruct v; repeat case_match; tasks_tac.
Qed.

Lemma ok_tasks_session_update v id l h u w :
  ok_tasks P w → ok_tasks P (session_update v id l h u w).
Proof.
  intros Hw. unfold session_update.
  destruct v; repeat case_match; tasks_tac.
Qed.

Lemma ok_tasks_deliver v h u w g :
  ok_tasks P w → ok_tasks P (deliver v h u w g).
Proof.
  intros Hw. unfold deliver, callback. cbv zeta.
  assert (H1 : ok_tasks P (if once g then ev_off h (fn g) w else w))
    by (destruct (once g); tasks_tac).
  destruct (fn g).
  - by apply ok_tasks_session_update.
  - by apply ok_tasks_handler.
  - destruct (Js.truthy_opt (u_qr u)); tasks_tac.
Qed.

Lemma ok_tasks_emit v h u w : ok_tasks P w → ok_tasks P (emit v h u w).
Proof.
  intros Hw. unfold emit. destruct (socks w !! h) as [s|]; [|done].
  revert w Hw. induction (listeners s) as [|g gs IH]; intros w Hw; simpl;
    [done|].
  apply IH. by apply ok_tasks_deliver.
Qed.

Lemma ok_tasks_fires v rs : ∀ w,
  ok_tasks P w → ok_tasks P (foldl (fire v) w rs).
Proof.
  induction rs as [|r rs IH]; intros w Hw; simpl; [done|].
  apply IH. unfold fire, timeout_cb.
  destruct v; repeat case_match; tasks_tac.
Qed.

Lemma ok_tasks_return_to v k id s w :
  ok_tasks P w → ok_tasks P (return_to v k id s w).
Proof.
  intros Hw. destruct k; simpl; unfold qr_route_k, pair_route_k;
    destruct v; cbv zeta; repeat case_match; tasks_tac.
Qed.

Lemma ok_tasks_throw_to v k w : ok_tasks P w → ok_tasks P (throw_to v k w).
Proof. intros Hw. destruct v, k; tasks_tac. Qed.

Lemma ok_tasks_createSession v sessionId rnd k w :
  ok_tasks P w →
  (find_session v (session_id v sessionId rnd) w = Absent →
   P (AwaitAuthState k (session_id v sessionId rnd))) →
  ok_tasks P (createSession v sessionId rnd k w).
Proof.
  intros Hw Hk. unfold createSession. cbv zeta.
  destruct (find_session v (session_id v sessionId rnd) w).
  - by apply ok_tasks_return_to.
  - by apply ok_tasks_throw_to.
  - apply ok_tasks_spawn; [by apply Hk|]. tasks_tac.
Qed.

Lemma ok_tasks_settle v k o mk w :
  ok_tasks P w → ok_tasks P (settle v k o mk w).
Proof.
  intros Hw. unfold settle.
  destruct (tasks w !! k) as [[t|]|] eqn:Hk; try done.
  pose proof (Hw k t Hk) as Ht.
  assert (Hf : ok_tasks P (finish_task k w)) by tasks_tac.
  destruct t; simpl.
  - unfold auth_settled. destruct o; [|by apply ok_tasks_throw_to].
    apply ok_tasks_spawn; [by apply P_next|]. tasks_tac.
  - unfold version_settled. destruct o; [destruct mk|];
      try (apply ok_tasks_throw_to; tasks_tac).
    unfold construct. destruct v; cbv zeta; apply ok_tasks_return_to;
      tasks_tac.
  - unfold cached_encoded. destruct o; tasks_tac.
  - unfold handler_encoded, handler_open.
    destruct v, o; repeat case_match; tasks_tac.
  - unfold pair_settled. destruct v, o; tasks_tac.
  - tasks_tac.
Qed.

Lemma ok_tasks_quiet v w i :
  match i with
  | Core (GetQR _ _) | Core (GetPair _ _ _) => False
  | _ => True
  end →
  ok_tasks P w → ok_tasks P (serve v w i).
Proof.
  intros Hi Hw. destruct i as [e| | |]; [destruct e|..]; simpl; try done.
  - by apply ok_tasks_settle.
  - by apply ok_tasks_emit.
  - unfold advance. cbv zeta. apply ok_tasks_fires. tasks_tac.
  - unfold me_route. destruct v; cbv zeta; repeat case_match; tasks_tac.
  - unfold status_route. destruct v; cbv zeta; repeat case_match; tasks_tac.
  - unfold health_route. destruct v; tasks_tac.
Qed.

End Tasks.

(** ** Inherited keys in the plain-object registry *)

Lemma own_key_other t : creating t = None → own_key t.
Proof. by destruct t. Qed.

Lemma own_key_next c id :
  own_key (AwaitAuthState c id) → own_key (AwaitVersion c id).
Proof. done. Qed.

Lemma absent_own_key id w :
  (∀ id, Js.inherited id = true → sessions w !! id = None) →
  find_session part_003 id w = Absent → Js.inherited id = false.
Proof.
  intros Hk. unfold find_session.
  destruct (Js.inherited id) eqn:Hi; [|done].
  rewrite (Hk id Hi). done.
Qed.

Lemma keyed_serve w i : keyed w → keyed (serve part_003 w i).
Proof.
  intros [Ht Hk]. split.
  - destruct i as [e| | |]; [destruct e|..];
      try (apply ok_tasks_quiet;
           [apply own_key_other|apply own_key_next|done|done]).
    + simpl. unfold qr_route. cbv zeta.
      apply ok_tasks_createSession;
        [apply own_key_other|done|].
      intros Ha. by apply (absent_own_key _ (new_req w)).
    + simpl. unfold pair_route. cbv zeta. case_match; [|done].
      apply ok_tasks_createSession;
        [apply own_key_other|done|].
      intros Ha. by apply (absent_own_key _ (new_req w)).
  - intros id Hid.
    destruct (sessions_serve part_003 w i)
      as [->|[(k & o & c & id' & m & _ & Hk' & ->)|(h & u & ? & _)]];
      [by apply Hk| |done].
    pose proof (Ht k _ Hk') as Hown. unfold own_key in Hown. simpl in Hown.
    rewrite lookup_insert_ne; [by apply Hk|]. intros ->. congruence.
Qed.

Lemma keyed_serve_all inputs : keyed (serve_all part_003 empty_world inputs).
Proof.
  assert (Hw : keyed empty_world) by (split; [intros k t ?|]; done).
  revert Hw. generalize empty_world.
  induction inputs as [|i inputs IH]; intros w Hw; simpl; [done|].
  apply IH. by apply keyed_serve.
Qed.

(** The plain-object registry of the query-string API answers for keys it
    never stored.  For a session name that every object inherits, such as
    "constructor", [createSession] returns the inherited value at any time,
    and /qr, /pair and /status then throw on its missing [sock]: the request
    gets no JSON reply, no session is created and the provider is not
    called. *)
Theorem inherited_key_gets_no_reply inputs key rnd phone readyState :
  Js.inherited key = true →
  phone ≠ "" →
  let w := serve_all part_003 empty_world inputs in
  sessions w !! key = None
  ∧ serve part_003 w (Core (GetQR (Some key) rnd)) = new_req w
  ∧ serve part_003 w (Core (GetPair key phone rnd)) = new_req w
  ∧ serve part_003 w (GetStatus (Some key) readyState) = new_req w.
Proof.
  intros Hkey Hphone w.
  destruct (keyed_serve_all inputs) as [_ Hk]. fold w in Hk.
  pose proof (Hk key Hkey) as Hnone.
  assert (Htruthy : Js.truthy key = true).
  { destruct key; [|done]. by vm_compute in Hkey. }
  assert (Hor : Js.or_else (Some key) "ban-session1" = key).
  { unfold Js.or_else. by rewrite Htruthy. }
  assert (Hfind : find_session part_003 key (new_req w) = Junk).
  { unfold find_session. simpl. by rewrite Hnone, Hkey. }
  apply truthy_ne in Hphone.
  split_and!; [done|..]; unfold serve, step.
  - unfold qr_route, createSession, session_id. cbv zeta.
    rewrite Hor. cbn [default from_option]. change (id key) with key.
    by rewrite Hfind.
  - unfold pair_route, createSession, session_id. cbv zeta.
    rewrite Hphone, Hor. cbn [default from_option]. change (id key) with key.
    by rewrite Hfind.
  - unfold status_route. cbv zeta. by rewrite Hor, Hfind.
Qed.

Lemma inherited_key_gets_no_reply_witness :
  let w := serve_all part_003 empty_world
             [Core (GetQR (Some "s1") "x"); Core (Settle 0 ok None);
              Core (Settle 1 ok blank)] in
  sessions w !! "constructor" = None
  ∧ serve part_003 w (Core (GetQR (Some "constructor") "x")) = new_req w
  ∧ serve part_003 w (Core (GetPair "constructor" "256700000000" "x"))
    = new_req w
  ∧ serve part_003 w (GetStatus (Some "constructor") 1) = new_req w.
Proof.
  apply (inherited_key_gets_no_reply
           [Core (GetQR (Some "s1") "x"); Core (Settle 0 ok None);
            Core (Settle 1 ok blank)]
           "constructor" "x" "256700000000" 1).
  - reflexivity.
  - done.
Defined.

(** ** Phones handed to the provider *)

Lemma ok_calls_frame w w' : calls w' = calls w → ok_calls w → ok_calls w'.
Proof. intros Hc Hw. unfold ok_calls. by rewrite Hc. Qed.

Lemma ok_calls_call c w : clean_call c → ok_calls w → ok_calls (call c w).
Proof.
  intros Hc Hw c'. simpl. rewrite elem_of_app, list_elem_of_singleton.
  intros [?| ->]; [by apply Hw|done].
Qed.

Ltac calls_tac :=
  repeat first
    [ assumption
    | match goal with
      | Hw : ok_calls ?w0 |- ok_calls ?w1 =>
          exact (ok_calls_frame w0 w1 eq_refl Hw)
      end
    | apply ok_calls_call; [done|] ].

Lemma ok_calls_handler v r id h u w :
  ok_calls w → ok_calls (handler v r id h u w).
Proof.
  intros Hw. unfold handler, handler_open.
  destruct v; repeat case_match; calls_tac.
Qed.

Lemma ok_calls_session_update v id l h u w :
  ok_calls w → ok_calls (session_update v id l h u w).
Proof.
  intros Hw. unfold session_update.
  destruct v; repeat case_match; calls_tac.
Qed.

Lemma ok_calls_deliver v h u w g :
  ok_calls w → ok_calls (deliver v h u w g).
Proof.
  intros Hw. unfold deliver, callback. cbv zeta.
  assert (H1 : ok_calls (if once g then ev_off h (fn g) w else w))
    by (destruct (once g); calls_tac).
  destruct (fn g).
  - by apply ok_calls_session_update.
  - by apply ok_calls_handler.
  - destruct (Js.truthy_opt (u_qr u)); calls_tac.
Qed.

Lemma ok_calls_emit v h u w : ok_calls w → ok_calls (emit v h u w).
Proof.
  intros Hw. unfold emit. destruct (socks w !! h) as [s|]; [|done].
  revert w Hw. induction (listeners s) as [|g gs IH]; intros w Hw; simpl;
    [done|].
  apply IH. by apply ok_calls_deliver.
Qed.

Lemma ok_calls_fires v rs : ∀ w, ok_calls w → ok_calls (foldl (fire v) w rs).
Proof.
  induction rs as [|r rs IH]; intros w Hw; simpl; [done|].
  apply IH. unfold fire, timeout_cb.
  destruct v; repeat case_match; calls_tac.
Qed.

Lemma ok_calls_return_to v k id s w :
  match k with
  | PairRoute _ _ phone => clean_phone phone
  | _ => True
  end →
  ok_calls w → ok_calls (return_to v k id s w).
Proof.
  intros Hk Hw. destruct k; simpl; unfold qr_route_k, pair_route_k;
    destruct v; cbv zeta; repeat case_match; calls_tac.
Qed.

Lemma ok_calls_throw_to v k w : ok_calls w → ok_calls (throw_to v k w).
Proof. intros Hw. destruct v, k; calls_tac. Qed.

Lemma ok_calls_createSession v sessionId rnd k w :
  match k with
  | PairRoute _ _ phone => clean_phone phone
  | _ => True
  end →
  ok_calls w → ok_calls (createSession v sessionId rnd k w).
Proof.
  intros Hk Hw. unfold createSession. cbv zeta.
  destruct (find_session v (session_id v sessionId rnd) w).
  - by apply ok_calls_return_to.
  - by apply ok_calls_throw_to.
  - calls_tac.
Qed.

Lemma ok_calls_settle v k o mk w :
  ok_tasks clean_caller w → ok_calls w → ok_calls (settle v k o mk w).
Proof.
  intros Ht Hw. unfold settle.
  destruct (tasks w !! k) as [[t|]|] eqn:Hk; try done.
  pose proof (Ht k t Hk) as Hc.
  assert (Hf : ok_calls (finish_task k w)) by calls_tac.
  destruct t as [c id|c id|r' id p|r' id h u|r' sid id|l]; simpl.
  - unfold auth_settled. destruct o; [calls_tac|by apply ok_calls_throw_to].
  - unfold version_settled. destruct o; [destruct mk|];
      try (apply ok_calls_throw_to; calls_tac).
    unfold construct. destruct v; cbv zeta;
      (apply ok_calls_return_to; [by destruct c|]); calls_tac.
  - unfold cached_encoded. destruct o; calls_tac.
  - unfold handler_encoded, handler_open.
    destruct v, o; repeat case_match; calls_tac.
  - unfold pair_settled. destruct v, o; calls_tac.
  - calls_tac.
Qed.

Lemma clean_caller_other t : creating t = None → clean_caller t.
Proof. unfold clean_caller. by intros ->. Qed.

Lemma clean_caller_next c id :
  clean_caller (AwaitAuthState c id) → clean_caller (AwaitVersion c id).
Proof. done. Qed.

Lemma clean_stripped phone :
  Js.truthy (Js.strip_non_digits phone) = true →
  clean_phone (Js.strip_non_digits phone).
Proof.
  intros Ht. split; [apply all_digits_strip|by apply truthy_ne].
Qed.

Lemma clean_serve v w i :
  long_poll v →
  ok_tasks clean_caller w ∧ ok_calls w →
  ok_tasks clean_caller (serve v w i) ∧ ok_calls (serve v w i).
Proof.
  intros Hv [Ht Hc].
  destruct i as [e| | |]; [destruct e|..];
    try (split;
         [apply ok_tasks_quiet;
            [apply clean_caller_other|apply clean_caller_next|done|done]|]).
  - simpl. unfold qr_route.
    destruct Hv as [-> | ->]; cbv zeta;
      (split;
       [apply ok_tasks_createSession; [apply clean_caller_other|done..]
       |apply ok_calls_createSession; [done|calls_tac]]).
  - simpl. unfold pair_route.
    destruct Hv as [-> | ->]; cbv zeta;
      (destruct (Js.truthy (Js.strip_non_digits phone)) eqn:Hp;
       [pose proof (clean_stripped _ Hp);
        split;
        [apply ok_tasks_createSession; [apply clean_caller_other|done..]
        |apply ok_calls_createSession; [done|calls_tac]]
       |split; [done|calls_tac]]).
  - by apply ok_calls_settle.
  - by apply ok_calls_emit.
  - calls_tac.
  - simpl. unfold advance. cbv zeta. apply ok_calls_fires. calls_tac.
  - simpl. unfold me_route. destruct v; cbv zeta; repeat case_match; calls_tac.
  - simpl. unfold status_route.
    destruct v; cbv zeta; repeat case_match; calls_tac.
  - simpl. unfold health_route. destruct v; calls_tac.
Qed.

Lemma clean_serve_all v inputs :
  long_poll v → ok_calls (serve_all v empty_world inputs).
Proof.
  intros Hv.
  assert (Hw : ok_tasks clean_caller empty_world ∧ ok_calls empty_world).
  { split; [intros k t ?; done|intros c ?%elem_of_nil; done]. }
  revert Hw. generalize empty_world.
  induction inputs as [|i inputs IH]; intros w Hw; simpl; [apply Hw|].
  apply IH. by apply clean_serve.
Qed.

(** In ban-md.js and part_000 the provider is only ever asked for a pairing
    code with a phone number that consists of digits and is not empty:
    every [requestPairingCode] call made in any run carries such a phone. *)
Theorem provider_gets_digits_only v inputs h phone :
  long_poll v →
  RequestPairingCode h phone ∈ calls (serve_all v empty_world inputs) →
  all_digits phone = true ∧ phone ≠ "".
Proof.
  intros Hv Hin.
  pose proof (clean_serve_all v inputs Hv _ Hin) as Hc.
  exact Hc.
Qed.

Lemma provider_gets_digits_only_witness :
  all_digits "256700000000" = true ∧ "256700000000" ≠ "".
Proof.
  apply (provider_gets_digits_only ban_md
           [Core (GetPair "s1" "+256 (700) 000-000" "ban-0");
            Core (Settle 0 ok None); Core (Settle 1 ok blank)] 0).
  - by left.
  - vm_compute. apply list_elem_of_In. simpl. tauto.
Defined.

(** ** Normalised pairing codes *)

Lemma strip_digits s : all_digits s = true → Js.strip_non_digits s = s.
Proof.
  induction s as [|c s IH]; simpl; [done|].
  intros [Hc Hs]%andb_true_iff. rewrite Hc. by rewrite IH.
Qed.

Lemma slice0_whole s : Js.slice0 (String.length s) s = s.
Proof. induction s as [|c s IH]; simpl; [done|by rewrite IH]. Qed.

(** The normalisation of the query-string API leaves a raw code as it is
    exactly when the code consists of 8 digits; every other code the
    provider returns is delivered altered.  Normalising twice changes
    nothing more. *)
Theorem code8_fixes_eight_digits raw :
  (code8 raw = raw ↔ String.length raw = 8 ∧ all_digits raw = true)
  ∧ code8 (code8 raw) = code8 raw.
Proof.
  assert (Hfix : ∀ s, String.length s = 8 → all_digits s = true →
                      code8 s = s).
  { intros s Hlen Hdig. unfold code8, Js.padEnd.
    rewrite (strip_digits s Hdig), Hlen.
    pose proof (slice0_whole s) as Hs. by rewrite Hlen in Hs. }
  split; [split|].
  - intros Heq. split.
    + rewrite <- Heq. apply code8_length.
    + rewrite <- Heq. apply code8_digits.
  - intros [Hlen Hdig]. by apply Hfix.
  - apply Hfix; [apply code8_length|apply code8_digits].
Qed.

(** ** The 10 s timer of server.js *)

Lemma serve_grows v w i : length (reqs w) ≤ length (reqs (serve v w i)).
Proof.
  destruct i as [e| | |]; simpl.
  - pose proof (step_grows v w e). lia.
  - unfold me_route. destruct v; repeat case_match; simpl;
      rewrite ?length_alter, ?length_app; simpl; lia.
  - unfold status_route. destruct v; repeat case_match; simpl;
      rewrite ?length_alter, ?length_app; simpl; lia.
  - unfold health_route. destruct v; simpl;
      rewrite ?length_alter, ?length_app; simpl; lia.
Qed.

(** An input that brings no QR or open update to the socket of the
    request's handler, keeps the clock before the bound, and does not hand
    out the index [r] to a new request, leaves [r] out of reach. *)
Lemma framed_serve v r q own bound i w :
  (∀ t, q ≫= timer = Some t → bound = Some (due t)) →
  (∀ h u, i = Core (Emit h u) → own = Some h → quiet_update u) →
  (∀ t d, i = Core (Advance t) → bound = Some d → (t < d)%Z) →
  r ≠ length (reqs w) ∨ length (reqs (serve v w i)) = length (reqs w) →
  framed r q own bound w → framed r q own bound (serve v w i).
Proof.
  intros Hq Hemit Hadv Hr Hw.
  assert (Hnew : r ≠ length (reqs w) →
            framed r q own bound (new_req w)
            ∧ ∀ rep, framed r q own bound
                       (res_json (length (reqs w)) rep (new_req w))).
  { intros Hne. split; [by apply framed_new_req|].
    intros rep. apply framed_res_json; [done|]. by apply framed_new_req. }
  destruct i as [e| sessionId | param readyState |]; simpl in *.
  - apply framed_step; try done.
    + intros h u ->. by apply Hemit.
    + intros t d ->. by apply Hadv.
    + intros He. destruct Hr as [Hr | Hr]; [done|].
      pose proof (step_grows v w e) as Hg. rewrite He in Hg. lia.
  - unfold me_route in *. destruct v; try done;
      (destruct Hr as [Hr | Hr];
       [destruct (Hnew Hr) as [H1 H2]; by repeat case_match
       |exfalso; revert Hr; repeat case_match; simpl;
        rewrite ?length_alter, ?length_app; simpl; lia]).
  - unfold status_route in *. destruct v; try done.
    destruct Hr as [Hr | Hr];
      [destruct (Hnew Hr) as [H1 H2]; by repeat case_match
      |exfalso; revert Hr; repeat case_match; simpl;
       rewrite ?length_alter, ?length_app; simpl; lia].
  - unfold health_route in *. destruct v; try done;
      (destruct Hr as [Hr | Hr];
       [by destruct (Hnew Hr) as [H1 H2]
       |exfalso; revert Hr; simpl;
        rewrite ?length_alter, ?length_app; simpl; lia]).
Qed.

Lemma framed_serve_all v r q h d inputs : ∀ w,
  (∀ t, timer q = Some t → due t = d) →
  Forall (quiet_input h d) inputs →
  framed r (Some q) (Some h) (Some d) w →
  framed r (Some q) (Some h) (Some d) (serve_all v w inputs).
Proof.
  induction inputs as [|i inputs IH]; intros w Hq Hes Hw; simpl; [done|].
  apply Forall_cons in Hes as [He Hes].
  apply IH; [done..|]. apply framed_serve; try done.
  - intros t Ht. simpl in Ht. by rewrite (Hq t Ht).
  - intros h' u -> [= ->]. by apply He.
  - intros t d' -> [= <-]. exact He.
  - left. apply fr_req, lookup_lt_Some in Hw. lia.
Qed.

(** In a state of the service, an index no request has yet is referred to
    by no suspended task and by no listener. *)
Lemma fresh_unused v inputs r :
  length (reqs (serve_all v empty_world inputs)) ≤ r →
  unused r (serve_all v empty_world inputs).
Proof.
  intros Hr.
  assert (Hf : framed r None None None (serve_all v empty_world inputs)).
  { revert r Hr. induction inputs as [|i inputs IH] using rev_ind; intros r Hr.
    - by constructor.
    - unfold serve_all in *. rewrite foldl_app in *. simpl in *.
      pose proof (serve_grows v (foldl (serve v) empty_world inputs) i) as Hg.
      apply framed_serve; try done.
      + destruct (decide (r = length (reqs (foldl (serve v) empty_world inputs))));
          [right; lia|by left].
      + apply IH. lia. }
  split.
  - apply (fr_tasks _ _ _ _ _ Hf).
  - intros h s g Hs Hg Hreq.
    by destruct (fr_listeners _ _ _ _ _ Hf h s g Hs Hg Hreq).
Qed.

(** The QR route of server.js leaves an untouched request [r] waiting on the
    socket, its timer armed for 10 s from now. *)
Lemma server_route_arms r id h w :
  framed r (Some untouched) None None w →
  framed r (Some (waiting server (now w + 10000) id h)) (Some h)
         (Some (now w + 10000)%Z) (qr_route_k server r id (of_sock h) w).
Proof.
  intros [H1 H2 H3 H4]. unfold qr_route_k. cbv zeta. simpl sock.
  constructor; simpl.
  - by rewrite list_lookup_alter_eq, H1.
  - done.
  - intros h' s' g Hs' Hg Hreq.
    destruct (decide (h = h')) as [<- | Hne].
    + split; [done|].
      rewrite list_lookup_alter_eq in Hs'.
      destruct (socks w !! h) as [s0|] eqn:Hs0; simplify_eq/=.
      apply elem_of_app in Hg as [Hg | Hg].
      * by destruct (H3 h s0 g).
      * apply list_elem_of_singleton in Hg as ->. by exists id.
    + rewrite list_lookup_alter_ne in Hs' by done.
      by destruct (H3 h' s' g) as [? _].
  - intros d [= <-]. lia.
Qed.

(** What the closure variables of a waiting request become when its timer
    fires in server.js. *)
Lemma server_fire_due r q own w tm :
  framed r (Some q) own None w →
  timer q = Some tm →
  responded q = false →
  clear_on_finish q = false →
  (due tm ≤ now w)%Z →
  framed r
    (Some (mkReq true (qrData q) None false (replies q ++ [qr_timeout_reply])))
    own None (fire server w r).
Proof.
  intros Hw Ht Hresp Hclear Hdue.
  unfold fire. rewrite (fr_req _ _ _ _ _ Hw). simpl. rewrite Ht.
  rewrite bool_decide_eq_true_2 by done.
  assert (Hnot : is_responded r (timer_done r w) = false).
  { unfold is_responded, timer_done. simpl.
    by rewrite list_lookup_alter_eq, (fr_req _ _ _ _ _ Hw). }
  unfold timeout_cb. rewrite Hnot. cbv zeta. simpl negb. cbv iota.
  apply framed_ev_off.
  apply (framed_with_req_self r _ own None
           (λ q, mkReq (responded q) (qrData q) None (clear_on_finish q)
                       (replies q))) in Hw.
  apply (framed_with_req_self r _ own None
           (λ q, mkReq true (qrData q) (timer q) (clear_on_finish q)
                       (replies q))) in Hw.
  apply (framed_with_req_self r _ own None
           (λ q, mkReq (responded q) (qrData q)
                       (if clear_on_finish q then None else timer q)
                       (clear_on_finish q)
                       (replies q ++ [qr_timeout_reply]))) in Hw.
  simpl in Hw. by rewrite Hclear in Hw.
Qed.

Lemma server_advance_fires r q own bound w tm t :
  framed r (Some q) own bound w →
  timer q = Some tm →
  responded q = false →
  clear_on_finish q = false →
  (due tm ≤ t)%Z →
  framed r
    (Some (mkReq true (qrData q) None false (replies q ++ [qr_timeout_reply])))
    own None (advance server t w).
Proof.
  intros Hw Ht Hresp Hclear Hdue. unfold advance.
  set (w0 := set_now (Z.max (now w) t) w).
  assert (Hw0 : framed r (Some q) own None w0).
  { apply framed_set_now; [done|]. by apply framed_unbounded with bound. }
  assert (Hr : r < length (reqs w0))
    by (eapply lookup_lt_Some, fr_req, Hw0).
  replace (length (reqs w0)) with (r + (1 + (length (reqs w0) - S r))) by lia.
  rewrite !seq_app, !foldl_app. simpl.
  destruct (foldl_fire_others server r (Some q) own (seq 0 r) w0)
    as [H1 Hnow1]; [|done|].
  { rewrite elem_of_seq. lia. }
  set (w1 := foldl (fire server) w0 (seq 0 r)) in *.
  assert (Hdue1 : (due tm ≤ now w1)%Z) by (rewrite Hnow1; subst w0; simpl; lia).
  assert (H2 := server_fire_due r q own w1 tm H1 Ht Hresp Hclear Hdue1).
  apply (foldl_fire_others server r _ own
           (seq (r + 1) (length (reqs w0) - S r))) in H2 as [H3 _]; [done|].
  rewrite elem_of_seq. lia.
Qed.

(** In server.js a QR request for a stored session is unanswered as long as
    its socket emits neither a QR payload nor ["open"] and the clock is
    before 10 s from the request, whatever else the service is asked to do;
    when the clock reaches that deadline the request gets the 504 reply
    ["QR timeout"], as its one reply, and [responded] is set. *)
Theorem server_qr_times_out inputs id rnd h quiet t :
  let w := serve_all server empty_world inputs in
  let r := length (reqs w) in
  let d := (now w + 10000)%Z in
  sessions w !! id = Some h →
  Forall (quiet_input h d) quiet →
  (d ≤ t)%Z →
  let w1 := serve_all server (serve server w (Core (GetQR (Some id) rnd))) quiet in
  replies_of r w1 = []
  ∧ replies_of r (serve server w1 (Core (Advance t))) = [qr_timeout_reply]
  ∧ is_responded r (serve server w1 (Core (Advance t))) = true.
Proof.
  intros w r d Hid Hquiet Ht w1.
  assert (Hw : framed r (Some (waiting server d id h)) (Some h) (Some d)
                 (serve server w (Core (GetQR (Some id) rnd)))).
  { simpl. unfold qr_route, createSession, session_id, find_session.
    cbv zeta. simpl. fold w. rewrite Hid. simpl.
    apply (server_route_arms r id h (new_req w)).
    apply unused_framed. by apply fresh_unused. }
  assert (Hrun : framed r (Some (waiting server d id h)) (Some h) (Some d) w1).
  { apply framed_serve_all; try done. by intros tm [= <-]. }
  pose proof (server_advance_fires r _ (Some h) _ _ (mkTimer d id h) t Hrun
                eq_refl eq_refl eq_refl Ht) as Hend.
  repeat split.
  - unfold replies_of. by rewrite (fr_req _ _ _ _ _ Hrun).
  - unfold replies_of. simpl. by rewrite (fr_req _ _ _ _ _ Hend).
  - unfold is_responded. simpl. by rewrite (fr_req _ _ _ _ _ Hend).
Qed.

Lemma server_qr_times_out_witness :
  let w := serve_all server empty_world
             [Core (GetQR (Some "s1") ""); Core (Settle 0 ok None);
              Core (Settle 1 ok blank); Core (Advance 10000)] in
  let quiet := [Core (Emit 0 (mkUpdate None (Some "connecting")));
                GetHealth; Core (GetQR (Some "s1") "");
                Core (Advance 19999)] in
  let w1 := serve_all server (serve server w (Core (GetQR (Some "s1") "")))
              quiet in
  replies_of 1 w1 = []
  ∧ replies_of 1 (serve server w1 (Core (Advance 20000))) = [qr_timeout_reply]
  ∧ is_responded 1 (serve server w1 (Core (Advance 20000))) = true.
Proof.
  apply (server_qr_times_out
           [Core (GetQR (Some "s1") ""); Core (Settle 0 ok None);
            Core (Settle 1 ok blank); Core (Advance 10000)]
           "s1" "" 0
           [Core (Emit 0 (mkUpdate None (Some "connecting")));
            GetHealth; Core (GetQR (Some "s1") ""); Core (Advance 19999)]
           20000).
  - reflexivity.
  - repeat constructor; simpl; try lia. discriminate.
  - by vm_compute.
Defined.

(** ** The process ends *)

(** Once the process has ended, no input changes anything. *)
Lemma turns_cons v w i inputs :
  turns v w (i :: inputs) = turns v (turn v w i) inputs.
Proof. done. Qed.

Lemma turn_down v w i : down w = true → turn v w i = w.
Proof. intros Hw. unfold turn. by rewrite Hw. Qed.

Lemma turn_running v w i : down w = false → turn v w i = serve v w i.
Proof. intros Hw. unfold turn. by rewrite Hw. Qed.

Lemma turns_down v inputs w : down w = true → turns v w inputs = w.
Proof.
  intros Hw. induction inputs as [|i inputs IH]; [done|].
  by rewrite turns_cons, turn_down.
Qed.

Lemma turns_app v w xs ys :
  turns v w (xs ++ ys) = turns v (turns v w xs) ys.
Proof. apply foldl_app. Qed.

(** A process that still runs has served every input it was given. *)
Lemma turns_running v inputs : ∀ w,
  down (turns v w inputs) = false →
  down w = false ∧ turns v w inputs = serve_all v w inputs.
Proof.
  induction inputs as [|i inputs IH]; intros w Hup; [done|].
  rewrite turns_cons in *.
  destruct (down w) eqn:Hw.
  - rewrite turn_down, turns_down in Hup by done. congruence.
  - split; [done|]. rewrite turn_running in * by done.
    by apply IH.
Qed.

Lemma turns_running_prefix v w xs ys :
  down (turns v w (xs ++ ys)) = false → down (turns v w xs) = false.
Proof.
  rewrite turns_app. intros Hup. by apply turns_running in Hup as [? _].
Qed.

(** A createSession that throws into a route of ban-md.js or part_000 ends
    the process. *)
Lemma throw_to_exits v k w : long_poll v → exited (throw_to v k w) = true.
Proof. by intros [-> | ->]. Qed.

(** ** The timer of a waiting request, while the process runs *)

Lemma waiting_times_out_serving v r id h d w inputs t :
  long_poll v →
  framed r (Some (waiting v d id h)) (Some h) (Some d) w →
  Forall (quiet_input h d) inputs →
  (d ≤ t)%Z →
  replies_of r (serve_all v w inputs) = []
  ∧ replies_of r (serve v (serve_all v w inputs) (Core (Advance t))) =
      [qr_unavailable_reply id].
Proof.
  intros Hv Hw Hes Ht.
  assert (Hrun : framed r (Some (waiting v d id h)) (Some h) (Some d)
                   (serve_all v w inputs)).
  { apply framed_serve_all; try done. by intros tm [= <-]. }
  split.
  - unfold replies_of. by rewrite (fr_req _ _ _ _ _ Hrun).
  - unfold replies_of. simpl.
    by rewrite (fr_req _ _ _ _ _
                  (advance_fires v r _ (Some h) _ _ (mkTimer d id h) t Hv Hrun
                     eq_refl eq_refl Ht)).
Qed.

(** In ban-md.js and part_000 the QR route arms its timer, for the delay of
    the variant (10 s and 25 s), at the moment it starts to wait: in the
    tick of the request when the session is stored, and in the tick in
    which [createSession] finishes the construction otherwise.  From there
    on, through any inputs that bring neither a QR payload nor ["open"] on
    the session's socket while the clock is before the deadline, and as
    long as the process has not ended by then, the request has no reply;
    and when the clock reaches the deadline the timeout reply is made, as
    the request's one reply. *)
Theorem qr_wait_times_out_while_running v quiet t :
  long_poll v →
  (∀ inputs param rnd id l s,
     let w := turns v empty_world inputs in
     wanted param = Some id →
     sessions w !! id = Some l →
     objs w !! l = Some s →
     sock_user (sock s) w = None →
     fresh_qr s w = None →
     let r := length (reqs w) in
     let d := (now w + qr_timeout v)%Z in
     Forall (quiet_input (sock s) d) quiet →
     (d ≤ t)%Z →
     let w1 := turns v w (Core (GetQR param rnd) :: quiet) in
     down w1 = false →
     replies_of r w1 = []
     ∧ replies_of r (turn v w1 (Core (Advance t))) = [qr_unavailable_reply id])
  ∧ (∀ w k r id x m,
       tasks w !! k = Some (Some (AwaitVersion (QrRoute r) id)) →
       reqs w !! r = Some untouched →
       (∀ k' t', tasks w !! k' = Some (Some t') → task_req t' = Some r → k' = k) →
       (∀ h s g, socks w !! h = Some s → g ∈ listeners s →
                 listener_req (fn g) ≠ Some r) →
       made_user m = None →
       let d := (now w + qr_timeout v)%Z in
       Forall (quiet_input (length (socks w)) d) quiet →
       (d ≤ t)%Z →
       let w1 := turns v w (Core (Settle k (Fulfilled x) (Some m)) :: quiet) in
       down w1 = false →
       replies_of r w1 = []
       ∧ replies_of r (turn v w1 (Core (Advance t))) =
           [qr_unavailable_reply id])
  ∧ qr_timeout ban_md = 10000%Z
  ∧ qr_timeout part_000 = 25000%Z.
Proof.
  intros Hv. split; [|split; [|done]].
  - intros inputs param rnd id l s w Hp Hid Hl Hu Hf r d Hes Ht w1 Hup.
    assert (Hall : w1 = turns v empty_world
                          (inputs ++ Core (GetQR param rnd) :: quiet))
      by (subst w1 w; by rewrite turns_app).
    assert (Hw : down w = false).
    { subst w. apply (turns_running_prefix v empty_world inputs
                        (Core (GetQR param rnd) :: quiet)).
      by rewrite <- Hall. }
    assert (Hserved : w = serve_all v empty_world inputs)
      by (subst w; by apply turns_running).
    destruct (turns_running v _ _ Hup) as [_ Hw1].
    rewrite turn_running by done. fold w1 in Hw1. rewrite Hw1.
    change (serve_all v w (Core (GetQR param rnd) :: quiet))
      with (serve_all v (step v w (GetQR param rnd)) quiet).
    rewrite (qr_route_stored v w param rnd id l s) by done.
    apply waiting_times_out_serving with (sock s) d; try done.
    apply (qr_route_k_arms v r id s (new_req w)); try done.
    apply unused_framed. subst r. rewrite Hserved. by apply fresh_unused.
  - intros w k r id x m Hk Hr Honly Hnone Hm d Hes Ht w1 Hup.
    destruct (turns_running v _ _ Hup) as [_ Hw1].
    rewrite turn_running by done. fold w1 in Hw1. rewrite Hw1.
    change (serve_all v w (Core (Settle k (Fulfilled x) (Some m)) :: quiet))
      with (serve_all v (step v w (Settle k (Fulfilled x) (Some m))) quiet).
    rewrite (settle_pending _ _ _ _ _ _ Hk).
    cbn [resume]. unfold version_settled.
    set (h := length (socks w)) in *.
    assert (H0 : framed r (Some untouched) None None
                   (call MakeWASocket (finish_task k w))).
    { constructor; simpl; try done.
      - intros k' t' Hk' Hreq.
        destruct (decide (k = k')) as [<- | Hne].
        + by apply list_lookup_insert_Some in Hk' as [(_ & ? & _) | (? & _)].
        + rewrite list_lookup_insert_ne in Hk' by done.
          apply Hne. symmetry. by apply (Honly k' t').
      - intros h' s g Hs Hg Hreq. by destruct (Hnone h' s g). }
    apply waiting_times_out_serving with h d; try done.
    unfold construct.
    change (length (socks (call MakeWASocket (finish_task k w)))) with h.
    set (w0 := call MakeWASocket (finish_task k w)) in *.
    assert (Hnow : ∀ w', now w' = now w →
              framed r (Some (waiting v (now w' + qr_timeout v) id h)) (Some h)
                (Some (now w' + qr_timeout v)%Z)
                (qr_route_k v r id (mkSession h None 0 None
                   match v with ban_md => "init" | _ => "" end false) w') →
              framed r (Some (waiting v d id h)) (Some h) (Some d)
                (qr_route_k v r id (mkSession h None 0 None
                   match v with ban_md => "init" | _ => "" end false) w')).
    { intros w' Hw'. subst d. by rewrite Hw'. }
    assert (Huser : ∀ w', socks w' !! h =
                      Some (mkSock (made_user m) [] 0 (made_pairing m)) →
              ∀ f g, sock_user h (ev_on h g (on_creds h (with_sessions f w'))) = None).
    { intros w' Hw' f g. unfold sock_user. simpl.
      by rewrite !list_lookup_alter_eq, Hw'. }
    destruct Hv as [-> | ->]; cbv zeta; cbn [return_to];
      (apply Hnow; [done|]);
      (apply (qr_route_k_arms _ r id (mkSession h None 0 None _ false));
       [by (left + right)
       |apply Huser; simpl; subst h; apply lookup_new
       |done
       |]);
      simpl sock;
      auto 10 using framed_ev_on, framed_on_creds, framed_with_sessions,
        framed_new_obj, framed_new_sock.
Qed.

Lemma qr_wait_times_out_while_running_witness :
  (let w := turns ban_md empty_world session_made in
   let r := length (reqs w) in
   let w1 := turns ban_md w (Core (GetQR (Some "s1") "ban-1") :: quiet_inputs) in
   replies_of r w1 = []
   ∧ replies_of r (turn ban_md w1 (Core (Advance 10000))) =
       [qr_unavailable_reply "s1"])
  ∧ (let w1 := turns ban_md constructing_world
                 [Core (Settle 1 (Fulfilled "") blank); Core (Advance 12999)] in
     replies_of 0 w1 = []
     ∧ replies_of 0 (turn ban_md w1 (Core (Advance 13000))) =
         [qr_unavailable_reply "s1"]).
Proof.
  split.
  - assert (Hnow : now (turns ban_md empty_world session_made) = 0%Z)
      by (vm_compute; reflexivity).
    destruct (qr_wait_times_out_while_running ban_md quiet_inputs 10000)
      as [Hstored _]; [by left|].
    apply (Hstored session_made (Some "s1") "ban-1" "s1" 0
             (mkSession 0 None 0 None "init" false)); clear Hstored.
    + reflexivity.
    + vm_compute; reflexivity.
    + vm_compute; reflexivity.
    + vm_compute; reflexivity.
    + vm_compute; reflexivity.
    + rewrite Hnow. unfold quiet_inputs.
      repeat constructor; simpl; try lia. discriminate.
    + rewrite Hnow. simpl. lia.
    + vm_compute; reflexivity.
  - assert (Hnow : now constructing_world = 3000%Z) by (vm_compute; reflexivity).
    assert (Htasks : tasks constructing_world =
                     [None; Some (AwaitVersion (QrRoute 0) "s1")])
      by (vm_compute; reflexivity).
    assert (Hsocks : socks constructing_world = []) by (vm_compute; reflexivity).
    destruct (qr_wait_times_out_while_running ban_md [Core (Advance 12999)] 13000)
      as (_ & Hmade & _); [by left|].
    apply (Hmade constructing_world 1 0 "s1" "" (mkMade None true)); clear Hmade.
    + by rewrite Htasks.
    + vm_compute; reflexivity.
    + rewrite Htasks. intros [|[|k']] t' Hk' _; simpl in Hk'; try discriminate.
      reflexivity.
    + rewrite Hsocks. intros h s g Hs. by rewrite lookup_nil in Hs.
    + reflexivity.
    + rewrite Hnow. repeat constructor.
    + rewrite Hnow. simpl. lia.
    + vm_compute; reflexivity.
Defined.

(** C5.  The timer of a waiting QR request is armed, but in ban-md.js and
    part_000 the timeout reply depends on every other request: both routes
    await [createSession] outside any [try], so when the construction of
    another request fails the process ends, and the waiting request gets no
    reply when its bound elapses, nor later, whatever follows.  Request 0
    waits from time 0 on a session with no cached QR, and no QR or open
    update arrives.  When the construction started by request 1 completes,
    request 0 has no reply before its deadline and the timeout reply at the
    deadline (10 s, and 25 s in part_000).  When that construction fails at
    [fetchLatestBaileysVersion], the process has ended and request 0 is
    never answered. *)
Theorem qr_timeout_lost_when_process_ends :
  let timely v limit :=
    turns v empty_world
      (one_waiting ++ other_starts ++ [other_completes; Core (Advance limit)]) in
  let failed v :=
    turns v empty_world (one_waiting ++ other_starts ++ [other_fails]) in
  let lost v :=
    exited (failed v) = true
    ∧ replies_of 0 (failed v) = []
    ∧ ∀ later,
        turns v empty_world
          (one_waiting ++ other_starts ++ [other_fails] ++ later) = failed v in
  replies_of 0 (timely ban_md 9999%Z) = []
  ∧ replies_of 0 (timely ban_md 10000%Z) = [qr_unavailable_reply "s1"]
  ∧ replies_of 0 (timely part_000 24999%Z) = []
  ∧ replies_of 0 (timely part_000 25000%Z) = [qr_unavailable_reply "s1"]
  ∧ lost ban_md
  ∧ lost part_000.
Proof.
  cbv zeta.
  assert (Hlost : ∀ v,
            down (turns v empty_world
                    (one_waiting ++ other_starts ++ [other_fails])) = true →
            ∀ later,
              turns v empty_world
                (one_waiting ++ other_starts ++ [other_fails] ++ later) =
              turns v empty_world (one_waiting ++ other_starts ++ [other_fails])).
  { intros v Hdown later.
    rewrite !(assoc_L (++)), turns_app, <- !(assoc_L (++)).
    by apply turns_down. }
  split; [vm_compute; reflexivity|].
  split; [vm_compute; reflexivity|].
  split; [vm_compute; reflexivity|].
  split; [vm_compute; reflexivity|].
  split; (split; [vm_compute; reflexivity|]);
    (split; [vm_compute; reflexivity|]);
    apply Hlost; vm_compute; reflexivity.
Qed.

(** C9.  A failed [createSession] leaves the registry as it was, but in
    ban-md.js and part_000 it does not affect the requesting call only: both
    routes await [createSession] outside any [try], the rejection is
    unhandled and the process ends.  Request 0 waits for a QR; the
    [useMultiFileAuthState] of pairing request 1 rejects.  From then on
    nothing is served: neither request is ever answered, the timer of
    request 0 included, and no later request is accepted.  The pairing
    route of server.js awaits inside a [try]: there request 1 is answered
    with status 500, request 0 gets its timeout reply and the next request
    is accepted. *)
Theorem failed_createSession_ends_the_process :
  let ends v :=
    let before := turns v empty_world one_waiting in
    let w := turns v empty_world (one_waiting ++ pair_fails) in
    same_registry before w
    ∧ exited w = true
    ∧ replies_of 0 w = [] ∧ replies_of 1 w = [] ∧ length (reqs w) = 2
    ∧ ∀ later,
        turns v empty_world (one_waiting ++ pair_fails ++ later) = w in
  ends ban_md
  ∧ ends part_000
  ∧ (let w := turns server empty_world
                (one_waiting ++ pair_fails ++ afterwards) in
     down w = false
     ∧ replies_of 1 w = [pair_failed_reply]
     ∧ replies_of 0 w = [qr_timeout_reply]
     ∧ length (reqs w) = 3).
Proof.
  cbv zeta.
  assert (Hends : ∀ v,
            down (turns v empty_world (one_waiting ++ pair_fails)) = true →
            ∀ later,
              turns v empty_world (one_waiting ++ pair_fails ++ later) =
              turns v empty_world (one_waiting ++ pair_fails)).
  { intros v Hdown later. rewrite (assoc_L (++)), turns_app.
    by apply turns_down. }
  split; [|split; [|vm_compute; by repeat split]];
    (split; [vm_compute; by repeat split|]);
    (split; [vm_compute; reflexivity|]);
    (split; [vm_compute; reflexivity|]);
    (split; [vm_compute; reflexivity|]);
    (split; [vm_compute; reflexivity|]);
    apply Hends; vm_compute; reflexivity.
Qed.

(** What a failing construction does to the caller.  In ban-md.js and
    part_000 the step at which [createSession] fails ends the process and
    makes no reply.  In the pairing route of server.js the same step answers
    the caller with status 500 and the process goes on. *)
Theorem failing_construction_outcome v w n t k o mk :
  tasks w !! n = Some (Some t) →
  creating t = Some k →
  construction_fails t o mk →
  let w' := step v w (Settle n o mk) in
  (long_poll v → exited w' = true ∧ reqs w' = reqs w)
  ∧ (∀ r sessionId phone,
       v = server → k = PairRoute r sessionId phone →
       r < length (reqs w) →
       exited w' = exited w
       ∧ replies_of r w' = replies_of r w ++ [pair_failed_reply]).
Proof.
  intros Hn Hk Hfail w'. subst w'.
  rewrite (settle_pending _ _ _ _ _ _ Hn).
  assert (Hthrow : ∃ w1, reqs w1 = reqs w ∧ exited w1 = exited w
            ∧ resume v t o mk (finish_task n w) = throw_to v k w1).
  { destruct t; try done; simpl in Hk; injection Hk as ->; simpl in *.
    - destruct Hfail as [m ->]. by exists (finish_task n w).
    - unfold version_settled. destruct Hfail as [[m ->] | ->].
      + by exists (finish_task n w).
      + destruct o;
          [by exists (call MakeWASocket (finish_task n w))
          |by exists (finish_task n w)]. }
  destruct Hthrow as (w1 & Hreqs & Hex & ->). split.
  - intros [-> | ->]; by rewrite <- Hreqs.
  - intros r sessionId phone -> -> Hr. simpl. split; [done|].
    unfold replies_of. simpl. rewrite list_lookup_alter_eq, Hreqs.
    apply lookup_lt_is_Some in Hr as [q ->]. done.
Qed.

Lemma failing_construction_outcome_witness :
  (let w := turns ban_md empty_world one_waiting in
   let w' := step ban_md (step ban_md w (GetPair "s2" "256700000000" "ban-1"))
                  (Settle 2 (Rejected "EACCES") None) in
   exited w' = true)
  ∧ (let w := turns server empty_world one_waiting in
     let w' := step server (step server w (GetPair "s2" "256700000000" "ban-1"))
                    (Settle 2 (Rejected "EACCES") None) in
     exited w' = false ∧ replies_of 1 w' = [pair_failed_reply]).
Proof.
  split.
  - cbv zeta.
    set (w := step ban_md (turns ban_md empty_world one_waiting)
                (GetPair "s2" "256700000000" "ban-1")).
    destruct (failing_construction_outcome ban_md w 2
                (AwaitAuthState (PairRoute 1 "s2" "256700000000") "s2")
                (PairRoute 1 "s2" "256700000000") (Rejected "EACCES") None)
      as [Hexit _].
    + vm_compute; reflexivity.
    + reflexivity.
    + by exists "EACCES".
    + by destruct Hexit as [? _]; [left|].
  - cbv zeta.
    set (w := step server (turns server empty_world one_waiting)
                (GetPair "s2" "256700000000" "ban-1")).
    destruct (failing_construction_outcome server w 2
                (AwaitAuthState (PairRoute 1 "s2" "256700000000") "s2")
                (PairRoute 1 "s2" "256700000000") (Rejected "EACCES") None)
      as [_ Hreply].
    + vm_compute; reflexivity.
    + reflexivity.
    + by exists "EACCES".
    + destruct (Hreply 1 "s2" "256700000000" eq_refl eq_refl) as [Hex Hrep].
      * vm_compute. lia.
      * split; [by rewrite Hex|by rewrite Hrep].
Defined.

(** ** The sockets of the query-string API *)

Lemma deliver_probe h u w r :
  deliver part_003 h u w (probe r) =
    if Js.truthy_opt (u_qr u) then set_qrData r (u_qr u) w else w.
Proof. done. Qed.

Lemma listeners_of_blank u c p w h :
  listeners_of h (new_sock (mkSock u [] c p) w) = listeners_of h w.
Proof.
  rewrite listeners_of_new_sock. case_decide as Hh; [|done]. subst h.
  unfold listeners_of. by rewrite lookup_ge_None_2.
Qed.

Section Api.
Variables (h0 : nat) (gs0 : list Registration).

Local Abbreviation api_ok := (api_ok h0 gs0).

Lemma api_ok_frame w w' :
  (∀ h, listeners_of h w' = listeners_of h w) →
  objs w' = objs w →
  length (socks w') = length (socks w) →
  api_ok w → api_ok w'.
Proof.
  intros Hl Ho Hs (H1 & H2 & H3). split_and!.
  - intros h g. rewrite Hl. apply H1.
  - rewrite Ho, Hs. apply H2.
  - by rewrite Hl.
Qed.

Lemma api_ok_with_req r f w : api_ok w → api_ok (with_req r f w).
Proof. by apply api_ok_frame. Qed.

Lemma api_ok_kept h f w :
  (∀ s, listeners (f s) = listeners s) → api_ok w → api_ok (with_sock h f w).
Proof.
  intros Hf. apply api_ok_frame; simpl; [|done|by rewrite length_alter].
  intros h'. by apply listeners_of_kept.
Qed.

Lemma api_ok_ev_on h r w : api_ok w → api_ok (ev_on h (probe r) w).
Proof.
  intros (H1 & H2 & H3). split_and!.
  - intros h' g. rewrite listeners_of_ev_on.
    intros [Hg | Hg]%elem_of_app; [by apply (H1 h')|].
    case_bool_decide; [|by apply elem_of_nil in Hg].
    apply list_elem_of_singleton in Hg as ->. by exists r.
  - simpl. rewrite length_alter. apply H2.
  - rewrite listeners_of_ev_on. by apply prefix_app_r.
Qed.

Lemma api_ok_new_sock u c p w :
  api_ok w → api_ok (new_sock (mkSock u [] c p) w).
Proof.
  intros (H1 & H2 & H3). split_and!.
  - intros h' g. rewrite listeners_of_blank. apply H1.
  - simpl. rewrite length_app. simpl. intros l s Hl.
    pose proof (H2 l s Hl). lia.
  - by rewrite listeners_of_blank.
Qed.

Lemma api_ok_new_obj s w :
  sock s < length (socks w) → api_ok w → api_ok (new_obj s w).
Proof.
  intros Hs (H1 & H2 & H3). split_and!; [done| |done].
  simpl. intros l s' [Hl | [_ Hl]]%lookup_app_Some; [by apply (H2 l)|].
  apply list_lookup_singleton_Some in Hl as [_ <-]. done.
Qed.

Lemma api_ok_with_obj l f w :
  (∀ s, sock (f s) = sock s) → api_ok w → api_ok (with_obj l f w).
Proof.
  intros Hf (H1 & H2 & H3). split_and!; [done| |done].
  simpl. intros l' s'. destruct (decide (l = l')) as [<- | Hne].
  - rewrite list_lookup_alter_eq.
    destruct (objs w !! l) as [s|] eqn:Hl; [|done].
    intros [= <-]. rewrite Hf. by apply (H2 l).
  - rewrite list_lookup_alter_ne by done. apply H2.
Qed.

Ltac api_tac :=
  repeat first
    [ assumption
    | apply api_ok_with_req
    | apply api_ok_ev_on
    | match goal with
      | Hw : api_ok ?w0 |- api_ok ?w1 =>
          exact (api_ok_frame w0 w1 (λ _, eq_refl) eq_refl eq_refl Hw)
      end ].

Lemma api_ok_return_to k id s w :
  api_ok w → api_ok (return_to part_003 k id s w).
Proof.
  intros Hw. destruct k; simpl; unfold qr_route_k, pair_route_k; cbv zeta.
  - apply api_ok_with_req. by apply (api_ok_ev_on _ r).
  - case_match; [|by apply api_ok_with_req]. api_tac.
Qed.

Lemma api_ok_createSession sessionId rnd k w :
  api_ok w → api_ok (createSession part_003 sessionId rnd k w).
Proof.
  intros Hw. unfold createSession. cbv zeta. case_match.
  - by apply api_ok_return_to.
  - done.
  - api_tac.
Qed.

Lemma api_ok_construct k id m w :
  api_ok w → api_ok (construct part_003 k id m w).
Proof.
  intros Hw. unfold construct. cbv zeta.
  apply api_ok_return_to.
  match goal with
  | |- api_ok (with_sessions ?f ?w1) =>
      apply (api_ok_frame w1); [done..|]
  end.
  apply api_ok_new_obj.
  - simpl. rewrite length_alter, length_app. simpl. lia.
  - apply api_ok_kept; [done|]. by apply api_ok_new_sock.
Qed.

Lemma api_ok_settle k o mk w :
  api_ok w → api_ok (settle part_003 k o mk w).
Proof.
  intros Hw. unfold settle. destruct (tasks w !! k) as [[t|]|]; try done.
  assert (Hf : api_ok (finish_task k w)) by api_tac.
  revert Hf. generalize (finish_task k w). clear Hw. intros w' Hw.
  destruct t as [c id|c id|r id p|r id h u|r sid id|l]; simpl.
  - unfold auth_settled. case_match; [api_tac|done].
  - unfold version_settled. repeat case_match; try done.
    apply api_ok_construct. api_tac.
  - unfold cached_encoded. case_match; api_tac.
  - destruct o; [|done]. unfold handler_open.
    case_match; api_tac.
  - destruct o; api_tac.
  - apply api_ok_with_obj; done.
Qed.

Lemma api_ok_delivered h u gs : ∀ w,
  (∀ g, g ∈ gs → ∃ r, g = probe r) →
  api_ok w → api_ok (foldl (deliver part_003 h u) w gs).
Proof.
  induction gs as [|g gs IH]; intros w Hgs Hw; simpl; [done|].
  apply IH; [intros g' Hg'; apply Hgs; by right|].
  destruct (Hgs g) as [r ->]; [by left|].
  rewrite deliver_probe. case_match; api_tac.
Qed.

Lemma api_ok_emit h u w : api_ok w → api_ok (emit part_003 h u w).
Proof.
  intros Hw. unfold emit. destruct (socks w !! h) as [s|] eqn:Hs; [|done].
  apply api_ok_delivered; [|done].
  intros g Hg. destruct Hw as (H1 & _). apply (H1 h).
  unfold listeners_of. by rewrite Hs.
Qed.

Lemma api_ok_fires rs : ∀ w,
  api_ok w → api_ok (foldl (fire part_003) w rs).
Proof.
  induction rs as [|r rs IH]; intros w Hw; simpl; [done|].
  apply IH. unfold fire, timeout_cb. repeat case_match; api_tac.
Qed.

Lemma api_ok_serve w i : api_ok w → api_ok (serve part_003 w i).
Proof.
  intros Hw. destruct i as [[param rnd|sessionId phone rnd|k o mk|h u|h who|t]
                           |sessionId|param readyState|]; simpl.
  - unfold qr_route. cbv zeta. apply api_ok_createSession. api_tac.
  - unfold pair_route. cbv zeta. case_match.
    + apply api_ok_createSession. api_tac.
    + api_tac.
  - by apply api_ok_settle.
  - by apply api_ok_emit.
  - by apply api_ok_kept.
  - unfold advance. apply api_ok_fires. api_tac.
  - done.
  - unfold status_route. cbv zeta. repeat case_match; api_tac.
  - done.
Qed.

End Api.

Lemma api_ok_serve_all h gs inputs : ∀ w,
  api_ok h gs w → api_ok h gs (serve_all part_003 w inputs).
Proof.
  induction inputs as [|i inputs IH]; intros w Hw; simpl; [done|].
  by apply IH, api_ok_serve.
Qed.

Lemma api_ok_start inputs h :
  api_ok h [] (serve_all part_003 empty_world inputs).
Proof.
  apply api_ok_serve_all. split_and!.
  - intros h' g Hg. unfold listeners_of in Hg. simpl in Hg.
    by apply elem_of_nil in Hg.
  - intros l s Hl. simpl in Hl. by rewrite lookup_nil in Hl.
  - apply prefix_nil.
Qed.

Lemma api_ok_here h gs w : api_ok h gs w → api_ok h (listeners_of h w) w.
Proof. intros (H1 & H2 & _). by split_and!. Qed.

(** The query-string API never takes a listener off a socket: whatever
    the service does after some inputs, the ["connection.update"] listeners
    a socket had are still registered on it, in the same order, before any
    that were added since; and every one of them is the probe of a /qr
    request, registered with [on]. *)
Theorem query_api_keeps_listeners inputs more h :
  listeners_of h (serve_all part_003 empty_world inputs)
    `prefix_of`
    listeners_of h (serve_all part_003 empty_world (inputs ++ more))
  ∧ ∀ g, g ∈ listeners_of h (serve_all part_003 empty_world inputs) →
         ∃ r, g = probe r.
Proof.
  pose proof (api_ok_start inputs h) as Hw.
  split.
  - unfold serve_all. rewrite foldl_app.
    apply api_ok_here in Hw.
    by apply (api_ok_serve_all h _ more) in Hw as (_ & _ & Hp).
  - destruct Hw as (H1 & _). apply H1.
Qed.

(** ** A probing request *)

Section Probing.
Variables (r h : nat) (q : Req) (bound : option Z).

Local Abbreviation probing := (probing r h q bound).

Lemma probing_frame w w' :
  reqs w' !! r = reqs w !! r →
  tasks w' = tasks w →
  now w' = now w →
  (∀ h', listeners_of h' w' = listeners_of h' w) →
  probing w → probing w'.
Proof.
  intros Hr Ht Hn Hl [H1 H2 H3 H4 H5]. constructor.
  - by rewrite Hr.
  - by rewrite Ht.
  - by rewrite Hl.
  - intros h' g. rewrite Hl. apply H4.
  - by rewrite Hn.
Qed.

Lemma probing_with_req r' f w :
  r' ≠ r → probing w → probing (with_req r' f w).
Proof.
  intros Hne. apply probing_frame; simpl; try done.
  by rewrite list_lookup_alter_ne.
Qed.

Lemma probing_new_req w : probing w → probing (new_req w).
Proof.
  intros Hw. apply (probing_frame w); simpl; try done.
  rewrite lookup_app_l; [done|]. eapply lookup_lt_Some, pb_req, Hw.
Qed.

Lemma probing_kept h' f w :
  (∀ s, listeners (f s) = listeners s) →
  probing w → probing (with_sock h' f w).
Proof.
  intros Hf. apply probing_frame; simpl; try done.
  intros h''. by apply listeners_of_kept.
Qed.

Lemma probing_ev_on h' g w :
  listener_req (fn g) ≠ Some r → probing w → probing (ev_on h' g w).
Proof.
  intros Hg [H1 H2 H3 H4 H5]. constructor; try done.
  - rewrite listeners_of_ev_on. apply elem_of_app. by left.
  - intros h'' g'. rewrite listeners_of_ev_on.
    intros [Hin | Hin]%elem_of_app; [by apply H4|].
    case_bool_decide; [|by apply elem_of_nil in Hin].
    by apply list_elem_of_singleton in Hin as ->.
Qed.

Lemma probing_new_sock u c p w :
  probing w → probing (new_sock (mkSock u [] c p) w).
Proof.
  apply probing_frame; try done. intros h'. apply listeners_of_blank.
Qed.

Lemma probing_spawn t w :
  task_req t ≠ Some r → probing w → probing (spawn t w).
Proof.
  intros Ht [H1 H2 H3 H4 H5]. constructor; try done.
  simpl. intros k t' [Hk | [_ Hk]]%lookup_app_Some; [by apply (H2 k)|].
  apply list_lookup_singleton_Some in Hk as [_ [= <-]]. done.
Qed.

Lemma probing_finish k w : probing w → probing (finish_task k w).
Proof.
  intros [H1 H2 H3 H4 H5]. constructor; try done.
  simpl. intros k' t Hk.
  apply list_lookup_insert_Some in Hk as [(_ & ? & _) | (_ & Hk)]; [done|].
  by apply (H2 k').
Qed.

Lemma probing_set_now t w :
  (∀ d, bound = Some d → (t < d)%Z) → probing w → probing (set_now t w).
Proof. intros Ht [H1 H2 H3 H4 H5]. by constructor. Qed.

Ltac probe_tac :=
  repeat first
    [ assumption
    | apply probing_with_req; [congruence|]
    | apply probing_new_req
    | apply probing_finish
    | apply probing_spawn; [simpl; congruence|]
    | apply probing_ev_on; [simpl; congruence|]
    | match goal with
      | Hw : probing ?w0 |- probing ?w1 =>
          exact (probing_frame w0 w1 eq_refl eq_refl eq_refl (λ _, eq_refl) Hw)
      end ].

Lemma probing_return_to k id s w :
  caller_req k ≠ r → probing w → probing (return_to part_003 k id s w).
Proof.
  intros Hk Hw. destruct k; simpl in *; unfold qr_route_k, pair_route_k;
    cbv zeta; repeat case_match; probe_tac.
Qed.

Lemma probing_createSession sessionId rnd k w :
  caller_req k ≠ r →
  probing w → probing (createSession part_003 sessionId rnd k w).
Proof.
  intros Hk Hw. unfold createSession. cbv zeta. case_match.
  - by apply probing_return_to.
  - done.
  - probe_tac.
Qed.

Lemma probing_construct k id m w :
  caller_req k ≠ r → probing w → probing (construct part_003 k id m w).
Proof.
  intros Hk Hw. unfold construct. cbv zeta.
  apply probing_return_to; [done|].
  match goal with
  | |- probing (with_sessions ?f (new_obj ?s ?w1)) =>
      apply (probing_frame w1); [done..|]
  end.
  apply probing_kept; [done|]. by apply probing_new_sock.
Qed.

Lemma probing_settle k o mk w :
  probing w → probing (settle part_003 k o mk w).
Proof.
  intros Hw. unfold settle.
  destruct (tasks w !! k) as [[t|]|] eqn:Ht; try done.
  pose proof (pb_tasks _ _ _ _ _ Hw k t Ht) as Hne.
  assert (Hf : probing (finish_task k w)) by probe_tac.
  revert Hf. generalize (finish_task k w). clear Hw Ht. intros w' Hw.
  destruct t as [c id|c id|r' id p|r' id h' u|r' sid id|l]; simpl in *.
  - unfold auth_settled. case_match; [|done].
    apply probing_spawn; [simpl; congruence|]. probe_tac.
  - unfold version_settled. repeat case_match; try done;
      [apply probing_construct; [congruence|]|simpl]; probe_tac.
  - unfold cached_encoded. case_match; probe_tac.
  - destruct o; [|probe_tac]. unfold handler_open.
    case_match; probe_tac.
  - destruct o; probe_tac.
  - unfold send_settled. probe_tac.
Qed.

Lemma probing_fire_other w r' :
  r' ≠ r → probing w → probing (fire part_003 w r').
Proof.
  intros Hr Hw. unfold fire, timeout_cb. repeat case_match; probe_tac.
Qed.

Lemma probing_fire_early w :
  (∀ t, timer q = Some t → bound = Some (due t)) →
  probing w → probing (fire part_003 w r).
Proof.
  intros Hq Hw. unfold fire. rewrite (pb_req _ _ _ _ _ Hw). simpl.
  destruct (timer q) as [t|] eqn:Ht; [|done].
  pose proof (pb_now _ _ _ _ _ Hw _ (Hq t eq_refl)).
  rewrite bool_decide_eq_false_2; [done|lia].
Qed.

Lemma probing_advance t w :
  (∀ t, timer q = Some t → bound = Some (due t)) →
  (∀ d, bound = Some d → (t < d)%Z) →
  probing w → probing (advance part_003 t w).
Proof.
  intros Hq Ht Hw. unfold advance.
  assert (Hw' : probing (set_now (Z.max (now w) t) w)).
  { apply probing_set_now; [|done]. intros d Hd.
    pose proof (pb_now _ _ _ _ _ Hw _ Hd). pose proof (Ht d Hd). lia. }
  change (length (reqs (set_now (Z.max (now w) t) w)))
    with (length (reqs w)).
  revert Hw'. generalize (set_now (Z.max (now w) t) w).
  induction (seq 0 (length (reqs w))) as [|r' rs IH]; intros w' Hw'; simpl;
    [done|].
  apply IH. destruct (decide (r' = r)) as [-> | Hr].
  - by apply probing_fire_early.
  - by apply probing_fire_other.
Qed.

(** Every input but an emit leaves the request as it is, as long as the
    clock stays before the bound. *)
Lemma probing_serve i w :
  (∀ t, timer q = Some t → bound = Some (due t)) →
  (∀ t d, i = Core (Advance t) → bound = Some d → (t < d)%Z) →
  (∀ h' u, i ≠ Core (Emit h' u)) →
  probing w → probing (serve part_003 w i).
Proof.
  intros Hq Hadv Hemit Hw.
  assert (Hr : r ≠ length (reqs w)).
  { apply pb_req, lookup_lt_Some in Hw. lia. }
  destruct i as [[param rnd|sessionId phone rnd|k o mk|h' u|h' who|t]
                |sessionId|param readyState|]; simpl.
  - unfold qr_route. cbv zeta. apply probing_createSession; [done|].
    probe_tac.
  - unfold pair_route. cbv zeta. case_match.
    + apply probing_createSession; [done|]. probe_tac.
    + probe_tac.
  - by apply probing_settle.
  - by destruct (Hemit h' u).
  - by apply probing_kept.
  - apply probing_advance; [done| |done]. intros d Hd. by apply (Hadv t).
  - done.
  - unfold status_route. cbv zeta. repeat case_match; probe_tac.
  - done.
Qed.

End Probing.

Lemma probing_with_req_self r h q bound f w :
  probing r h q bound w → probing r h (f q) bound (with_req r f w).
Proof.
  intros [H1 H2 H3 H4 H5]. constructor; try done.
  simpl. by rewrite list_lookup_alter_eq, H1.
Qed.

Lemma probing_unbounded r h q bound w :
  probing r h q bound w → probing r h q None w.
Proof. intros [H1 H2 H3 H4 H5]. by constructor. Qed.

(** An emit calls the probes that were registered on the socket when it
    started; the probe of request [r] among them records the payload. *)
Lemma probing_delivered r h d id bound h' u gs : ∀ w data,
  (∀ g, g ∈ gs → ∃ r', g = probe r') →
  probing r h (probe_wait d id h data) bound w →
  probing r h
    (probe_wait d id h
       (if bool_decide (probe r ∈ gs) && Js.truthy_opt (u_qr u)
        then u_qr u else data))
    bound (foldl (deliver part_003 h' u) w gs).
Proof.
  induction gs as [|g gs IH]; intros w data Hgs Hw; simpl; [done|].
  destruct (Hgs g) as [r' ->]; [by left|].
  assert (Hgs' : ∀ g, g ∈ gs → ∃ r', g = probe r')
    by (intros g Hg; apply Hgs; by right).
  rewrite deliver_probe.
  destruct (decide (r' = r)) as [-> | Hne].
  - rewrite bool_decide_eq_true_2 by left. simpl.
    destruct (Js.truthy_opt (u_qr u)) eqn:Hu.
    + apply (probing_with_req_self r h _ bound
               (λ q, mkReq (responded q) (u_qr u) (timer q)
                           (clear_on_finish q) (replies q))) in Hw.
      apply (IH _ _ Hgs') in Hw.
      by destruct (bool_decide (probe r ∈ gs)).
    + apply (IH _ _ Hgs') in Hw. by rewrite andb_false_r in Hw.
  - assert (Hin : bool_decide (probe r ∈ probe r' :: gs)
                  = bool_decide (probe r ∈ gs)).
    { apply bool_decide_ext. rewrite elem_of_cons.
      split; [intros [[=]|?]; done|by right]. }
    rewrite Hin. apply IH; [done|].
    destruct (Js.truthy_opt (u_qr u)); [|done]. by apply probing_with_req.
Qed.

Lemma probing_emit r h d id bound h' u w data gs0 :
  api_ok h gs0 w →
  probing r h (probe_wait d id h data) bound w →
  probing r h (probe_wait d id h (seen h data (Core (Emit h' u)))) bound
          (emit part_003 h' u w).
Proof.
  intros (Hall & _) Hw. unfold emit, seen.
  destruct (socks w !! h') as [s|] eqn:Hs.
  - assert (Hl : listeners_of h' w = listeners s)
      by (unfold listeners_of; by rewrite Hs).
    assert (Hin : bool_decide (probe r ∈ listeners s) = bool_decide (h' = h)).
    { apply bool_decide_ext. rewrite <- Hl. split.
      - intros Hg. by destruct (pb_only _ _ _ _ _ Hw h' _ Hg).
      - intros ->. apply (pb_here _ _ _ _ _ Hw). }
    rewrite <- Hin. apply probing_delivered; [|done].
    intros g Hg. apply (Hall h'). by rewrite Hl.
  - rewrite bool_decide_eq_false_2; [done|]. intros ->.
    pose proof (pb_here _ _ _ _ _ Hw) as Hg.
    unfold listeners_of in Hg. rewrite Hs in Hg.
    by apply elem_of_nil in Hg.
Qed.

Lemma probing_input r h d id data i w gs0 :
  api_ok h gs0 w →
  before d i →
  probing r h (probe_wait d id h data) (Some d) w →
  probing r h (probe_wait d id h (seen h data i)) (Some d)
          (serve part_003 w i).
Proof.
  intros Hok Hi Hw.
  assert (Hother : (∀ h' u, i ≠ Core (Emit h' u)) →
            probing r h (probe_wait d id h data) (Some d)
                    (serve part_003 w i)).
  { intros Hne. apply probing_serve; try done.
    - by intros tm [= <-].
    - intros t d' -> [= <-]. exact Hi. }
  destruct i as [[param rnd|sessionId phone rnd|k o mk|h' u|h' who|t]
                |sessionId|param readyState|];
    try (by apply Hother).
  by apply probing_emit with gs0.
Qed.

Lemma probing_inputs r h d id gs0 inputs : ∀ w data,
  api_ok h gs0 w →
  Forall (before d) inputs →
  probing r h (probe_wait d id h data) (Some d) w →
  probing r h (probe_wait d id h (foldl (seen h) data inputs)) (Some d)
          (serve_all part_003 w inputs).
Proof.
  induction inputs as [|i inputs IH]; intros w data Hok Hes Hw; simpl;
    [done|].
  apply Forall_cons in Hes as [He Hes].
  apply IH; [by apply api_ok_serve|done|]. by apply probing_input with gs0.
Qed.

(** ** The 2 s timer *)

Lemma probing_fires_others r h q rs : ∀ w,
  r ∉ rs →
  probing r h q None w →
  probing r h q None (foldl (fire part_003) w rs)
  ∧ now (foldl (fire part_003) w rs) = now w.
Proof.
  induction rs as [|r' rs IH]; intros w Hr Hw; simpl; [done|].
  apply not_elem_of_cons in Hr as [Hne Hr].
  destruct (IH (fire part_003 w r') Hr) as [Hf Hn].
  - by apply probing_fire_other.
  - split; [done|]. by rewrite Hn, now_fire.
Qed.

Lemma probing_fire_due r h d id data w :
  probing r h (probe_wait d id h data) None w →
  (d ≤ now w)%Z →
  probing r h (mkReq false data None false [probe_reply id data]) None
          (fire part_003 w r).
Proof.
  intros Hw Hdue.
  assert (Hcb : timeout_cb part_003 r (mkTimer d id h) (timer_done r w) =
                res_json r (probe_reply id data) (timer_done r w)).
  { unfold timeout_cb, timer_done, probe_reply. simpl.
    rewrite list_lookup_alter_eq, (pb_req _ _ _ _ _ Hw). simpl.
    by repeat case_match. }
  unfold fire. rewrite (pb_req _ _ _ _ _ Hw).
  change (Some (probe_wait d id h data) ≫= timer)
    with (Some (mkTimer d id h)).
  cbv iota beta. change (due (mkTimer d id h)) with d.
  rewrite bool_decide_eq_true_2 by done.
  rewrite Hcb.
  apply (probing_with_req_self r h _ None
           (λ q, mkReq (responded q) (qrData q) None (clear_on_finish q)
                       (replies q))) in Hw.
  by apply (probing_with_req_self r h _ None
           (λ q, mkReq (responded q) (qrData q)
                       (if clear_on_finish q then None else timer q)
                       (clear_on_finish q)
                       (replies q ++ [probe_reply id data]))) in Hw.
Qed.

Lemma probing_advance_fires r h d id data bound w t :
  probing r h (probe_wait d id h data) bound w →
  (d ≤ t)%Z →
  probing r h (mkReq false data None false [probe_reply id data]) None
          (advance part_003 t w).
Proof.
  intros Hw Hdue. unfold advance.
  set (w0 := set_now (Z.max (now w) t) w).
  assert (Hw0 : probing r h (probe_wait d id h data) None w0).
  { apply probing_set_now; [done|]. by apply probing_unbounded with bound. }
  assert (Hr : r < length (reqs w0))
    by (eapply lookup_lt_Some, pb_req, Hw0).
  replace (length (reqs w0)) with (r + (1 + (length (reqs w0) - S r))) by lia.
  rewrite !seq_app, !foldl_app. simpl.
  destruct (probing_fires_others r h (probe_wait d id h data) (seq 0 r) w0)
    as [H1 Hnow1]; [|done|].
  { rewrite elem_of_seq. lia. }
  set (w1 := foldl (fire part_003) w0 (seq 0 r)) in *.
  assert (Hdue1 : (d ≤ now w1)%Z) by (rewrite Hnow1; subst w0; simpl; lia).
  assert (H2 := probing_fire_due r h d id data w1 H1 Hdue1).
  apply (probing_fires_others r h _ (seq (r + 1) (length (reqs w0) - S r)))
    in H2 as [H3 _]; [done|].
  rewrite elem_of_seq. lia.
Qed.

(** The /qr route of the query-string API, for a stored session, leaves
    the request probing the session's socket with its timer armed for 2 s
    from now. *)
Lemma probe_route_arms inputs param rnd l s :
  let w := serve_all part_003 empty_world inputs in
  let sid := Js.or_else param "ban-session1" in
  let d := (now w + 2000)%Z in
  sessions w !! sid = Some l →
  objs w !! l = Some s →
  probing (length (reqs w)) (sock s) (probe_wait d sid (sock s) None) (Some d)
          (serve part_003 w (Core (GetQR param rnd))).
Proof.
  intros w sid d Hid Hl.
  destruct (api_ok_start inputs (sock s)) as (_ & Hsock & _). fold w in Hsock.
  pose proof (Hsock l s Hl) as Hs.
  destruct (fresh_unused part_003 inputs (length (reqs w))) as [Ht Hn];
    [done|]. fold w in Ht, Hn.
  simpl. unfold qr_route, createSession, session_id, find_session.
  cbv zeta. fold sid. cbn [default from_option]. change (id sid) with sid.
  simpl sessions. simpl objs. rewrite Hid, Hl.
  cbn [return_to]. unfold qr_route_k. cbv zeta.
  assert (Hls : ∀ h',
            listeners_of h' (ev_on (sock s) (probe (length (reqs w)))
                               (new_req w)) =
            listeners_of h' w
            ++ (if bool_decide (sock s = h') then [probe (length (reqs w))]
                else [])).
  { intros h'. rewrite listeners_of_ev_on. f_equal.
    apply (f_equal (λ b : bool, if b then [_] else [])).
    apply bool_decide_ext. simpl. intuition. }
  constructor.
  - unfold setTimeout. simpl. by rewrite alter_new, lookup_new.
  - done.
  - change (probe (length (reqs w)) ∈
            listeners_of (sock s)
              (ev_on (sock s) (probe (length (reqs w))) (new_req w))).
    rewrite Hls, bool_decide_eq_true_2 by done.
    apply elem_of_app. right. by left.
  - intros h' g.
    change (g ∈ listeners_of h'
                 (ev_on (sock s) (probe (length (reqs w))) (new_req w)) →
            listener_req (fn g) = Some (length (reqs w)) →
            h' = sock s ∧ g = probe (length (reqs w))).
    rewrite Hls. intros [Hg | Hg]%elem_of_app Hreq.
    + unfold listeners_of in Hg.
      destruct (socks w !! h') as [s'|] eqn:Hs'; [|by apply elem_of_nil in Hg].
      by destruct (Hn h' s' g).
    + case_bool_decide; [|by apply elem_of_nil in Hg].
      by apply list_elem_of_singleton in Hg as ->.
  - intros d' [= <-]. simpl. subst d. simpl. lia.
Qed.

(** GET /qr of the query-string API, for a session that is stored, answers
    from its 2 s timer and from nothing else.  Whatever the service is asked
    to do while the clock is before 2 s from the request, the request has
    no reply; when the clock reaches that deadline it gets one reply, made
    from the last QR payload the session's socket emitted in between: the
    payload behind the data-URL prefix, or ["QR not available yet."] when
    there was none.  The listener the route registered is still on the
    socket after the reply. *)
Theorem probe_reports_last_qr inputs param rnd l s more t :
  let w := serve_all part_003 empty_world inputs in
  let sid := Js.or_else param "ban-session1" in
  let r := length (reqs w) in
  let d := (now w + 2000)%Z in
  sessions w !! sid = Some l →
  objs w !! l = Some s →
  Forall (before d) more →
  (d ≤ t)%Z →
  let w1 :=
    serve_all part_003 (serve part_003 w (Core (GetQR param rnd))) more in
  let w2 := serve part_003 w1 (Core (Advance t)) in
  replies_of r w1 = []
  ∧ replies_of r w2 = [probe_reply sid (qr_seen (sock s) more)]
  ∧ probe r ∈ listeners_of (sock s) w2.
Proof.
  intros w sid r d Hid Hl Hmore Ht w1 w2.
  pose proof (probe_route_arms inputs param rnd l s Hid Hl) as Hw.
  fold w sid d r in Hw.
  assert (Hok : api_ok (sock s) []
                  (serve part_003 w (Core (GetQR param rnd)))).
  { apply api_ok_serve, api_ok_start. }
  apply (probing_inputs r (sock s) d sid [] more _ _ Hok Hmore) in Hw.
  fold w1 in Hw. fold (qr_seen (sock s) more) in Hw.
  pose proof (probing_advance_fires _ _ _ _ _ _ _ t Hw Ht) as Hend.
  split_and!.
  - unfold replies_of. by rewrite (pb_req _ _ _ _ _ Hw).
  - unfold replies_of. subst w2. simpl. by rewrite (pb_req _ _ _ _ _ Hend).
  - apply (pb_here _ _ _ _ _ Hend).
Qed.

Lemma probe_reports_last_qr_witness :
  let w := serve_all part_003 empty_world
             [Core (GetQR None ""); Core (Settle 0 ok None);
              Core (Settle 1 ok blank)] in
  let more := [Core (Emit 0 (mkUpdate (Some "Q1") None));
               Core (Advance 1999);
               Core (Emit 0 (mkUpdate (Some "Q2") None));
               GetStatus None 1] in
  let w1 := serve_all part_003 (serve part_003 w (Core (GetQR None ""))) more in
  let w2 := serve part_003 w1 (Core (Advance 2000)) in
  replies_of 1 w1 = []
  ∧ replies_of 1 w2 =
      [json [("ok", JBool true); ("qr", JStr "data:image/png;base64,Q2");
             ("session", JStr "ban-session1")]]
  ∧ probe 1 ∈ listeners_of 0 w2.
Proof.
  apply (probe_reports_last_qr
           [Core (GetQR None ""); Core (Settle 0 ok None);
            Core (Settle 1 ok blank)]
           None "" 0 (of_sock 0)
           [Core (Emit 0 (mkUpdate (Some "Q1") None));
            Core (Advance 1999);
            Core (Emit 0 (mkUpdate (Some "Q2") None));
            GetStatus None 1]
           2000).
  - reflexivity.
  - reflexivity.
  - repeat constructor.
  - by vm_compute.
Defined.

(** ** Requests without a registered handler *)

Lemma elem_of_remove_other f gs g :
  g ∈ gs → fn g ≠ f → g ∈ remove_last f gs.
Proof.
  induction gs as [|g0 gs IH]; simpl; [done|].
  intros [-> | Hg]%elem_of_cons Hne.
  - case_bool_decide; [by left|]. rewrite bool_decide_eq_false_2 by done.
    by left.
  - case_bool_decide; [right; by apply IH|].
    case_bool_decide; [done|by right].
Qed.

Section Idle.
Variable r : nat.

Local Abbreviation idle := (idle r).

Lemma idle_frame w w' : socks w' = socks w → idle w → idle w'.
Proof. intros Hs Hw h g. unfold listeners_of. rewrite Hs. apply Hw. Qed.

Lemma idle_with_req r' f w : idle w → idle (with_req r' f w).
Proof. by apply idle_frame. Qed.

Lemma idle_spawn t w : idle w → idle (spawn t w).
Proof. by apply idle_frame. Qed.

Lemma idle_call c w : idle w → idle (call c w).
Proof. by apply idle_frame. Qed.

Lemma idle_with_sessions f w : idle w → idle (with_sessions f w).
Proof. by apply idle_frame. Qed.

Lemma idle_with_obj l f w : idle w → idle (with_obj l f w).
Proof. by apply idle_frame. Qed.

Lemma idle_ev_off h f w : idle w → idle (ev_off h f w).
Proof.
  intros Hw h' g Hg. apply (Hw h').
  destruct (decide (h = h')) as [<- | Hne].
  - rewrite listeners_of_ev_off in Hg. by apply elem_of_remove_last in Hg.
  - unfold ev_off in Hg. by rewrite listeners_of_other in Hg.
Qed.

Lemma idle_ev_on h g w :
  waiter (fn g) ≠ Some r → idle w → idle (ev_on h g w).
Proof.
  intros Hg Hw h' g'. rewrite listeners_of_ev_on.
  intros [Hin | Hin]%elem_of_app; [by apply (Hw h')|].
  case_bool_decide; [|by apply elem_of_nil in Hin].
  by apply list_elem_of_singleton in Hin as ->.
Qed.

Lemma idle_kept h f w :
  (∀ s, listeners (f s) = listeners s) → idle w → idle (with_sock h f w).
Proof. intros Hf Hw h' g. rewrite listeners_of_kept by done. apply Hw. Qed.

Lemma idle_new_sock u c p w : idle w → idle (new_sock (mkSock u [] c p) w).
Proof. intros Hw h g. rewrite listeners_of_blank. apply Hw. Qed.

Ltac idle_tac :=
  repeat first
    [ assumption
    | match goal with
      | Hw : idle ?w0 |- idle ?w1 => exact (idle_frame w0 w1 eq_refl Hw)
      end
    | apply idle_with_req
    | apply idle_spawn
    | apply idle_call
    | apply idle_with_sessions
    | apply idle_with_obj
    | apply idle_ev_off
    | apply idle_ev_on; [simpl; congruence|]
    | apply idle_kept; [done|]
    | apply idle_new_sock ].

Lemma idle_handler r' id h u w : idle w → idle (handler server r' id h u w).
Proof.
  intros Hw. unfold handler, handler_open. repeat case_match; idle_tac.
Qed.

Lemma idle_handler_encoded r' id h u o w :
  idle w → idle (handler_encoded server r' id h u o w).
Proof.
  intros Hw. unfold handler_encoded, handler_open.
  repeat case_match; idle_tac.
Qed.

Lemma idle_timeout_cb r' t w : idle w → idle (timeout_cb server r' t w).
Proof. intros Hw. unfold timeout_cb. repeat case_match; idle_tac. Qed.

Lemma idle_session_update id l h u w :
  idle w → idle (session_update server id l h u w).
Proof. intros Hw. unfold session_update. repeat case_match; idle_tac. Qed.

Lemma idle_return_to k id s w :
  k ≠ QrRoute r → idle w → idle (return_to server k id s w).
Proof.
  intros Hk Hw. destruct k as [r'|r' sid phone]; simpl;
    unfold qr_route_k, pair_route_k; cbv zeta; idle_tac.
Qed.

Lemma idle_throw_to k w : idle w → idle (throw_to server k w).
Proof. intros Hw. unfold throw_to. repeat case_match; idle_tac. Qed.

Lemma idle_createSession sessionId rnd k w :
  k ≠ QrRoute r → idle w → idle (createSession server sessionId rnd k w).
Proof.
  intros Hk Hw. unfold createSession. cbv zeta. case_match.
  - by apply idle_return_to.
  - by apply idle_throw_to.
  - idle_tac.
Qed.

(** [createSession] of server.js from [makeWASocket] up to its [return]. *)
Lemma idle_made id m w :
  let h := length (socks w) in
  idle w →
  idle (with_sessions <[id := h]>
          (ev_on h (mkReg (SessionListener id h) false)
             (on_creds h
                (new_sock (mkSock (made_user m) [] 0 (made_pairing m)) w)))).
Proof. intros h Hw. idle_tac. Qed.

Lemma idle_construct k id m w :
  k ≠ QrRoute r → idle w → idle (construct server k id m w).
Proof.
  intros Hk Hw. unfold construct. cbv zeta.
  apply idle_return_to; [done|]. by apply idle_made.
Qed.

(** Resuming any task but the construction that the QR route of request
    [r] awaits registers no handler of [r]. *)
Lemma idle_resume t o mk w :
  (∀ id, t ≠ AwaitVersion (QrRoute r) id) →
  idle w → idle (resume server t o mk w).
Proof.
  intros Ht Hw.
  destruct t as [c id|c id|r' id p|r' id h u|r' sid id|l]; simpl.
  - unfold auth_settled. case_match; [idle_tac|by apply idle_throw_to].
  - unfold version_settled. repeat case_match;
      try (by apply idle_throw_to); try (apply idle_throw_to; idle_tac).
    apply idle_construct; [|idle_tac]. intros ->. by destruct (Ht id).
  - unfold cached_encoded. case_match; idle_tac.
  - by apply idle_handler_encoded.
  - destruct o; idle_tac.
  - unfold send_settled. idle_tac.
Qed.

End Idle.

(** ** Requests with a registered handler *)

Lemma registered_remove_le f f' gs :
  registered f' (remove_last f gs) ≤ registered f' gs.
Proof.
  destruct (decide (f' = f)) as [-> | Hne].
  - induction gs as [|g gs IH]; simpl; [done|].
    rewrite registered_cons. case_bool_decide.
    + rewrite registered_cons. lia.
    + case_bool_decide; [lia|]. rewrite registered_cons.
      rewrite bool_decide_eq_false_2 by done. lia.
  - by rewrite registered_remove_other.
Qed.

Section Busy.
Variables (r h : nat) (id : string).

Local Abbreviation placed := (placed r h id).
Local Abbreviation busy := (busy r h id).

Lemma placed_frame w w' : socks w' = socks w → placed w → placed w'.
Proof.
  intros Hs [H1 H2]. split; unfold listeners_of in *; by rewrite Hs.
Qed.

Lemma placed_ev_off h' f w : placed w → placed (ev_off h' f w).
Proof.
  intros [H1 H2]. split.
  - intros h'' g Hg. apply H1.
    destruct (decide (h' = h'')) as [<- | Hne].
    + rewrite listeners_of_ev_off in Hg. by apply elem_of_remove_last in Hg.
    + unfold ev_off in Hg. by rewrite listeners_of_other in Hg.
  - destruct (decide (h' = h)) as [-> | Hne].
    + rewrite listeners_of_ev_off.
      pose proof (registered_remove_le f (WaitListener r id)
                    (listeners_of h w)). lia.
    + unfold ev_off. by rewrite listeners_of_other.
Qed.

Lemma placed_ev_on h' g w :
  waiter (fn g) ≠ Some r → placed w → placed (ev_on h' g w).
Proof.
  intros Hg [H1 H2]. split.
  - intros h'' g'. rewrite listeners_of_ev_on.
    intros [Hin | Hin]%elem_of_app; [by apply H1|].
    case_bool_decide; [|by apply elem_of_nil in Hin].
    by apply list_elem_of_singleton in Hin as ->.
  - rewrite listeners_of_ev_on, registered_app.
    case_bool_decide; [|unfold registered in *; simpl; lia].
    rewrite registered_cons, bool_decide_eq_false_2.
    + unfold registered in *. simpl. lia.
    + intros Hfn. rewrite Hfn in Hg. by destruct Hg.
Qed.

Lemma placed_kept h' f w :
  (∀ s, listeners (f s) = listeners s) → placed w → placed (with_sock h' f w).
Proof.
  intros Hf [H1 H2]. split.
  - intros h'' g. rewrite listeners_of_kept by done. apply H1.
  - by rewrite listeners_of_kept.
Qed.

Lemma placed_new_sock u c p w :
  placed w → placed (new_sock (mkSock u [] c p) w).
Proof.
  intros [H1 H2]. split.
  - intros h' g. rewrite listeners_of_blank. apply H1.
  - by rewrite listeners_of_blank.
Qed.

Lemma busy_frame w w' :
  socks w' = socks w → reqs w' !! r = reqs w !! r → tasks w' = tasks w →
  busy w → busy w'.
Proof.
  intros Hs Hr Ht [H1 H2 H3 H4 H5].
  constructor; unfold replies_of, is_responded in *; rewrite ?Hr, ?Ht;
    try done.
  by apply (placed_frame w).
Qed.

Lemma busy_socks w w' :
  reqs w' = reqs w → tasks w' = tasks w → placed w' → busy w → busy w'.
Proof.
  intros Hr Ht Hp [H1 H2 H3 H4 H5].
  constructor; unfold replies_of, is_responded in *; rewrite ?Hr, ?Ht; done.
Qed.

Lemma busy_ev_off h' f w : busy w → busy (ev_off h' f w).
Proof.
  intros Hw. apply (busy_socks w); try done.
  apply placed_ev_off, Hw.
Qed.

Lemma busy_ev_on h' g w :
  waiter (fn g) ≠ Some r → busy w → busy (ev_on h' g w).
Proof.
  intros Hg Hw. apply (busy_socks w); try done.
  apply placed_ev_on; [done|]. apply Hw.
Qed.

Lemma busy_kept h' f w :
  (∀ s, listeners (f s) = listeners s) → busy w → busy (with_sock h' f w).
Proof.
  intros Hf Hw. apply (busy_socks w); try done.
  apply placed_kept; [done|]. apply Hw.
Qed.

Lemma busy_new_sock u c p w :
  busy w → busy (new_sock (mkSock u [] c p) w).
Proof.
  intros Hw. apply (busy_socks w); try done.
  apply placed_new_sock, Hw.
Qed.

Lemma busy_with_req r' f w : r' ≠ r → busy w → busy (with_req r' f w).
Proof.
  intros Hne. apply busy_frame; simpl; try done.
  by rewrite list_lookup_alter_ne.
Qed.

Lemma busy_new_req w : busy w → busy (new_req w).
Proof.
  intros Hw. apply (busy_frame w); simpl; try done.
  rewrite lookup_app_l; [done|]. eapply lookup_lt_is_Some, bz_req, Hw.
Qed.

Lemma busy_spawn t w : task_req t ≠ Some r → busy w → busy (spawn t w).
Proof.
  intros Ht [H1 H2 H3 H4 H5]. constructor; try done.
  simpl. intros k t' [Hk | [_ Hk]]%lookup_app_Some; [by apply (H4 k)|].
  apply list_lookup_singleton_Some in Hk as [_ [= <-]]. done.
Qed.

Lemma busy_finish k w : busy w → busy (finish_task k w).
Proof.
  intros [H1 H2 H3 H4 H5]. constructor; try done.
  simpl. intros k' t Hk.
  apply list_lookup_insert_Some in Hk as [(_ & ? & _) | (_ & Hk)]; [done|].
  by apply (H4 k').
Qed.

Lemma busy_call c w : busy w → busy (call c w).
Proof. by apply busy_frame. Qed.

Lemma busy_with_sessions f w : busy w → busy (with_sessions f w).
Proof. by apply busy_frame. Qed.

Lemma busy_with_obj l f w : busy w → busy (with_obj l f w).
Proof. by apply busy_frame. Qed.

Ltac busy_tac :=
  repeat first
    [ assumption
    | match goal with
      | Hw : busy ?w0 |- busy ?w1 =>
          exact (busy_frame w0 w1 eq_refl eq_refl eq_refl Hw)
      end
    | apply busy_with_req; [congruence|]
    | apply busy_new_req
    | apply busy_finish
    | apply busy_spawn; [simpl; congruence|]
    | apply busy_call
    | apply busy_with_sessions
    | apply busy_with_obj
    | apply busy_ev_off
    | apply busy_ev_on; [simpl; congruence|]
    | apply busy_kept; [done|]
    | apply busy_new_sock ].

Lemma busy_handler r' id' h' u w :
  r' ≠ r → busy w → busy (handler server r' id' h' u w).
Proof.
  intros Hr Hw. unfold handler, handler_open. repeat case_match; busy_tac.
Qed.

Lemma busy_handler_encoded r' id' h' u o w :
  r' ≠ r → busy w → busy (handler_encoded server r' id' h' u o w).
Proof.
  intros Hr Hw. unfold handler_encoded, handler_open.
  repeat case_match; busy_tac.
Qed.

Lemma busy_timeout_cb r' t w :
  r' ≠ r → busy w → busy (timeout_cb server r' t w).
Proof. intros Hr Hw. unfold timeout_cb. repeat case_match; busy_tac. Qed.

Lemma busy_session_update id' l h' u w :
  busy w → busy (session_update server id' l h' u w).
Proof. intros Hw. unfold session_update. repeat case_match; busy_tac. Qed.

Lemma busy_return_to k id' s w :
  caller_req k ≠ r → busy w → busy (return_to server k id' s w).
Proof.
  intros Hk Hw. destruct k as [r'|r' sid phone]; simpl in *;
    unfold qr_route_k, pair_route_k; cbv zeta; busy_tac.
Qed.

Lemma busy_throw_to k w :
  caller_req k ≠ r → busy w → busy (throw_to server k w).
Proof.
  intros Hk Hw. unfold throw_to. destruct k; simpl in *; busy_tac.
Qed.

Lemma busy_createSession sessionId rnd k w :
  caller_req k ≠ r →
  busy w → busy (createSession server sessionId rnd k w).
Proof.
  intros Hk Hw. unfold createSession. cbv zeta. case_match.
  - by apply busy_return_to.
  - by apply busy_throw_to.
  - busy_tac.
Qed.

Lemma busy_construct k id' m w :
  caller_req k ≠ r → busy w → busy (construct server k id' m w).
Proof.
  intros Hk Hw. unfold construct. cbv zeta.
  apply busy_return_to; [done|]. busy_tac.
Qed.

Lemma busy_resume t o mk w :
  task_req t ≠ Some r → busy w → busy (resume server t o mk w).
Proof.
  intros Ht Hw.
  destruct t as [c id'|c id'|r' id' p|r' id' h' u|r' sid id'|l]; simpl in *.
  - unfold auth_settled. case_match; [busy_tac|].
    apply busy_throw_to; [congruence|done].
  - unfold version_settled. repeat case_match;
      try (apply busy_throw_to; [congruence|busy_tac]).
    apply busy_construct; [congruence|busy_tac].
  - unfold cached_encoded. case_match; busy_tac.
  - apply busy_handler_encoded; [congruence|done].
  - destruct o; busy_tac.
  - unfold send_settled. busy_tac.
Qed.

(** The handler of [r], called with a QR payload, suspends at the
    encoder. *)
Lemma busy_latch u w :
  busy w → busy (spawn (AwaitEventQR r id h u) (set_responded r w)).
Proof.
  intros [H1 [q H2] H3 H4 H5].
  unfold replies_of, is_responded in *. rewrite H2 in *. simpl in *.
  constructor; unfold replies_of, is_responded; simpl;
    rewrite ?list_lookup_alter_eq, ?H2; simpl; try done.
  intros k t [Hk | [_ Hk]]%lookup_app_Some; [by apply (H4 k)|].
  apply list_lookup_singleton_Some in Hk as [_ [= <-]]. by exists u.
Qed.

(** Writing [qrData] or clearing a timer that has fired. *)
Lemma busy_with_req_self f w :
  (∀ q, reqs w !! r = Some q →
        replies (f q) = replies q ∧ responded (f q) = responded q
        ∧ (responded q = false → timer (f q) = timer q)) →
  busy w → busy (with_req r f w).
Proof.
  intros Hf [H1 [q H2] H3 H4 H5]. destruct (Hf q H2) as (Hf1 & Hf2 & Hf3).
  unfold replies_of, is_responded in *. rewrite H2 in *. simpl in *.
  constructor; unfold replies_of, is_responded; simpl;
    rewrite ?list_lookup_alter_eq, ?H2; simpl; try done; try congruence.
  intros Hq. rewrite Hf2 in Hq. rewrite Hf3 by done. by apply H5.
Qed.

(** Taking the handler of [r] off its socket leaves none. *)
Lemma placed_off w :
  placed w → idle r (ev_off h (WaitListener r id) w).
Proof.
  intros [H1 H2] h' g Hg Hr.
  destruct (decide (h = h')) as [<- | Hne].
  - rewrite listeners_of_ev_off in Hg.
    pose proof (elem_of_remove_last _ _ _ Hg) as Hin.
    destruct (H1 h g Hin Hr) as [_ ->].
    assert (Hpos : 0 < registered (WaitListener r id) (listeners_of h w)).
    { apply registered_elem, list_elem_of_fmap.
      by exists (mkReg (WaitListener r id) false). }
    pose proof (registered_remove_last _ _ Hpos) as Hrem.
    assert (Hpos' : 0 < registered (WaitListener r id)
                          (remove_last (WaitListener r id) (listeners_of h w))).
    { apply registered_elem, list_elem_of_fmap.
      by exists (mkReg (WaitListener r id) false). }
    lia.
  - unfold ev_off in Hg. rewrite listeners_of_other in Hg by done.
    by destruct (H1 h' g Hg Hr).
Qed.

(** The QR route of an unanswered request without tasks and without
    handlers goes on to wait. *)
Lemma busy_route w :
  idle r w →
  is_Some (reqs w !! r) →
  replies_of r w = [] →
  (∀ k t, tasks w !! k = Some (Some t) → task_req t ≠ Some r) →
  busy (qr_route_k server r id (of_sock h) w).
Proof.
  intros Hi [q Hq] Hrep Ht. unfold qr_route_k. cbv zeta. simpl sock.
  unfold replies_of in Hrep. rewrite Hq in Hrep. simpl in Hrep.
  constructor; unfold replies_of, is_responded; simpl;
    rewrite ?list_lookup_alter_eq, ?Hq; simpl; try done.
  - split.
    + intros h' g.
      change (g ∈ listeners_of h' (ev_on h (mkReg (WaitListener r id) false) w)
              → waiter (fn g) = Some r
              → h' = h ∧ g = mkReg (WaitListener r id) false).
      rewrite listeners_of_ev_on.
      intros [Hin | Hin]%elem_of_app Hr; [by destruct (Hi h' g)|].
      case_bool_decide as Hh; [|by apply elem_of_nil in Hin].
      apply list_elem_of_singleton in Hin as ->. by destruct Hh as [-> _].
    + change (registered (WaitListener r id)
                (listeners_of h (ev_on h (mkReg (WaitListener r id) false) w))
              ≤ 1).
      rewrite listeners_of_ev_on, registered_app.
      assert (Hz : registered (WaitListener r id) (listeners_of h w) = 0).
      { destruct (decide (0 < registered (WaitListener r id)
                                (listeners_of h w))) as [Hpos|]; [|lia].
        apply registered_elem, list_elem_of_fmap in Hpos as (g & Hfn & Hg).
        destruct (Hi h g Hg). by rewrite <- Hfn. }
      rewrite Hz. case_bool_decide; [|unfold registered; simpl; lia].
      by rewrite registered_singleton.
  - intros k t Hk Hr. by destruct (Ht k t).
  - intros _. by eexists.
Qed.

End Busy.

(** ** Every answered request of server.js has its handler removed *)

(** In server.js a suspended task that will answer request [r] is the only
    one, and [r] is unanswered. *)
Lemma sole_task w k t r :
  sound server w →
  tasks w !! k = Some (Some t) → task_req t = Some r →
  is_Some (reqs w !! r) ∧ replies_of r w = []
  ∧ ∀ k' t', tasks w !! k' = Some (Some t') → task_req t' = Some r → k' = k.
Proof.
  intros Hs Hk Hr. pose proof (Hs r) as Hg. split_and!.
  - by eapply good_owner.
  - destruct Hg as [_ Hb _ _ _ _ _].
    pose proof (pending_lookup server _ _ _ _ Hk Hr).
    unfold potential, answered, replies_of in *. simpl in Hb.
    destruct (from_option replies [] (reqs w !! r)); [done|simpl in Hb; lia].
  - intros k' t' Hk' Hr'. destruct (decide (k' = k)) as [|Hne]; [done|].
    exfalso. destruct Hg as [_ Hb _ _ _ _ _].
    pose proof (pending_finish server r _ _ _ Hk) as Hfin.
    assert (Hk'' : <[k:=None]> (tasks w) !! k' = Some (Some t'))
      by (by rewrite list_lookup_insert_ne).
    pose proof (pending_lookup server _ _ _ _ Hk'' Hr').
    unfold potential, owed, weight in *. simpl in *.
    rewrite bool_decide_eq_true_2 in Hfin by done.
    destruct t; simpl in *; lia.
Qed.

Lemma fresh_no_task w k t r :
  sound server w → reqs w !! r = None → tasks w !! k = Some (Some t) →
  task_req t ≠ Some r.
Proof.
  intros Hs Hq Hk Hr. destruct (sole_task w k t r Hs Hk Hr) as ([q Hq'] & _).
  congruence.
Qed.

Lemma tidy_frame w w' :
  socks w' = socks w → reqs w' = reqs w → tasks w' = tasks w →
  tidy w → tidy w'.
Proof.
  intros Hs Hr Ht Hw r. destruct (Hw r) as [Hi | (h & id & Hb)].
  - left. by apply (idle_frame r w).
  - right. exists h, id. apply (busy_frame r h id w); [done| |done..].
    by rewrite Hr.
Qed.

Lemma tidy_ev_off h f w : tidy w → tidy (ev_off h f w).
Proof.
  intros Hw r. destruct (Hw r) as [Hi | (h' & id & Hb)].
  - left. by apply idle_ev_off.
  - right. exists h', id. by apply busy_ev_off.
Qed.

Lemma fresh_idle w r : tidy w → reqs w !! r = None → idle r w.
Proof.
  intros Hw Hq. destruct (Hw r) as [Hi | (h & id & Hb)]; [done|].
  destruct (bz_req _ _ _ _ Hb) as [q Hq']. congruence.
Qed.

Lemma tidy_qr_route param rnd w :
  sound server w → tidy w → tidy (qr_route server param rnd w).
Proof.
  intros Hs Hw r. unfold qr_route. cbv zeta.
  set (r0 := length (reqs w)).
  assert (Hnone : reqs w !! r0 = None) by (apply lookup_ge_None_2; lia).
  destruct (decide (r = r0)) as [-> | Hne].
  - pose proof (fresh_idle w r0 Hw Hnone) as Hi.
    unfold createSession, find_session. cbv zeta.
    destruct (sessions (new_req w) !! session_id server param rnd)
      as [h|] eqn:Hh.
    + right. exists h, (session_id server param rnd). cbn [return_to].
      apply busy_route.
      * by apply (idle_frame r0 w).
      * exists untouched. apply lookup_new.
      * unfold replies_of. simpl. unfold r0. by rewrite lookup_new.
      * intros k t Hk. by apply (fresh_no_task w k t r0).
    + left. by apply (idle_frame r0 w).
  - destruct (Hw r) as [Hi | (h & id & Hb)].
    + left. apply idle_createSession; [congruence|].
      by apply (idle_frame r w).
    + right. exists h, id. apply busy_createSession; [simpl; congruence|].
      by apply busy_new_req.
Qed.

Lemma tidy_pair_route sessionId phone rnd w :
  tidy w → tidy (pair_route server sessionId phone rnd w).
Proof.
  intros Hw r. unfold pair_route. cbv zeta.
  destruct (Hw r) as [Hi | (h & id & Hb)].
  - left. apply idle_createSession; [done|]. by apply (idle_frame r w).
  - right. exists h, id.
    assert (Hr : length (reqs w) ≠ r).
    { destruct (bz_req _ _ _ _ Hb) as [q Hq]. apply lookup_lt_Some in Hq. lia. }
    apply busy_createSession; [done|]. by apply busy_new_req.
Qed.

Lemma idle_handler_open r r' id h u w :
  idle r w → idle r (handler_open server r' id h u w).
Proof.
  intros Hw. unfold handler_open. case_match; [|done].
  by apply idle_ev_off, idle_with_req, idle_with_req.
Qed.

Lemma tidy_settle k o mk w :
  sound server w → tidy w → tidy (settle server k o mk w).
Proof.
  intros Hs Hw. unfold settle.
  destruct (tasks w !! k) as [[t|]|] eqn:Hk; try done.
  intros r. destruct (decide (task_req t = Some r)) as [Hr | Hr].
  - destruct (sole_task w k t r Hs Hk Hr) as (Hq & Hrep & Hsole).
    destruct (Hw r) as [Hi | (h & id & Hb)].
    + assert (Hf : idle r (finish_task k w)) by (by apply (idle_frame r w)).
      assert (Hc : (∃ id, t = AwaitVersion (QrRoute r) id)
                   ∨ (∀ id, t ≠ AwaitVersion (QrRoute r) id)).
      { destruct t as [c id|[r'|r' sid ph] id|r' id p|r' id h u|r' sid id|l];
          try (right; intros id' [=]; done).
        simpl in Hr. injection Hr as ->. left. by exists id. }
      destruct Hc as [[id ->] | Hc].
      * cbn [resume]. unfold version_settled.
        destruct o as [x|m0]; [|left; by apply idle_throw_to].
        destruct mk as [m|];
          [|left; by apply idle_throw_to, (idle_frame r w)].
        right. exists (length (socks w)), id.
        unfold construct. cbv zeta. cbn [return_to].
        apply busy_route.
        -- apply (idle_made r id m (call MakeWASocket (finish_task k w))).
           by apply (idle_frame r w).
        -- done.
        -- done.
        -- simpl. intros k' t' Hk' Hr'.
           apply list_lookup_insert_Some in Hk' as [(_ & ? & _) | (Hne & Hk')];
             [done|].
           destruct Hne. symmetry. by apply (Hsole k' t').
      * left. by apply idle_resume.
    + destruct (bz_tasks _ _ _ _ Hb k t Hk Hr) as [u ->].
      left. cbn [resume]. unfold handler_encoded.
      assert (Hp : ∀ rep, idle r (ev_off h (WaitListener r id)
                                    (res_json r rep (finish_task k w)))).
      { intros rep. apply placed_off.
        apply (placed_frame r h id w); [done|]. apply Hb. }
      destruct o; by apply idle_handler_open.
  - destruct (Hw r) as [Hi | (h & id & Hb)].
    + left. apply idle_resume; [|by apply (idle_frame r w)].
      intros id ->. by destruct Hr.
    + right. exists h, id. apply busy_resume; [done|]. by apply busy_finish.
Qed.

Lemma snap_start h w : tidy w → snap h (listeners_of h w) w.
Proof.
  intros Hw g r Hg Hr. destruct (Hw r) as [Hi | (h' & id & Hb)].
  - by destruct (Hi h g Hg).
  - destruct (bz_placed _ _ _ _ Hb) as [Hp _].
    destruct (Hp h g Hg Hr) as [_ ->]. done.
Qed.

Lemma snap_frame h gs w w' :
  socks w' = socks w →
  (∀ r, is_responded r w' = false → is_responded r w = false) →
  snap h gs w → snap h gs w'.
Proof.
  intros Hs Hr Hw g r Hg Hwait. destruct (Hw g r Hg Hwait) as [Ho Hin].
  split; [done|]. intros Hresp. unfold listeners_of. rewrite Hs.
  by apply Hin, Hr.
Qed.

Lemma snap_ev_off h gs f w :
  waiter f = None → snap h gs w → snap h gs (ev_off h f w).
Proof.
  intros Hf Hw g r Hg Hwait. destruct (Hw g r Hg Hwait) as [Ho Hin].
  split; [done|]. intros Hresp. rewrite listeners_of_ev_off.
  apply elem_of_remove_other; [by apply Hin|].
  intros Hfn. rewrite Hfn in Hwait. congruence.
Qed.

Lemma responded_with_req r r' f w :
  (∀ q, responded q = true → responded (f q) = true) →
  is_responded r (with_req r' f w) = false → is_responded r w = false.
Proof.
  intros Hf. unfold is_responded. simpl.
  destruct (decide (r' = r)) as [-> | Hne].
  - rewrite list_lookup_alter_eq. destruct (reqs w !! r) as [q|]; [|done].
    simpl. destruct (responded q) eqn:Hq; [|done]. by rewrite Hf.
  - by rewrite list_lookup_alter_ne.
Qed.

(** A handler that is still registered belongs to a waiting request. *)
Lemma registered_busy w h g r :
  tidy w → g ∈ listeners_of h w → waiter (fn g) = Some r →
  ∃ id, g = mkReg (WaitListener r id) false ∧ busy r h id w.
Proof.
  intros Hw Hg Hr. destruct (Hw r) as [Hi | (h' & id & Hb)].
  - by destruct (Hi h g Hg).
  - destruct (bz_placed _ _ _ _ Hb) as [Hp _].
    destruct (Hp h g Hg Hr) as [-> ->]. by exists id.
Qed.

(** The first [if] of [handler], taken. *)
Lemma tidy_latch r0 id0 h u w :
  tidy w →
  mkReg (WaitListener r0 id0) false ∈ listeners_of h w →
  tidy (spawn (AwaitEventQR r0 id0 h u) (set_responded r0 w)).
Proof.
  intros Hw Hg r.
  destruct (registered_busy w h _ r0 Hw Hg eq_refl) as (id & [= <-] & Hb0).
  destruct (decide (r = r0)) as [-> | Hne].
  - right. exists h, id0. by apply busy_latch.
  - destruct (Hw r) as [Hi | (h' & id & Hb)].
    + left. by apply (idle_frame r w).
    + right. exists h', id. apply busy_spawn; [simpl; congruence|].
      by apply busy_with_req.
Qed.

(** A reply of request [r0] followed by [off] for its handler. *)
Lemma tidy_answer r0 id0 h w :
  tidy w →
  (idle r0 w ∨ busy r0 h id0 w) →
  ∀ w', socks w' = socks w → tasks w' = tasks w →
        (∀ r, r ≠ r0 → reqs w' !! r = reqs w !! r) →
        tidy (ev_off h (WaitListener r0 id0) w').
Proof.
  intros Hw H0 w' Hs Ht Hr r. destruct (decide (r = r0)) as [-> | Hne].
  - left. destruct H0 as [Hi | Hb].
    + apply idle_ev_off. by apply (idle_frame r0 w).
    + apply placed_off. apply (placed_frame r0 h id0 w); [done|]. apply Hb.
  - destruct (Hw r) as [Hi | (h' & id & Hb)].
    + left. apply idle_ev_off. by apply (idle_frame r w).
    + right. exists h', id. apply busy_ev_off.
      apply (busy_frame r h' id w); auto.
Qed.

(** What a called handler knows of its request. *)
Lemma called_handler w h r0 id0 :
  tidy w →
  (is_responded r0 w = false →
   mkReg (WaitListener r0 id0) false ∈ listeners_of h w) →
  is_responded r0 w = false →
  busy r0 h id0 w.
Proof.
  intros Hw Hin Hresp.
  by destruct (registered_busy w h _ r0 Hw (Hin Hresp) eq_refl)
    as (id & [= <-] & Hb).
Qed.

Lemma tidy_handler_open r0 id0 h u gs w :
  tidy w →
  (is_responded r0 w = false →
   mkReg (WaitListener r0 id0) false ∈ listeners_of h w) →
  snap h gs w →
  tidy (handler_open server r0 id0 h u w)
  ∧ snap h gs (handler_open server r0 id0 h u w).
Proof.
  intros Hw Hin Hgs. unfold handler_open.
  destruct (bool_decide (u_connection u = Some "open")); simpl; [|done].
  pose proof (called_handler w h r0 id0 Hw Hin) as Hb. clear Hin.
  destruct (is_responded r0 w) eqn:Hresp; simpl; [done|].
  specialize (Hb eq_refl).
  split.
  - apply (tidy_answer r0 id0 h w); try done; [by right|].
    intros r Hne. simpl. by rewrite !list_lookup_alter_ne.
  - intros g r Hg Hwait. destruct (Hgs g r Hg Hwait) as [Ho Hreg].
    split; [done|]. intros Hr.
    assert (Hne : r ≠ r0).
    { intros ->. revert Hr. unfold is_responded. simpl.
      rewrite !list_lookup_alter_eq.
      by destruct (bz_req _ _ _ _ Hb) as [q ->]. }
    rewrite listeners_of_ev_off. apply elem_of_remove_other.
    + apply Hreg. revert Hr. unfold is_responded. simpl.
      by rewrite !list_lookup_alter_ne.
    + intros Hfn. rewrite Hfn in Hwait. simpl in Hwait. congruence.
Qed.

Lemma tidy_handler r0 id0 h u gs w :
  tidy w →
  (is_responded r0 w = false →
   mkReg (WaitListener r0 id0) false ∈ listeners_of h w) →
  snap h gs w →
  tidy (handler server r0 id0 h u w)
  ∧ snap h gs (handler server r0 id0 h u w).
Proof.
  intros Hw Hin Hgs. unfold handler.
  pose proof (tidy_handler_open r0 id0 h u gs w Hw Hin Hgs) as Hopen.
  destruct (u_qr u) as [payload|]; [|done].
  destruct (Js.truthy payload); simpl; [|done].
  destruct (is_responded r0 w) eqn:Hresp; simpl; [done|].
  split.
  - apply tidy_latch; [done|]. by apply Hin.
  - apply (snap_frame h gs w); [done| |done].
    intros r. by apply responded_with_req.
Qed.

Lemma tidy_deliver h u g gs w :
  tidy w → snap h (g :: gs) w →
  tidy (deliver server h u w g) ∧ snap h gs (deliver server h u w g).
Proof.
  intros Hw Hgs.
  assert (Htail : snap h gs w).
  { intros g' r Hg'. apply Hgs. by right. }
  unfold deliver. destruct g as [[id l|r0 id0|r0] o]; simpl.
  - assert (H1 : tidy (if o then ev_off h (SessionListener id l) w else w)
                 ∧ snap h gs (if o then ev_off h (SessionListener id l) w
                              else w)).
    { destruct o; [|done]. split; [by apply tidy_ev_off|].
      by apply snap_ev_off. }
    destruct H1 as [H1 H2]. revert H1 H2.
    generalize (if o then ev_off h (SessionListener id l) w else w).
    intros w1 H1 H2. case_bool_decide; [|done]. split.
    + by apply (tidy_frame w1).
    + by apply (snap_frame h gs w1).
  - destruct (Hgs (mkReg (WaitListener r0 id0) o) r0) as [Ho Hin];
      [by left|done|]. simpl in Ho. subst o. by apply tidy_handler.
  - assert (H1 : tidy (if o then ev_off h (ProbeListener r0) w else w)
                 ∧ snap h gs (if o then ev_off h (ProbeListener r0) w
                              else w)).
    { destruct o; [|done]. split; [by apply tidy_ev_off|].
      by apply snap_ev_off. }
    destruct H1 as [H1 H2]. revert H1 H2.
    generalize (if o then ev_off h (ProbeListener r0) w else w).
    intros w1 H1 H2. case_match; [|done]. split.
    + intros r. destruct (H1 r) as [Hi | (h' & id & Hb)].
      * left. by apply (idle_frame r w1).
      * right. exists h', id. destruct (decide (r0 = r)) as [-> | Hne].
        -- by apply busy_with_req_self.
        -- by apply busy_with_req.
    + apply (snap_frame h gs w1); [done| |done].
      intros r. by apply responded_with_req.
Qed.

Lemma tidy_delivered h u gs : ∀ w,
  tidy w → snap h gs w → tidy (foldl (deliver server h u) w gs).
Proof.
  induction gs as [|g gs IH]; intros w Hw Hgs; simpl; [done|].
  destruct (tidy_deliver h u g gs w Hw Hgs) as [H1 H2]. by apply IH.
Qed.

Lemma tidy_emit h u w : tidy w → tidy (emit server h u w).
Proof.
  intros Hw. unfold emit. destruct (socks w !! h) as [s|] eqn:Hs; [|done].
  apply tidy_delivered; [done|].
  replace (listeners s) with (listeners_of h w)
    by (unfold listeners_of; by rewrite Hs).
  by apply snap_start.
Qed.

Lemma tidy_fire w r0 : tidy w → tidy (fire server w r0).
Proof.
  intros Hw. unfold fire.
  destruct (reqs w !! r0 ≫= timer) as [t|] eqn:Ht; [|done].
  case_bool_decide; [|done]. unfold timeout_cb.
  assert (Hresp : is_responded r0 (timer_done r0 w) = is_responded r0 w).
  { unfold is_responded. simpl. rewrite list_lookup_alter_eq.
    by destruct (reqs w !! r0). }
  rewrite Hresp. destruct (is_responded r0 w) eqn:Hr0; simpl.
  - intros r. destruct (Hw r) as [Hi | (h & id & Hb)].
    + left. by apply (idle_frame r w).
    + right. exists h, id. destruct (decide (r0 = r)) as [-> | Hne].
      * apply busy_with_req_self; [|done].
        intros q Hq. unfold is_responded in Hr0. rewrite Hq in Hr0.
        simpl in *. by rewrite Hr0.
      * by apply busy_with_req.
  - apply (tidy_answer r0 (t_id t) (t_sock t) w); try done.
    + destruct (Hw r0) as [Hi | (h & id & Hb)]; [by left|right].
      destruct (bz_timer _ _ _ _ Hb Hr0) as [d Hd].
      rewrite Ht in Hd. by injection Hd as ->.
    + intros r Hne. simpl. by rewrite !list_lookup_alter_ne.
Qed.

Lemma tidy_fires rs : ∀ w, tidy w → tidy (foldl (fire server) w rs).
Proof.
  induction rs as [|r rs IH]; intros w Hw; simpl; [done|].
  by apply IH, tidy_fire.
Qed.

Lemma tidy_serve w i : sound server w → tidy w → tidy (serve server w i).
Proof.
  intros Hs Hw.
  destruct i as [[param rnd|sessionId phone rnd|k o mk|h u|h who|t]
                |sessionId|param readyState|]; simpl.
  - by apply tidy_qr_route.
  - by apply tidy_pair_route.
  - by apply tidy_settle.
  - by apply tidy_emit.
  - intros r. destruct (Hw r) as [Hi | (h' & id & Hb)].
    + left. by apply idle_kept.
    + right. exists h', id. by apply busy_kept.
  - unfold advance. apply tidy_fires. by apply (tidy_frame w).
  - done.
  - done.
  - unfold health_route. intros r. destruct (Hw r) as [Hi | (h' & id & Hb)].
    + left. by apply (idle_frame r w).
    + right. exists h', id.
      assert (Hr : length (reqs w) ≠ r).
      { destruct (bz_req _ _ _ _ Hb) as [q Hq].
        apply lookup_lt_Some in Hq. lia. }
      apply busy_with_req; [done|]. by apply busy_new_req.
Qed.

Lemma tidy_serve_all inputs : tidy (serve_all server empty_world inputs).
Proof.
  assert (H : sound server (serve_all server empty_world inputs)
              ∧ tidy (serve_all server empty_world inputs)); [|by destruct H].
  induction inputs as [|i inputs IH] using rev_ind.
  - split; [apply sound_empty|]. intros r. left. intros h g Hg.
    unfold listeners_of in Hg. simpl in Hg. by apply elem_of_nil in Hg.
  - unfold serve_all in *. rewrite foldl_app. simpl.
    destruct IH as [Hs Hw]. split; [by apply sound_serve|by apply tidy_serve].
Qed.

(** server.js leaves no handler behind.  In every state of the service the
    QR handler of a request is registered at most once on a socket, and
    once the request has a reply, whichever of the handler, the open branch
    and the 10 s timer made it, the handler is registered on no socket. *)
Theorem server_removes_answered_handlers inputs r id h :
  let w := serve_all server empty_world inputs in
  registered (WaitListener r id) (listeners_of h w) ≤ 1
  ∧ (replies_of r w ≠ [] →
     registered (WaitListener r id) (listeners_of h w) = 0).
Proof.
  intros w. pose proof (tidy_serve_all inputs r) as Hw. fold w in Hw.
  assert (Hidle : idle r w →
            registered (WaitListener r id) (listeners_of h w) = 0).
  { intros Hi.
    destruct (decide (0 < registered (WaitListener r id) (listeners_of h w)))
      as [Hpos|]; [|lia].
    apply registered_elem, list_elem_of_fmap in Hpos as (g & Hfn & Hg).
    destruct (Hi h g Hg). by rewrite <- Hfn. }
  destruct Hw as [Hi | (h' & id' & Hb)].
  - rewrite (Hidle Hi). split; [lia|done].
  - split; [|by rewrite (bz_replies _ _ _ _ Hb)].
    destruct (bz_placed _ _ _ _ Hb) as [Hp Hone].
    destruct (decide (0 < registered (WaitListener r id) (listeners_of h w)))
      as [Hpos|]; [|lia].
    apply registered_elem, list_elem_of_fmap in Hpos as (g & Hfn & Hg).
    destruct (Hp h g Hg) as [-> ->]; [by rewrite <- Hfn|].
    simpl in Hfn. by injection Hfn as ->.
Qed.

Lemma server_removes_answered_handlers_witness :
  let start := [Core (GetQR (Some "s1") ""); Core (Settle 0 ok None);
                 Core (Settle 1 ok blank)] in
  registered (WaitListener 0 "s1")
    (listeners_of 0 (serve_all server empty_world start)) = 1
  ∧ replies_of 0
      (serve_all server empty_world (start ++ [Core (Advance 10000)])) ≠ []
  ∧ registered (WaitListener 0 "s1")
      (listeners_of 0
         (serve_all server empty_world (start ++ [Core (Advance 10000)])))
    = 0.
Proof.
  split; [reflexivity|]. split; [discriminate|].
  apply (server_removes_answered_handlers
           [Core (GetQR (Some "s1") ""); Core (Settle 0 ok None);
            Core (Settle 1 ok blank); Core (Advance 10000)] 0 "s1" 0).
  discriminate.
Defined.

(** ** The session-id message of part_000 *)

Lemma sends_call h c w :
  sends h (call c w) = sends h w ++ (if is_send h c then [c] else []).
Proof.
  unfold sends. simpl. rewrite filter_app. f_equal.
  rewrite filter_cons, filter_nil. destruct (is_send h c) eqn:Hc.
  - by rewrite decide_True.
  - rewrite decide_False; [done|congruence].
Qed.

Section Paired.
Variable who : option (nat * nat * list Call).

Local Abbreviation paired := (paired who).

Lemma paired_frame w w' :
  objs w' = objs w → calls w' = calls w → socks w' = socks w →
  paired w → paired w'.
Proof.
  intros Ho Hc Hs [H1 H2 H3 H4].
  constructor; unfold sends, listeners_of in *; rewrite ?Ho, ?Hc, ?Hs; done.
Qed.

Lemma paired_socks w w' :
  objs w' = objs w → calls w' = calls w →
  length (socks w') = length (socks w) →
  (∀ h g id l, g ∈ listeners_of h w' → fn g = SessionListener id l →
               g ∈ listeners_of h w) →
  paired w → paired w'.
Proof.
  intros Ho Hc Hs Hl [H1 H2 H3 H4].
  constructor; unfold sends in *; rewrite ?Ho, ?Hc, ?Hs; try done.
  intros h g id l Hg Hfn. apply (H1 h g id l); [|done]. by apply (Hl h g id l).
Qed.

Lemma paired_with_req r f w : paired w → paired (with_req r f w).
Proof. by apply paired_frame. Qed.

Lemma paired_spawn t w : paired w → paired (spawn t w).
Proof. by apply paired_frame. Qed.

Lemma paired_with_sessions f w : paired w → paired (with_sessions f w).
Proof. by apply paired_frame. Qed.

Lemma paired_kept h f w :
  (∀ s, listeners (f s) = listeners s) → paired w → paired (with_sock h f w).
Proof.
  intros Hf. apply paired_socks; simpl; try done.
  - by rewrite length_alter.
  - intros h' g id l. by rewrite listeners_of_kept.
Qed.

Lemma paired_ev_off h f w : paired w → paired (ev_off h f w).
Proof.
  apply paired_socks; simpl; try done.
  - by rewrite length_alter.
  - intros h' g id l Hg _. destruct (decide (h = h')) as [<- | Hne].
    + rewrite listeners_of_ev_off in Hg. by apply elem_of_remove_last in Hg.
    + unfold ev_off in Hg. by rewrite listeners_of_other in Hg.
Qed.

Lemma paired_ev_on h g w :
  (∀ id l, fn g ≠ SessionListener id l) → paired w → paired (ev_on h g w).
Proof.
  intros Hg. apply paired_socks; simpl; try done.
  - by rewrite length_alter.
  - intros h' g' id l. rewrite listeners_of_ev_on.
    intros [Hin | Hin]%elem_of_app Hfn; [done|].
    case_bool_decide; [|by apply elem_of_nil in Hin].
    apply list_elem_of_singleton in Hin as ->. by destruct (Hg id l).
Qed.

Lemma paired_unhandled w : paired w → paired (unhandled w).
Proof. by apply paired_frame. Qed.

Lemma paired_call c w :
  (∀ h, is_send h c = false) → paired w → paired (call c w).
Proof.
  intros Hc [H1 H2 H3 H4]. constructor; try done.
  intros l h cs Hwho. destruct (H4 l h cs Hwho) as (s & Hl & Hh & Hs & Hcs).
  exists s. split_and!; [done..|].
  by rewrite sends_call, Hc, app_nil_r.
Qed.

Lemma paired_with_obj l f w :
  (∀ s, sock (f s) = sock s
        ∧ (sentSessionMsg s = true → sentSessionMsg (f s) = true)) →
  paired w → paired (with_obj l f w).
Proof.
  intros Hf [H1 H2 H3 H4].
  assert (Hl : ∀ l' s', alter f l (objs w) !! l' = Some s' →
            ∃ s, objs w !! l' = Some s ∧ sock s' = sock s
                 ∧ (sentSessionMsg s = true → sentSessionMsg s' = true)).
  { intros l' s'. destruct (decide (l = l')) as [<- | Hne].
    - rewrite list_lookup_alter_eq.
      destruct (objs w !! l) as [s|]; [|done]. intros [= <-].
      exists s. by destruct (Hf s).
    - rewrite list_lookup_alter_ne by done. intros Hs'. by exists s'. }
  assert (Hr : ∀ l' s, objs w !! l' = Some s →
            ∃ s', alter f l (objs w) !! l' = Some s' ∧ sock s' = sock s
                  ∧ (sentSessionMsg s = true → sentSessionMsg s' = true)).
  { intros l' s Hs. destruct (decide (l = l')) as [<- | Hne].
    - rewrite list_lookup_alter_eq, Hs. simpl. exists (f s).
      by destruct (Hf s).
    - rewrite list_lookup_alter_ne by done. by exists s. }
  constructor; simpl.
  - intros h g id l' Hg Hfn. destruct (H1 h g id l' Hg Hfn) as (s & Hs & Hh).
    destruct (Hr l' s Hs) as (s' & Hs' & Hsock & _). exists s'.
    split; [done|congruence].
  - intros l1 l2 s1 s2 Hl1 Hl2 Heq.
    destruct (Hl l1 s1 Hl1) as (s1' & Hs1 & Hk1 & _).
    destruct (Hl l2 s2 Hl2) as (s2' & Hs2 & Hk2 & _).
    apply (H2 l1 l2 s1' s2'); [done..|congruence].
  - intros l' s' Hl'. destruct (Hl l' s' Hl') as (s & Hs & Hk & _).
    rewrite Hk. by apply (H3 l').
  - intros l' h cs Hwho.
    destruct (H4 l' h cs Hwho) as (s & Hs & Hh & Hflag & Hcs).
    destruct (Hr l' s Hs) as (s' & Hs' & Hsock & Hkeep). exists s'.
    split_and!; [done|congruence|by apply Hkeep|done].
Qed.

Ltac paired_tac :=
  repeat first
    [ assumption
    | match goal with
      | Hw : paired ?w0 |- paired ?w1 =>
          exact (paired_frame w0 w1 eq_refl eq_refl eq_refl Hw)
      end
    | apply paired_with_req
    | apply paired_unhandled
    | apply paired_spawn
    | apply paired_with_sessions
    | apply paired_ev_off
    | apply paired_ev_on; [simpl; congruence|]
    | apply paired_kept; [done|]
    | apply paired_call; [done|]
    | apply paired_with_obj; [done|] ].

Lemma paired_handler r id h u w :
  paired w → paired (handler part_000 r id h u w).
Proof.
  intros Hw. unfold handler, handler_open. repeat case_match; paired_tac.
Qed.

Lemma paired_return_to k id s w :
  paired w → paired (return_to part_000 k id s w).
Proof.
  intros Hw. destruct k; simpl; unfold qr_route_k, pair_route_k; cbv zeta;
    repeat case_match; paired_tac.
Qed.

Lemma paired_createSession sessionId rnd k w :
  paired w → paired (createSession part_000 sessionId rnd k w).
Proof.
  intros Hw. unfold createSession. cbv zeta. case_match.
  - by apply paired_return_to.
  - simpl. paired_tac.
  - paired_tac.
Qed.

(** A new session object on a new socket, with its listener. *)
Lemma paired_construct k id m w :
  paired w → paired (construct part_000 k id m w).
Proof.
  intros [H1 H2 H3 H4]. unfold construct. cbv zeta.
  apply paired_return_to.
  set (h := length (socks w)). set (l := length (objs w)).
  set (s0 := mkSession h None 0 None "" false).
  change (paired
            (ev_on h (mkReg (SessionListener id l) false)
               (on_creds h
                  (with_sessions <[id := l]>
                     (new_obj s0
                        (new_sock (mkSock (made_user m) [] 0
                                     (made_pairing m)) w)))))).
  assert (Hobjs : ∀ l' s', (objs w ++ [s0]) !! l' = Some s' →
            objs w !! l' = Some s' ∨ l' = l ∧ s' = s0).
  { intros l' s' [Hl | [Hl Hs]]%lookup_app_Some; [by left|right].
    apply list_lookup_singleton_Some in Hs as [? <-]. subst l.
    split; [lia|done]. }
  assert (Hls : ∀ h',
            listeners_of h'
              (ev_on h (mkReg (SessionListener id l) false)
                 (on_creds h
                    (with_sessions <[id := l]>
                       (new_obj s0
                          (new_sock (mkSock (made_user m) [] 0
                                       (made_pairing m)) w))))) =
            listeners_of h' w
            ++ (if bool_decide (h' = h)
                then [mkReg (SessionListener id l) false] else [])).
  { intros h'. rewrite listeners_of_ev_on. f_equal.
    - unfold on_creds. rewrite listeners_of_kept by done.
      apply (listeners_of_blank _ _ _ w h').
    - apply (f_equal (λ b : bool, if b then [_] else [])).
      apply bool_decide_ext. simpl.
      rewrite length_alter, length_app. simpl. subst h. split.
      + by intros [-> _].
      + intros ->. split; [done|lia]. }
  constructor.
  - intros h' g id' l' Hg Hfn.
    change (objs _) with (objs w ++ [s0]).
    rewrite Hls in Hg. apply elem_of_app in Hg as [Hg | Hg].
    + destruct (H1 h' g id' l' Hg Hfn) as (s & Hs & Hh). exists s.
      split; [|done]. by apply lookup_app_l_Some.
    + case_bool_decide as Hh; [|by apply elem_of_nil in Hg].
      apply list_elem_of_singleton in Hg as ->. simpl in Hfn.
      injection Hfn as _ <-. exists s0. split; [|by subst h'].
      subst l. by rewrite lookup_new.
  - change (objs _) with (objs w ++ [s0]).
    intros l1 l2 s1 s2 Hl1 Hl2 Heq.
    destruct (Hobjs l1 s1 Hl1) as [Ho1 | [-> ->]];
      destruct (Hobjs l2 s2 Hl2) as [Ho2 | [-> ->]]; try done.
    + by apply (H2 l1 l2 s1 s2).
    + pose proof (H3 l1 s1 Ho1). simpl in Heq. subst h. lia.
    + pose proof (H3 l2 s2 Ho2). simpl in Heq. subst h. lia.
  - change (objs _) with (objs w ++ [s0]). simpl socks.
    rewrite !length_alter, length_app. simpl.
    intros l' s' Hl'. destruct (Hobjs l' s' Hl') as [Ho | [-> ->]].
    + pose proof (H3 l' s' Ho). lia.
    + simpl. subst h. lia.
  - intros l' h' cs Hwho.
    destruct (H4 l' h' cs Hwho) as (s & Hs & Hh & Hflag & Hcs).
    exists s. split_and!; [|done..].
    change (objs _) with (objs w ++ [s0]). by apply lookup_app_l_Some.
Qed.

Lemma paired_settle k o mk w :
  paired w → paired (settle part_000 k o mk w).
Proof.
  intros Hw. unfold settle. destruct (tasks w !! k) as [[t|]|]; try done.
  assert (Hf : paired (finish_task k w)) by paired_tac.
  revert Hf. generalize (finish_task k w). clear Hw. intros w' Hw.
  destruct t as [c id|c id|r id p|r id h u|r sid id|l]; simpl.
  - unfold auth_settled. case_match; simpl; paired_tac.
  - unfold version_settled. repeat case_match; try done;
      [apply paired_construct|simpl..]; paired_tac.
  - unfold cached_encoded. case_match; paired_tac.
  - destruct o; [|paired_tac]. unfold handler_open. case_match; paired_tac.
  - destruct o; paired_tac.
  - unfold send_settled. paired_tac.
Qed.

Lemma paired_fires rs : ∀ w,
  paired w → paired (foldl (fire part_000) w rs).
Proof.
  induction rs as [|r rs IH]; intros w Hw; simpl; [done|].
  apply IH. unfold fire, timeout_cb. repeat case_match; paired_tac.
Qed.

(** The listener of a session object, called on the object's socket: the
    message is sent only while [sentSessionMsg] is unset. *)
Lemma paired_session_update id l h u w :
  (∃ s, objs w !! l = Some s ∧ sock s = h) →
  paired w → paired (session_update part_000 id l h u w).
Proof.
  intros (s & Hs & Hh) Hw. unfold session_update.
  set (f := λ s : Session,
         mkSession (sock s) (u_qr u) (now w) (s_user s) (s_connection s)
                   (sentSessionMsg s)).
  assert (H1 : paired (if Js.truthy_opt (u_qr u) then with_obj l f w else w)
               ∧ ∃ s', objs (if Js.truthy_opt (u_qr u) then with_obj l f w
                            else w) !! l = Some s'
                       ∧ sock s' = h
                       ∧ sentSessionMsg s' = sentSessionMsg s).
  { destruct (Js.truthy_opt (u_qr u)).
    - split; [by apply paired_with_obj|]. exists (f s). simpl.
      by rewrite list_lookup_alter_eq, Hs.
    - split; [done|]. by exists s. }
  destruct H1 as [H1 (s' & Hs' & Hh' & Hflag)]. revert H1 Hs'.
  generalize (if Js.truthy_opt (u_qr u) then with_obj l f w else w).
  intros w1 Hw1 Hs'. rewrite Hs'. simpl.
  destruct (bool_decide (u_connection u = Some "open")); simpl; [|done].
  destruct (sentSessionMsg s') eqn:Hsent; simpl; [done|].
  destruct (Js.truthy_opt (sock_user h w1)); [|done].
  apply paired_spawn.
  destruct Hw1 as [K1 K2 K3 K4]. constructor; try done.
  intros l0 h0 cs Hwho.
  destruct (K4 l0 h0 cs Hwho) as (s0 & Hs0 & Hh0 & Hflag0 & Hcs).
  exists s0. split_and!; [done..|].
  rewrite sends_call. simpl.
  rewrite bool_decide_eq_false_2, app_nil_r; [done|].
  intros Heq. assert (l = l0) by (apply (K2 l l0 s' s0); congruence).
  subst l0. congruence.
Qed.

Lemma paired_deliver h u w g :
  (∀ id l, fn g = SessionListener id l →
           ∃ s, objs w !! l = Some s ∧ sock s = h) →
  paired w → paired (deliver part_000 h u w g).
Proof.
  intros Hg Hw. unfold deliver.
  assert (H1 : paired (if once g then ev_off h (fn g) w else w))
    by (destruct (once g); paired_tac).
  assert (Ho : objs (if once g then ev_off h (fn g) w else w) = objs w)
    by (by destruct (once g)).
  revert H1 Ho. generalize (if once g then ev_off h (fn g) w else w).
  intros w1 Hw1 Ho. destruct (fn g) as [id l|r id|r]; simpl.
  - apply paired_session_update; [|done]. rewrite Ho. by apply (Hg id l).
  - by apply paired_handler.
  - case_match; paired_tac.
Qed.

End Paired.

Lemma deliver_keeps_sock h u w g l s :
  objs w !! l = Some s →
  ∃ s', objs (deliver part_000 h u w g) !! l = Some s' ∧ sock s' = sock s.
Proof.
  intros Hs. unfold deliver.
  assert (Ho : objs (if once g then ev_off h (fn g) w else w) = objs w)
    by (by destruct (once g)).
  revert Ho. generalize (if once g then ev_off h (fn g) w else w).
  intros w1 Ho. unfold callback. destruct (fn g) as [id l0|r id|r].
  - rewrite objs_session_update by (by right). rewrite Ho, Hs.
    case_decide; [|by exists s]. simpl. eexists. split; [done|].
    unfold reflect. by case_match.
  - destruct (frame_handler part_000 r id h u w1) as [-> _]; [by right|].
    rewrite Ho. by exists s.
  - case_match; simpl; rewrite Ho; by exists s.
Qed.

Lemma paired_delivered who h u gs : ∀ w,
  (∀ g id l, g ∈ gs → fn g = SessionListener id l →
             ∃ s, objs w !! l = Some s ∧ sock s = h) →
  paired who w → paired who (foldl (deliver part_000 h u) w gs).
Proof.
  induction gs as [|g gs IH]; intros w Hgs Hw; simpl; [done|].
  apply IH.
  - intros g' id l Hg' Hfn.
    destruct (Hgs g' id l) as (s & Hs & Hh); [by right|done|].
    destruct (deliver_keeps_sock h u w g l s Hs) as (s' & Hs' & Hh').
    exists s'. split; [done|congruence].
  - apply paired_deliver; [|done]. intros id l. apply Hgs. by left.
Qed.

Lemma paired_emit who h u w :
  paired who w → paired who (emit part_000 h u w).
Proof.
  intros Hw. unfold emit. destruct (socks w !! h) as [s|] eqn:Hs; [|done].
  apply paired_delivered; [|done].
  intros g id l Hg. apply (pr_listener _ _ Hw).
  unfold listeners_of. by rewrite Hs.
Qed.

Lemma paired_serve who w i :
  paired who w → paired who (serve part_000 w i).
Proof.
  intros Hw.
  destruct i as [[param rnd|sessionId phone rnd|k o mk|h u|h who'|t]
                |sessionId|param readyState|]; simpl.
  - unfold qr_route. cbv zeta. apply paired_createSession.
    by apply (paired_frame who w).
  - unfold pair_route. cbv zeta. case_match.
    + apply paired_createSession. by apply (paired_frame who w).
    + by apply (paired_frame who w).
  - by apply paired_settle.
  - by apply paired_emit.
  - by apply paired_kept.
  - unfold advance. apply paired_fires. by apply (paired_frame who w).
  - unfold me_route. cbv zeta. case_match; by apply (paired_frame who w).
  - done.
  - unfold health_route. by apply (paired_frame who w).
Qed.

Lemma paired_serve_all who inputs : ∀ w,
  paired who w → paired who (serve_all part_000 w inputs).
Proof.
  induction inputs as [|i inputs IH]; intros w Hw; simpl; [done|].
  by apply IH, paired_serve.
Qed.

Lemma paired_start inputs :
  paired None (serve_all part_000 empty_world inputs).
Proof.
  apply paired_serve_all. constructor; try done.
  intros h g id l Hg. unfold listeners_of in Hg. simpl in Hg.
  by apply elem_of_nil in Hg.
Qed.

(** part_000 does not send the session-id message again once a send has
    settled.  When the [sentSessionMsg] flag of a session object is set, no
    later request, settlement, update (["open"] included), login or timer
    makes the service call [sendMessage] on the socket of that session: the
    messages sent on it stay what they were. *)
Theorem session_message_not_resent inputs l s more :
  let w := serve_all part_000 empty_world inputs in
  objs w !! l = Some s →
  sentSessionMsg s = true →
  sends (sock s) (serve_all part_000 w more) = sends (sock s) w.
Proof.
  intros w Hl Hflag.
  pose proof (paired_start inputs) as [H1 H2 H3 _]. fold w in H1, H2, H3.
  assert (Hw : paired (Some (l, sock s, sends (sock s) w)) w).
  { constructor; try done. intros l' h' cs [= <- <- <-]. by exists s. }
  apply (paired_serve_all _ more) in Hw.
  by destruct (pr_sent _ _ Hw l (sock s) _ eq_refl) as (s' & _ & _ & _ & Hcs).
Qed.

Lemma session_message_not_resent_witness :
  let w := serve_all part_000 empty_world
             [Core (GetQR None "ban-1"); Core (Settle 0 ok None);
              Core (Settle 1 ok blank);
              Core (Login 0 "256700000000@s.whatsapp.net");
              Core (Emit 0 (mkUpdate None (Some "open")));
              Core (Settle 2 ok None)] in
  let more := [Core (Emit 0 (mkUpdate None (Some "open")));
               Core (Emit 0 (mkUpdate (Some "Q1") (Some "open")))] in
  sends 0 w = [SendMessage 0 "ban-1"]
  ∧ sends 0 (serve_all part_000 w more) = sends 0 w.
Proof.
  split; [reflexivity|].
  apply (session_message_not_resent
           [Core (GetQR None "ban-1"); Core (Settle 0 ok None);
            Core (Settle 1 ok blank);
            Core (Login 0 "256700000000@s.whatsapp.net");
            Core (Emit 0 (mkUpdate None (Some "open")));
            Core (Settle 2 ok None)]
           0 (mkSession 0 None 0 None "" true)
           [Core (Emit 0 (mkUpdate None (Some "open")));
            Core (Emit 0 (mkUpdate (Some "Q1") (Some "open")))]);
    reflexivity.
Defined.
